(** * IPL predictor: the scoring and leaderboard engine

    A shallow embedding of [utils/scoring.py] (with the point rubric of
    [config.py] and [get_actual_meta] of [utils/db_pg.py]) and the
    properties of its four components: match scoring, meta scoring, the
    overall leaderboard and the weekly winners.

    The engine is written against pandas.  The fragment of pandas it uses
    (left and outer [merge], [groupby(...).sum()], [sort_values], [rank])
    is modelled in [Module Frame] on lists of rows.  Point values are
    integers; the floats pandas introduces when a join leaves holes hold
    small integers exactly, so columns of points are modelled in [Z].

    The engine reads its tables through SQL queries; a call is modelled
    as a function of the rows those queries return ([db]).  An exception
    leaving a function is the result [None]. *)

From Stdlib Require Import List ZArith String Ascii Bool Lia.
From Stdlib Require Import DecimalString DecimalZ.
From Stdlib Require Import Permutation Sorted.
Import ListNotations.

Local Open Scope Z_scope.

(* ------------------------------------------------------------------ *)
(** * The pandas fragment *)

Module Frame.

(** Orders on column values: Python compares strings by code point and
    numbers by value; a tuple of keys is compared lexicographically. *)
Class Cmp (A : Type) := cmp : A -> A -> comparison.

Definition lex (c1 c2 : comparison) : comparison :=
  match c1 with Eq => c2 | _ => c1 end.

#[export] Instance Cmp_Z : Cmp Z := Z.compare.
#[export] Instance Cmp_string : Cmp string := String.compare.
#[export] Instance Cmp_prod {A B : Type} `{Cmp A} `{Cmp B} : Cmp (A * B) :=
  fun x y => lex (cmp (fst x) (fst y)) (cmp (snd x) (snd y)).

Definition not_gt (c : comparison) : bool :=
  match c with Gt => false | _ => true end.

Definition is_eq (c : comparison) : bool :=
  match c with Eq => true | _ => false end.

Definition cmp_leb {A : Type} `{Cmp A} (x y : A) : bool := not_gt (cmp x y).
Definition cmp_eqb {A : Type} `{Cmp A} (x y : A) : bool := is_eq (cmp x y).

(** A stable sort: [x] is placed before the first element it does not
    exceed, so rows with equal keys keep their input order. *)
Fixpoint insert_by {A : Type} (le : A -> A -> bool) (x : A) (l : list A) : list A :=
  match l with
  | [] => [x]
  | y :: l' => if le x y then x :: l else y :: insert_by le x l'
  end.

Definition sort_by {A : Type} (le : A -> A -> bool) (l : list A) : list A :=
  fold_right (insert_by le) [] l.

(** The distinct values of a list, first occurrences kept. *)
Fixpoint dedup {A : Type} (eqb : A -> A -> bool) (l : list A) : list A :=
  match l with
  | [] => []
  | x :: t => x :: filter (fun y => negb (eqb x y)) (dedup eqb t)
  end.

Fixpoint filter_map {A B : Type} (f : A -> option B) (l : list A) : list B :=
  match l with
  | [] => []
  | x :: t => match f x with
              | Some y => y :: filter_map f t
              | None => filter_map f t
              end
  end.

Definition zsum (l : list Z) : Z := fold_right Z.add 0 l.

(** [Series.max()]; an empty column has no maximum. *)
Definition max_of (l : list Z) : option Z :=
  match l with
  | [] => None
  | x :: t => Some (fold_left Z.max t x)
  end.

(** [df.groupby(keys)] with the defaults [sort=True, dropna=True]: a row
    whose key has a null component ([key r = None]) belongs to no group;
    the groups come in ascending key order and each keeps its rows in
    frame order. *)
Definition in_group {R K : Type} `{Cmp K} (key : R -> option K) (k : K) (r : R) : bool :=
  match key r with
  | Some k' => cmp_eqb k k'
  | None => false
  end.

Definition group_keys {R K : Type} `{Cmp K} (key : R -> option K) (rows : list R) : list K :=
  sort_by cmp_leb (dedup cmp_eqb (filter_map key rows)).

Definition groupby {R K : Type} `{Cmp K} (key : R -> option K) (rows : list R)
  : list (K * list R) :=
  map (fun k => (k, filter (in_group key k) rows)) (group_keys key rows).

(** [left.merge(right, on=..., how="left")]: every left row is kept, in
    order; it is paired with each matching right row, or padded with
    nulls when there is none. *)
Definition merge_left {L R O : Type} (on : L -> R -> bool)
  (both : L -> R -> O) (left_only : L -> O) (ls : list L) (rs : list R) : list O :=
  flat_map (fun l => match filter (on l) rs with
                     | [] => [left_only l]
                     | ms => map (both l) ms
                     end) ls.

(** [left.merge(right, on=key, how="outer")]: the union of the keys of
    both frames, sorted lexicographically as pandas documents for an
    outer join; a key present on one side only is padded on the other. *)
Definition merge_outer {L R K O : Type} `{Cmp K} (kl : L -> K) (kr : R -> K)
  (both : L -> R -> O) (left_only : L -> O) (right_only : R -> O)
  (ls : list L) (rs : list R) : list O :=
  flat_map (fun k =>
              match filter (fun l => cmp_eqb k (kl l)) ls,
                    filter (fun r => cmp_eqb k (kr r)) rs with
              | [], rr => map right_only rr
              | ll, [] => map left_only ll
              | ll, rr => flat_map (fun l => map (both l) rr) ll
              end)
           (sort_by cmp_leb (dedup cmp_eqb (map kl ls ++ map kr rs))).

(** [Series.rank(method="min", ascending=False)]: one more than the
    number of entries that are strictly larger. *)
Definition rank_min (col : list Z) (v : Z) : Z :=
  1 + Z.of_nat (List.length (filter (fun v' => v <? v') col)).

End Frame.
Import Frame.

(* ------------------------------------------------------------------ *)
(** * config.py *)

Inductive point_key := match_winner | playoff_team | finalist | champion.

Definition POINTS (k : point_key) : Z :=
  match k with
  | match_winner => 5
  | playoff_team => 10
  | finalist => 15
  | champion => 20
  end.

(* ------------------------------------------------------------------ *)
(** * Stored data

    A nullable SQL column is an [option]. *)

Record user := {
  u_email : string;
  u_name : option string }.

(** A row of the fixtures query of [_load_baseframes] (fixtures left
    joined with results): [x_winner] is [None] until a result exists. *)
Record fixture := {
  x_match_id : Z;
  x_match_date : option string;
  x_team_a : option string;
  x_team_b : option string;
  x_week : option Z;
  x_winner : option string }.

Record prediction := {
  p_email : string;
  p_match_id : Z;
  p_predicted_winner : option string }.

Record meta_prediction := {
  m_email : string;
  m_playoff_teams : option string;
  m_finalists : option string;
  m_champion : option string }.

(** What the engine reads on one call. *)
Record db := {
  users : list user;
  fixtures : list fixture;
  predictions_match : list prediction;
  predictions_meta : list meta_prediction;
  meta_actuals : list (string * option string) }.

(* ------------------------------------------------------------------ *)
(** * utils/scoring.py: match scoring *)

(** A prediction joined with the [week] and [winner] of its fixture. *)
Record joined := {
  j_email : string;
  j_match_id : Z;
  j_predicted_winner : option string;
  j_week : option Z;
  j_winner : option string }.

(** A row of the match-scoring frame. *)
Record scored := {
  s_email : string;
  s_match_id : Z;
  s_predicted_winner : option string;
  s_week : option Z;
  s_winner : option string;
  s_match_points : Z;
  s_name : option string }.

(** The frame [compute_match_scores] returns.  The [name] column is
    attached only when the users frame is not empty: [mf_named] records
    whether the column exists ([s_name] is [None] in every row when it
    does not). *)
Record match_frame := {
  mf_named : bool;
  mf_rows : list scored }.

(** [==] on nullable text *)
Definition opt_eqb (a b : option string) : bool :=
  match a, b with
  | Some x, Some y => String.eqb x y
  | None, None => true
  | _, _ => false
  end.

(** The rows of [pred.merge(fixtures[["match_id", "week", "winner"]],
    on="match_id", how="left")]: with the fixture, and without one. *)
Definition join_fixture (p : prediction) (f : fixture) : joined :=
  {| j_email := p_email p; j_match_id := p_match_id p;
     j_predicted_winner := p_predicted_winner p;
     j_week := x_week f; j_winner := x_winner f |}.

Definition no_fixture (p : prediction) : joined :=
  {| j_email := p_email p; j_match_id := p_match_id p;
     j_predicted_winner := p_predicted_winner p;
     j_week := None; j_winner := None |}.

Definition score_row (r : joined) : Z :=
  match j_winner r with
  | None => 0
  | Some w =>
      if opt_eqb (j_predicted_winner r) (Some w) then POINTS match_winner else 0
  end.

(** The row with its [match_points] and, when names are attached, its
    [name]. *)
Definition with_points (r : joined) (n : option string) : scored :=
  {| s_email := j_email r; s_match_id := j_match_id r;
     s_predicted_winner := j_predicted_winner r;
     s_week := j_week r; s_winner := j_winner r;
     s_match_points := score_row r; s_name := n |}.

Definition is_empty {A : Type} (l : list A) : bool :=
  match l with [] => true | _ => false end.

Definition compute_match_scores (d : db) : match_frame :=
  let pred := predictions_match d in
  if is_empty pred then {| mf_named := false; mf_rows := [] |}
  else
    let df := merge_left (fun p f => Z.eqb (p_match_id p) (x_match_id f))
                join_fixture no_fixture pred (fixtures d) in
    if is_empty (users d)
    then {| mf_named := false; mf_rows := map (fun r => with_points r None) df |}
    else {| mf_named := true;
            mf_rows := merge_left (fun r u => String.eqb (j_email r) (u_email u))
                         (fun r u => with_points r (u_name u))
                         (fun r => with_points r None) df (users d) |}.

(* ------------------------------------------------------------------ *)
(** * utils/scoring.py: meta scoring *)

(** The Python values [json.loads] can return.  Numbers are the integer
    literals. *)
#[local] Set Warnings "-register-all".
Inductive pyval :=
| PyNone
| PyBool (b : bool)
| PyNum (n : Z)
| PyStr (s : string)
| PyList (l : list pyval)
| PyDict (kv : list (string * pyval)).

(** The hashable scalars a Python set can hold.  [True] and [False] hash
    and compare as [1] and [0], so they are the numbers. *)
Inductive atom :=
| ANone
| ANum (n : Z)
| AStr (s : string).

Definition atom_eqb (a b : atom) : bool :=
  match a, b with
  | ANone, ANone => true
  | ANum x, ANum y => Z.eqb x y
  | AStr x, AStr y => String.eqb x y
  | _, _ => false
  end.

(** [hash(v)]: lists and dicts are unhashable ([TypeError]). *)
Definition to_atom (v : pyval) : option atom :=
  match v with
  | PyNone => Some ANone
  | PyBool b => Some (ANum (if b then 1 else 0))
  | PyNum n => Some (ANum n)
  | PyStr s => Some (AStr s)
  | PyList _ | PyDict _ => None
  end.

Fixpoint all_some {A : Type} (l : list (option A)) : option (list A) :=
  match l with
  | [] => Some []
  | None :: _ => None
  | Some x :: t => match all_some t with
                   | Some t' => Some (x :: t')
                   | None => None
                   end
  end.

(** [set(v)]: the distinct elements of an iterable; [None] is the
    [TypeError] of a value that is not iterable or holds an unhashable
    element.  A string iterates over its characters, a dict over its
    keys. *)
Definition py_set (v : pyval) : option (list atom) :=
  match v with
  | PyList l => option_map (dedup atom_eqb) (all_some (map to_atom l))
  | PyStr s =>
      Some (dedup atom_eqb
              (map (fun c => AStr (String c EmptyString)) (list_ascii_of_string s)))
  | PyDict kv => Some (dedup atom_eqb (map (fun e => AStr (fst e)) kv))
  | PyNone | PyBool _ | PyNum _ => None
  end.

Definition py_truthy (v : pyval) : bool :=
  match v with
  | PyNone => false
  | PyBool b => b
  | PyNum n => negb (Z.eqb n 0)
  | PyStr s => negb (String.eqb s EmptyString)
  | PyList l => negb (is_empty l)
  | PyDict kv => negb (is_empty kv)
  end.

(** [x or d] *)
Definition py_or (x d : pyval) : pyval := if py_truthy x then x else d.

(** [x or d] on a nullable text column *)
Definition text_or (x : option string) (d : string) : string :=
  match x with
  | Some s => if String.eqb s EmptyString then d else s
  | None => d
  end.

Definition str_truthy (x : option string) : bool :=
  match x with
  | Some s => negb (String.eqb s EmptyString)
  | None => false
  end.

Record meta_score := {
  ms_email : string;
  ms_playoff_points : Z;
  ms_finalist_points : Z;
  ms_champion_points : Z;
  ms_meta_total : Z }.

Definition bind {A B : Type} (x : option A) (f : A -> option B) : option B :=
  match x with Some a => f a | None => None end.

Notation "x <- e ;; k" := (bind e (fun x => k))
  (at level 61, e at next level, right associativity).

Section Engine.

(** [json.loads] of the Python standard library: the decoded value, or
    [None] when it raises on text that is not JSON. *)
Variable json_loads : string -> option pyval.

(** [get_actual_meta] of [utils/db_pg.py]: [PyNone] when the key has no
    row or a null value, the decoded value otherwise, and the raw text
    when it is not JSON. *)
Definition get_actual_meta (tbl : list (string * option string)) (key : string) : pyval :=
  match find (fun row => String.eqb (fst row) key) tbl with
  | Some (_, Some value) =>
      match json_loads value with
      | Some v => v
      | None => PyStr value
      end
  | _ => PyNone
  end.

(** The [try] block of [calc_row]; [None] when it raises. *)
Definition decode_row (r : meta_prediction)
  : option (list atom * list atom * option string) :=
  playoffs_pred <- (v <- json_loads (text_or (m_playoff_teams r) "[]") ;; py_set v) ;;
  finalists_pred <- (v <- json_loads (text_or (m_finalists r) "[]") ;; py_set v) ;;
  Some (playoffs_pred, finalists_pred, m_champion r).

(** The predicted fields [calc_row] scores: those of the [try] block, or
    the empty ones of its [except] branch. *)
Definition predicted (r : meta_prediction) : list atom * list atom * option string :=
  match decode_row r with
  | Some p => p
  | None => ([], [], None)
  end.

(** [t in s] *)
Definition mem (t : atom) (s : list atom) : bool := existsb (atom_eqb t) s.

(** [champion_pred and actual_champion and champion_pred ==
    actual_champion]: a string equals only the same string. *)
Definition champion_hit (champion_pred : option string) (actual_champion : pyval) : bool :=
  str_truthy champion_pred && py_truthy actual_champion &&
  match champion_pred, actual_champion with
  | Some c, PyStr a => String.eqb c a
  | _, _ => false
  end.

Definition calc_row (actual_playoffs actual_finalists : list atom)
  (actual_champion : pyval) (r : meta_prediction) : meta_score :=
  let '(playoffs_pred, finalists_pred, champion_pred) := predicted r in
  let playoff_pts :=
    zsum (map (fun _ => POINTS playoff_team)
              (filter (fun t => mem t actual_playoffs) playoffs_pred)) in
  let finalist_pts :=
    zsum (map (fun _ => POINTS finalist)
              (filter (fun t => mem t actual_finalists) finalists_pred)) in
  let champion_pts :=
    if champion_hit champion_pred actual_champion then POINTS champion else 0 in
  {| ms_email := m_email r;
     ms_playoff_points := playoff_pts;
     ms_finalist_points := finalist_pts;
     ms_champion_points := champion_pts;
     ms_meta_total := playoff_pts + finalist_pts + champion_pts |}.

(** The actual playoff and finalist sets; [None] when [set(...)] raises
    on what the administrator stored. *)
Definition load_actual_sets (tbl : list (string * option string))
  : option (list atom * list atom) :=
  actual_playoffs <- py_set (py_or (get_actual_meta tbl "playoff_teams") (PyList [])) ;;
  actual_finalists <- py_set (py_or (get_actual_meta tbl "finalists") (PyList [])) ;;
  Some (actual_playoffs, actual_finalists).

(** [None] is an exception leaving the function. *)
Definition compute_meta_scores (d : db) : option (list meta_score) :=
  let meta := predictions_meta d in
  if is_empty meta then Some []
  else
    actuals <- load_actual_sets (meta_actuals d) ;;
    let actual_champion := get_actual_meta (meta_actuals d) "champion" in
    Some (map (calc_row (fst actuals) (snd actuals) actual_champion) meta).

(* ------------------------------------------------------------------ *)
(** * utils/scoring.py: the overall leaderboard *)

(** A row of the outer join of the match sums with the meta scores,
    after [fillna(0)]. *)
Record merged := {
  g_email : string;
  g_match_points : Z;
  g_playoff_points : Z;
  g_finalist_points : Z;
  g_champion_points : Z;
  g_meta_total : Z }.

(** A leaderboard row before the final selection of columns. *)
Record lb_row := {
  lb_rank : Z;
  lb_name : option string;
  lb_email : string;
  lb_match_points : Z;
  lb_playoff_points : Z;
  lb_finalist_points : Z;
  lb_champion_points : Z;
  lb_meta_total : Z;
  lb_total_points : Z }.

(** A row of the returned leaderboard: [lb[cols]]. *)
Record standing := {
  rank : Z;
  name : option string;
  email : string;
  match_points : Z;
  playoff_points : Z;
  finalist_points : Z;
  champion_points : Z;
  total_points : Z }.

(** [groupby("email", as_index=False)["match_points"].sum()] on one
    group *)
Definition match_sum (g : string * list scored) : string * Z :=
  (fst g, zsum (map s_match_points (snd g))).

(** The rows of [match_agg.merge(meta_scores, on="email",
    how="outer").fillna(0)]: a user on both sides, with match points
    only, and with meta scores only. *)
Definition join_both (a : string * Z) (m : meta_score) : merged :=
  {| g_email := fst a; g_match_points := snd a;
     g_playoff_points := ms_playoff_points m;
     g_finalist_points := ms_finalist_points m;
     g_champion_points := ms_champion_points m;
     g_meta_total := ms_meta_total m |}.

Definition match_only (a : string * Z) : merged :=
  {| g_email := fst a; g_match_points := snd a;
     g_playoff_points := 0; g_finalist_points := 0;
     g_champion_points := 0; g_meta_total := 0 |}.

Definition meta_only (m : meta_score) : merged :=
  {| g_email := ms_email m; g_match_points := 0;
     g_playoff_points := ms_playoff_points m;
     g_finalist_points := ms_finalist_points m;
     g_champion_points := ms_champion_points m;
     g_meta_total := ms_meta_total m |}.

(** The row with its [name] and [total_points] columns; [rank] is set
    after sorting. *)
Definition with_total (g : merged) (n : option string) : lb_row :=
  {| lb_rank := 0; lb_name := n; lb_email := g_email g;
     lb_match_points := g_match_points g;
     lb_playoff_points := g_playoff_points g;
     lb_finalist_points := g_finalist_points g;
     lb_champion_points := g_champion_points g;
     lb_meta_total := g_meta_total g;
     lb_total_points := g_match_points g + g_meta_total g |}.

(** [lb["rank"] = ...] on one row *)
Definition set_rank (k : Z) (r : lb_row) : lb_row :=
  {| lb_rank := k; lb_name := lb_name r; lb_email := lb_email r;
     lb_match_points := lb_match_points r;
     lb_playoff_points := lb_playoff_points r;
     lb_finalist_points := lb_finalist_points r;
     lb_champion_points := lb_champion_points r;
     lb_meta_total := lb_meta_total r;
     lb_total_points := lb_total_points r |}.

(** [lb[cols]] on one row *)
Definition select_cols (r : lb_row) : standing :=
  {| rank := lb_rank r; name := lb_name r; email := lb_email r;
     match_points := lb_match_points r;
     playoff_points := lb_playoff_points r;
     finalist_points := lb_finalist_points r;
     champion_points := lb_champion_points r;
     total_points := lb_total_points r |}.

(** [sort_values(["total_points", "match_points", "playoff_points"],
    ascending=[False, False, False])]: [x] may come before [y]. *)
Definition lb_before (x y : lb_row) : bool :=
  not_gt (lex (cmp (lb_total_points y) (lb_total_points x))
         (lex (cmp (lb_match_points y) (lb_match_points x))
              (cmp (lb_playoff_points y) (lb_playoff_points x)))).

(** The leaderboard frame before [lb = lb[cols]].  The columns the
    source adds when absent always exist after the outer join. *)
Definition leaderboard_frame (match_scores : match_frame)
  (meta_scores : list meta_score) (us : list user) : list lb_row :=
  let match_agg :=
    if is_empty (mf_rows match_scores) then []
    else map match_sum (groupby (fun r => Some (s_email r)) (mf_rows match_scores)) in
  let lb := merge_outer fst ms_email join_both match_only meta_only
              match_agg meta_scores in
  let lb := merge_left (fun g u => String.eqb (g_email g) (u_email u))
              (fun g u => with_total g (u_name u))
              (fun g => with_total g None) lb us in
  let lb := sort_by lb_before lb in
  map (fun r => set_rank (rank_min (map lb_total_points lb) (lb_total_points r)) r) lb.

Definition overall_leaderboard (d : db) : option (list standing) :=
  let match_scores := compute_match_scores d in
  meta_scores <- compute_meta_scores d ;;
  Some (map select_cols (leaderboard_frame match_scores meta_scores (users d))).

(* ------------------------------------------------------------------ *)
(** * utils/scoring.py: weekly winners *)

(** A row of the per-user-per-week frame. *)
Record weekly_row := {
  w_email : string;
  w_name : string;
  w_week : Z;
  w_match_points : Z }.

(** The grouping key [["email", "name", "week"]]; null in a row without
    a name or a week. *)
Definition week_key (r : scored) : option (string * (string * Z)) :=
  match s_name r, s_week r with
  | Some n, Some w => Some (s_email r, (n, w))
  | _, _ => None
  end.

(** [groupby(["email", "name", "week"], as_index=False)["match_points"]
    .sum()] on one group *)
Definition week_sum (g : string * (string * Z) * list scored) : weekly_row :=
  let '(e, (n, w), rows) := g in
  {| w_email := e; w_name := n; w_week := w;
     w_match_points := zsum (map s_match_points rows) |}.

(** [sub["match_points"] == top] *)
Definition is_top (top : option Z) (r : weekly_row) : bool :=
  match top with
  | Some t => Z.eqb (w_match_points r) t
  | None => false
  end.

(** [sort_values("name")].  The model keeps rows with equal names in
    table order; pandas' single-key sort leaves their order open. *)
Definition name_before (x y : weekly_row) : bool := cmp_leb (w_name x) (w_name y).

(** [sort_values(["week", "match_points"], ascending=[True, False])] *)
Definition totals_before (x y : weekly_row) : bool :=
  not_gt (lex (cmp (w_week x) (w_week y))
              (cmp (w_match_points y) (w_match_points x))).

(** The body of the loop over [weekly.groupby("week")]: the entry of
    one week. *)
Definition week_winners (g : Z * list weekly_row) : Z * list weekly_row :=
  let '(week, sub) := g in
  let top := max_of (map w_match_points sub) in
  (week, sort_by name_before (filter (is_top top) sub)).

(** [weekly_winners] on the frame of [compute_match_scores]; [None] is
    the [KeyError] of grouping by a [name] column the frame lacks.  The
    mapping is the list of its entries in insertion order. *)
Definition weekly_from (match_scores : match_frame)
  : option (list weekly_row * list (Z * list weekly_row)) :=
  if is_empty (mf_rows match_scores) then Some ([], [])
  else if negb (mf_named match_scores) then None
  else
    let weekly := map week_sum (groupby week_key (mf_rows match_scores)) in
    let winners_by_week :=
      map week_winners (groupby (fun r => Some (w_week r)) weekly) in
    let weekly_totals := sort_by totals_before weekly in
    Some (weekly_totals, winners_by_week).

Definition weekly_winners (d : db)
  : option (list weekly_row * list (Z * list weekly_row)) :=
  weekly_from (compute_match_scores d).

(** [winners_by_week.get(w)] *)
Definition winners_get (winners_by_week : list (Z * list weekly_row)) (w : Z)
  : option (list weekly_row) :=
  option_map snd (find (fun e => Z.eqb (fst e) w) winners_by_week).

End Engine.

(* ------------------------------------------------------------------ *)
(** * utils/db_pg.py: what the pages write and read back *)

(** [INSERT ... ON CONFLICT (key) DO UPDATE SET ...] on a table with a
    primary key: the row that has the key of the new row is updated in
    place, or the new row is added. *)
Fixpoint upsert {R : Type} (same : R -> bool) (update : R -> R) (new : R)
  (tbl : list R) : list R :=
  match tbl with
  | [] => [new]
  | r :: t => if same r then update r :: t else r :: upsert same update new t
  end.

(** [str] of an integer *)
Definition py_str (n : Z) : string := NilEmpty.string_of_int (Z.to_int n).

(** [d.get(k)] on the dict built from key and value pairs in order: a
    key holds the last value given for it. *)
Definition dict_get {V : Type} (items : list (atom * V)) (k : atom) : option V :=
  option_map snd (find (fun e => atom_eqb (fst e) k) (rev items)).

(** [list_weeks]: the distinct non-null weeks of the fixtures, ascending
    (the fixtures query has one row per fixture). *)
Definition list_weeks (d : db) : list Z :=
  sort_by cmp_leb (dedup cmp_eqb (filter_map x_week (fixtures d))).

Section Store.

(** [json.dumps] *)
Variable json_dumps : pyval -> string.

(** [email.strip().lower()] *)
Variable normalize : string -> string.

(** How Postgres reads a text parameter bound to an [INTEGER] column;
    [None] when it rejects the text. *)
Variable pg_int : string -> option Z.

(** [set_actual_meta] ([utils/db.py] runs the same statement) *)
Definition set_actual_meta (tbl : list (string * option string))
  (key : string) (value : pyval) : list (string * option string) :=
  upsert (fun row => String.eqb (fst row) key)
         (fun row => (fst row, Some (json_dumps value)))
         (key, Some (json_dumps value)) tbl.

Definition save_meta_predictions (tbl : list meta_prediction) (email : string)
  (playoff_teams finalists : list string) (champion : string)
  : list meta_prediction :=
  let playoffs_text := json_dumps (PyList (map PyStr playoff_teams)) in
  let finalists_text := json_dumps (PyList (map PyStr finalists)) in
  upsert (fun r => String.eqb (m_email r) (normalize email))
         (fun r => {| m_email := m_email r;
                      m_playoff_teams := Some playoffs_text;
                      m_finalists := Some finalists_text;
                      m_champion := Some champion |})
         {| m_email := normalize email;
            m_playoff_teams := Some playoffs_text;
            m_finalists := Some finalists_text;
            m_champion := Some champion |} tbl.

Definition get_meta_predictions (tbl : list meta_prediction) (email : string)
  : option meta_prediction :=
  find (fun r => String.eqb (m_email r) (normalize email)) tbl.

(** The statement of [save_match_prediction], [INSERT ... ON CONFLICT
    (email, match_id) DO UPDATE], on a row whose two references hold;
    [None] when Postgres rejects [str(match_id)] as an integer. *)
Definition upsert_match_prediction (tbl : list prediction) (email : string)
  (match_id : Z) (predicted_winner : option string) : option (list prediction) :=
  id <- pg_int (py_str match_id) ;;
  Some (upsert (fun r => String.eqb (p_email r) (normalize email)
                         && Z.eqb (p_match_id r) id)
               (fun r => {| p_email := p_email r; p_match_id := p_match_id r;
                            p_predicted_winner := predicted_winner |})
               {| p_email := normalize email; p_match_id := id;
                  p_predicted_winner := predicted_winner |} tbl).

(** [save_match_prediction] under the schema of [init_db], where
    [email] references [users] and [match_id] references [fixtures]:
    a new row whose email has no user or whose match has no fixture is
    refused ([IntegrityError], here [None]); the update of a stored row
    leaves both columns as they are and is not checked again. *)
Definition save_match_prediction (us : list user) (fs : list fixture)
  (tbl : list prediction) (email : string)
  (match_id : Z) (predicted_winner : option string) : option (list prediction) :=
  id <- pg_int (py_str match_id) ;;
  let stored :=
    existsb (fun r => String.eqb (p_email r) (normalize email)
                      && Z.eqb (p_match_id r) id) tbl in
  let has_user := existsb (fun u => String.eqb (u_email u) (normalize email)) us in
  let has_fixture := existsb (fun f => Z.eqb (x_match_id f) id) fs in
  if stored || (has_user && has_fixture)
  then upsert_match_prediction tbl email match_id predicted_winner
  else None.

(** [get_user_match_predictions]: the items of the dict it returns, keyed
    by [str(match_id)]. *)
Definition get_user_match_predictions (tbl : list prediction) (email : string)
  : list (atom * option string) :=
  map (fun r => (AStr (py_str (p_match_id r)), p_predicted_winner r))
      (filter (fun r => String.eqb (p_email r) (normalize email)) tbl).

(* ------------------------------------------------------------------ *)
(** * pages/1_Make_predictions.py *)

(** [match_picks.get(mid, f["team_a"])] with [mid = f["match_id"]], the
    integer of the fixture row *)
Definition default_pick (match_picks : list (atom * option string)) (f : fixture)
  : option string :=
  match dict_get match_picks (ANum (x_match_id f)) with
  | Some pick => pick
  | None => x_team_a f
  end.

(** The [index] of the radio of a fixture *)
Definition radio_index (match_picks : list (atom * option string)) (f : fixture) : nat :=
  let default := default_pick match_picks f in
  if opt_eqb default (x_team_a f) then 0%nat
  else if opt_eqb default (x_team_b f) then 1%nat
  else 0%nat.

(** How a click on Save Predictions ends. *)
Inductive save_outcome :=
| no_fixtures
| champion_missing
| playoffs_not_four
| finalists_not_two
| pick_rejected
| saved.

(** [st.session_state.get(f"pred_{f['match_id']}", f["team_a"])] *)
Definition selected (session_state : string -> option (option string)) (f : fixture)
  : option string :=
  match session_state ("pred_" ++ py_str (x_match_id f))%string with
  | Some sel => sel
  | None => x_team_a f
  end.

(** The loop that saves the match picks; each pick is committed on its
    own, so the picks saved before a rejected one stay.  The form runs
    for the signed-in email, which [sign_in] stored in [users], and over
    the match ids it read from [fixtures]: the two references of
    [save_match_prediction] hold, and each call is the upsert. *)
Fixpoint save_picks (preds : list prediction) (email : string)
  (session_state : string -> option (option string)) (fs : list fixture)
  : list prediction * bool :=
  match fs with
  | [] => (preds, true)
  | f :: fs' =>
      match upsert_match_prediction preds email (x_match_id f)
                                    (selected session_state f) with
      | Some preds' => save_picks preds' email session_state fs'
      | None => (preds, false)
      end
  end.

(** [prediction_form] from the click on Save Predictions on: the two
    tables afterwards and how the click ended. *)
Definition save_predictions (metas : list meta_prediction) (preds : list prediction)
  (fs : list fixture) (email : string) (playoffs finalists : list string)
  (champion : string) (session_state : string -> option (option string))
  : list meta_prediction * list prediction * save_outcome :=
  if is_empty fs then (metas, preds, no_fixtures)
  else if String.eqb champion "" then (metas, preds, champion_missing)
  else if negb (Nat.eqb (List.length playoffs) 4) then (metas, preds, playoffs_not_four)
  else if negb (Nat.eqb (List.length finalists) 2) then (metas, preds, finalists_not_two)
  else
    let metas' := save_meta_predictions metas email playoffs finalists champion in
    let '(preds', ok) := save_picks preds email session_state fs in
    (metas', preds', if ok then saved else pick_rejected).

(* ------------------------------------------------------------------ *)
(** * pages/4_Admin.py *)

(** The click on Save Actuals in [actuals_ui]; [None] when the page
    shows its error and writes nothing. *)
Definition save_actuals (tbl : list (string * option string))
  (playoffs finalists : list string) (champion : string)
  : option (list (string * option string)) :=
  if negb (Nat.eqb (List.length playoffs) 4)
     || negb (Nat.eqb (List.length finalists) 2)
     || String.eqb champion ""
  then None
  else
    let tbl := set_actual_meta tbl "playoff_teams" (PyList (map PyStr playoffs)) in
    let tbl := set_actual_meta tbl "finalists" (PyList (map PyStr finalists)) in
    Some (set_actual_meta tbl "champion" (PyStr champion)).

End Store.

(* ------------------------------------------------------------------ *)
(** * pages/3_Weekly_Winners.py *)

(** What the page puts on the screen, in order. *)
Inductive widget :=
| page_title
| info_no_scores
| info_no_weeks
| week_header (w : Z)
| no_completed
| winners_label
| scores_label
| dataframe (rows : list (string * string * Z)).

(** [frame[["name", "email", "match_points"]]] on one row *)
Definition shown_cols (x : weekly_row) : string * string * Z :=
  (w_name x, w_email x, w_match_points x).

(** The part of the page under the header of one week. *)
Definition week_section (weekly_totals : list weekly_row)
  (winners_by_week : list (Z * list weekly_row)) (w : Z) : list widget :=
  match winners_get winners_by_week w with
  | None => [no_completed]
  | Some winners =>
      if is_empty winners then [no_completed]
      else [winners_label; dataframe (map shown_cols winners);
            scores_label;
            dataframe (map shown_cols
                         (filter (fun x => Z.eqb (w_week x) w) weekly_totals))]
  end.

(** [main]; [None] when [weekly_winners] raises. *)
Definition weekly_page (d : db) : option (list widget) :=
  r <- weekly_winners d ;;
  let '(weekly_totals, winners_by_week) := r in
  Some (page_title ::
        if is_empty weekly_totals then [info_no_scores]
        else
          let weeks := list_weeks d in
          if is_empty weeks then [info_no_weeks]
          else flat_map (fun w => week_header w
                                  :: week_section weekly_totals winners_by_week w)
                        weeks).

(** The values [actuals_ui] reads back before it draws its widgets:
    [set(db.get_actual_meta("playoff_teams") or [])], the same for the
    finalists, and [db.get_actual_meta("champion") or ""]; [None] when a
    [set(...)] raises. *)
Definition existing_actuals (json_loads : string -> option pyval)
  (tbl : list (string * option string)) : option (list atom * list atom * pyval) :=
  actual_playoffs <-
    py_set (py_or (get_actual_meta json_loads tbl "playoff_teams") (PyList [])) ;;
  actual_finalists <-
    py_set (py_or (get_actual_meta json_loads tbl "finalists") (PyList [])) ;;
  Some (actual_playoffs, actual_finalists,
        py_or (get_actual_meta json_loads tbl "champion") (PyStr "")).

(* ------------------------------------------------------------------ *)
(** * Vocabulary of the specifications *)

(** A comparison that is a total preorder: swapping the arguments
    reverses the outcome, and "not greater" is transitive. *)
Record weak_order {A : Type} (c : A -> A -> comparison) : Prop := {
  wo_opp : forall x y, c y x = CompOpp (c x y);
  wo_trans : forall x y z,
    not_gt (c x y) = true -> not_gt (c y z) = true -> not_gt (c x z) = true }.

(** A key order: moreover only equal keys compare [Eq]. *)
Class CmpLaws (A : Type) `{Cmp A} : Prop := {
  cmp_weak : weak_order (@cmp A _);
  cmp_eq : forall x y : A, cmp x y = Eq -> x = y }.

(** What the outcomes of comparing [x y], [y z] and [x z] satisfy. *)
Definition consistent (a b c : comparison) : Prop :=
  (not_gt a = true -> not_gt b = true -> not_gt c = true) /\
  (not_gt b = true -> not_gt (CompOpp c) = true -> not_gt (CompOpp a) = true) /\
  (not_gt (CompOpp c) = true -> not_gt a = true -> not_gt (CompOpp b) = true) /\
  (not_gt (CompOpp b) = true -> not_gt (CompOpp a) = true -> not_gt (CompOpp c) = true).

(** [le] read as a relation. *)
Definition holds {A : Type} (le : A -> A -> bool) : A -> A -> Prop :=
  fun x y => le x y = true.

(** [d'] holds the rows of [d] with the match predictions and the
    fixtures in another order. *)
Definition reordered (d d' : db) : Prop :=
  Permutation (predictions_match d) (predictions_match d') /\
  Permutation (fixtures d) (fixtures d') /\
  users d' = users d /\
  predictions_meta d' = predictions_meta d /\
  meta_actuals d' = meta_actuals d.

(** [d'] holds the rows of [d] with each of the four tables in another
    order. *)
Definition reordered_tables (d d' : db) : Prop :=
  Permutation (predictions_match d) (predictions_match d') /\
  Permutation (fixtures d) (fixtures d') /\
  Permutation (users d) (users d') /\
  Permutation (predictions_meta d) (predictions_meta d') /\
  meta_actuals d' = meta_actuals d.

(** The weekly row of a grouping key and its sum. *)
Definition mk_weekly (k : string * (string * Z)) (v : Z) : weekly_row :=
  {| w_email := fst k; w_name := fst (snd k); w_week := snd (snd k);
     w_match_points := v |}.

(** The three columns a prediction brings to its rows. *)
Definition pred_cols (p : prediction) : string * Z * option string :=
  (p_email p, p_match_id p, p_predicted_winner p).

(** The same columns in a joined row and in a scored row. *)
Definition joined_cols (r : joined) : string * Z * option string :=
  (j_email r, j_match_id r, j_predicted_winner r).

Definition scored_cols (r : scored) : string * Z * option string :=
  (s_email r, s_match_id r, s_predicted_winner r).

(** [x] may stand before [y] under the three descending sort keys. *)
Definition ranks_above (x y : standing) : Prop :=
  total_points x > total_points y \/
  (total_points x = total_points y /\
   (match_points x > match_points y \/
    (match_points x = match_points y /\ playoff_points x >= playoff_points y))).

(** The ranked frame is the sorted frame with a [rank] column computed
    from its [total_points] column. *)
Definition ranked (rows : list lb_row) : list lb_row :=
  map (fun r => set_rank (rank_min (map lb_total_points rows) (lb_total_points r)) r) rows.

(** The members of both sets, each once: the intersection. *)
Definition is_intersection (common a b : list atom) : Prop :=
  NoDup common /\ forall t, In t common <-> In t a /\ In t b.

(** The champion is hit when the prediction is a non-empty name and the
    actual champion is that name. *)
Definition champion_matches (champion_pred : option string) (actual_champion : pyval) : Prop :=
  exists c, champion_pred = Some c /\ c <> EmptyString /\ actual_champion = PyStr c.

(** What a meta-score row holds, given the predicted fields scored. *)
Definition scored_as (actual_playoffs actual_finalists : list atom)
  (actual_champion : pyval)
  (pred : list atom * list atom * option string) (s : meta_score) : Prop :=
  let '(playoffs_pred, finalists_pred, champion_pred) := pred in
  (exists common, is_intersection common playoffs_pred actual_playoffs /\
     ms_playoff_points s = POINTS playoff_team * Z.of_nat (List.length common)) /\
  (exists common, is_intersection common finalists_pred actual_finalists /\
     ms_finalist_points s = POINTS finalist * Z.of_nat (List.length common)) /\
  (champion_matches champion_pred actual_champion ->
     ms_champion_points s = POINTS champion) /\
  (~ champion_matches champion_pred actual_champion -> ms_champion_points s = 0) /\
  ms_meta_total s = ms_playoff_points s + ms_finalist_points s + ms_champion_points s.

(** A row whose payload cannot be decoded scores nothing. *)
Definition zero_score (e : string) : meta_score :=
  {| ms_email := e; ms_playoff_points := 0; ms_finalist_points := 0;
     ms_champion_points := 0; ms_meta_total := 0 |}.

(** The match points of one user, summed over the match-scoring rows. *)
Definition user_match_points (rows : list scored) (e : string) : Z :=
  zsum (map s_match_points (filter (fun s => String.eqb (s_email s) e) rows)).

(** The outer join of the match sums with the meta scores. *)
Definition merged_rows (rows : list scored) (ms : list meta_score) : list merged :=
  merge_outer fst ms_email join_both match_only meta_only
    (map match_sum (groupby (fun r => Some (s_email r)) rows)) ms.

(** What a user's row takes from the meta scores: the user's meta row,
    or zeros when the user has none. *)
Definition meta_part (ms : list meta_score) (e : string) (p f c t : Z) : Prop :=
  (exists m, In m ms /\ ms_email m = e /\
     p = ms_playoff_points m /\ f = ms_finalist_points m /\
     c = ms_champion_points m /\ t = ms_meta_total m) \/
  ((forall m, In m ms -> ms_email m <> e) /\ p = 0 /\ f = 0 /\ c = 0 /\ t = 0).

(** The per-user-per-week totals, before sorting for display. *)
Definition weekly_table (rows : list scored) : list weekly_row :=
  map week_sum (groupby week_key rows).

(** The match-scoring row [r] counts towards the weekly row [x]. *)
Definition counts_towards (x : weekly_row) (r : scored) : Prop :=
  s_email r = w_email x /\ s_name r = Some (w_name x) /\ s_week r = Some (w_week x).

Definition counts_towardsb (x : weekly_row) (r : scored) : bool :=
  String.eqb (s_email r) (w_email x) &&
  opt_eqb (s_name r) (Some (w_name x)) &&
  match s_week r with
  | Some w => Z.eqb w (w_week x)
  | None => false
  end.

(** Week [w] has a row of a named user: a row of that week that enters
    the weekly grouping, whether or not its fixture has a result. *)
Definition has_scored_row (rows : list scored) (w : Z) : Prop :=
  exists r, In r rows /\ s_week r = Some w /\ s_name r <> None.

(** Week [w] has a scored row of a named user: a row of that week on a
    fixture with a result, whose email has a user with a name. *)
Definition has_completed_row (rows : list scored) (w : Z) : Prop :=
  exists r, In r rows /\ s_week r = Some w /\ s_winner r <> None /\ s_name r <> None.

(** [x] is a winner of week [w] in the table: no row of the week has
    more points. *)
Definition is_week_winner (table : list weekly_row) (w : Z) (x : weekly_row) : Prop :=
  In x table /\ w_week x = w /\
  forall y, In y table -> w_week y = w -> w_match_points y <= w_match_points x.

(** The display order of the flat table. *)
Definition week_then_points (x y : weekly_row) : Prop :=
  w_week x < w_week y \/
  (w_week x = w_week y /\ w_match_points x >= w_match_points y).

(** The row has both a name and a week. *)
Definition is_complete (r : scored) : bool :=
  match week_key r with Some _ => true | None => false end.

(** No value is stored for any of the three actual outcomes. *)
Definition actuals_unset (tbl : list (string * option string)) : Prop :=
  forall k v, In (k, Some v) tbl ->
    k <> "playoff_teams"%string /\ k <> "finalists"%string /\ k <> "champion"%string.

(** The row's fixture has a result and the prediction names it. *)
Definition correct_pick (s : scored) : bool :=
  match s_winner s with
  | Some w => opt_eqb (s_predicted_winner s) (Some w)
  | None => false
  end.

(** The primary key of [predictions_match] *)
Definition pick_key (r : prediction) : string * Z := (p_email r, p_match_id r).

(* ------------------------------------------------------------------ *)
(** * Sample data *)

Local Open Scope string_scope.

Definition dq : string := String (ascii_of_nat 34) EmptyString.

(** The JSON text of a list of team names, as [json.dumps] writes it. *)
Definition dumps (teams : list string) : string :=
  ("[" ++ String.concat ", " (map (fun t => dq ++ t ++ dq) teams) ++ "]")%string.

(** [json.loads] on the texts of the sample data. *)
Definition sample_json_loads (s : string) : option pyval :=
  if String.eqb s "[]" then Some (PyList [])
  else if String.eqb s (dumps ["CSK"; "MI"; "RCB"; "GT"])
  then Some (PyList [PyStr "CSK"; PyStr "MI"; PyStr "RCB"; PyStr "GT"])
  else if String.eqb s (dumps ["CSK"; "MI"; "KKR"; "SRH"])
  then Some (PyList [PyStr "CSK"; PyStr "MI"; PyStr "KKR"; PyStr "SRH"])
  else if String.eqb s (dumps ["CSK"; "MI"])
  then Some (PyList [PyStr "CSK"; PyStr "MI"])
  else if String.eqb s (dumps ["CSK"; "KKR"])
  then Some (PyList [PyStr "CSK"; PyStr "KKR"])
  else if String.eqb s (dq ++ "CSK" ++ dq) then Some (PyStr "CSK")
  else if String.eqb s "7" then Some (PyNum 7)
  else None.

Definition mk_fixture (id : Z) (a b : string) (week : Z) (winner : option string) : fixture :=
  {| x_match_id := id; x_match_date := None; x_team_a := Some a; x_team_b := Some b;
     x_week := Some week; x_winner := winner |}.

Definition mk_pred (e : string) (id : Z) (t : string) : prediction :=
  {| p_email := e; p_match_id := id; p_predicted_winner := Some t |}.

Definition sample_db : db :=
  {| users := [ {| u_email := "asha@x.io"; u_name := Some "Asha" |};
                {| u_email := "bina@x.io"; u_name := Some "Bina" |};
                {| u_email := "chet@x.io"; u_name := Some "Chet" |} ];
     fixtures := [ mk_fixture 1 "CSK" "MI" 1 (Some "CSK");
                   mk_fixture 2 "RCB" "GT" 1 (Some "GT");
                   mk_fixture 3 "KKR" "SRH" 2 None ];
     predictions_match := [ mk_pred "asha@x.io" 1 "CSK";
                            mk_pred "bina@x.io" 1 "MI";
                            mk_pred "asha@x.io" 2 "RCB";
                            mk_pred "bina@x.io" 2 "GT";
                            mk_pred "bina@x.io" 3 "KKR";
                            mk_pred "dev@x.io" 9 "CSK" ];
     predictions_meta :=
       [ {| m_email := "asha@x.io";
            m_playoff_teams := Some (dumps ["CSK"; "MI"; "RCB"; "GT"]);
            m_finalists := Some (dumps ["CSK"; "MI"]);
            m_champion := Some "CSK" |};
         {| m_email := "chet@x.io";
            m_playoff_teams := Some "not json";
            m_finalists := Some (dumps ["CSK"; "KKR"]);
            m_champion := Some "CSK" |} ];
     meta_actuals :=
       [ ("playoff_teams", Some (dumps ["CSK"; "MI"; "KKR"; "SRH"]));
         ("finalists", Some (dumps ["CSK"; "KKR"]));
         ("champion", Some (dq ++ "CSK" ++ dq)%string) ] |}.

(** The same rows with the predictions and the fixtures reversed. *)
Definition sample_db_rev : db :=
  {| users := users sample_db;
     fixtures := rev (fixtures sample_db);
     predictions_match := rev (predictions_match sample_db);
     predictions_meta := predictions_meta sample_db;
     meta_actuals := meta_actuals sample_db |}.

(** The same rows with every table reversed. *)
Definition sample_db_shuffled : db :=
  {| users := rev (users sample_db);
     fixtures := rev (fixtures sample_db);
     predictions_match := rev (predictions_match sample_db);
     predictions_meta := rev (predictions_meta sample_db);
     meta_actuals := meta_actuals sample_db |}.

(** One prediction, for a match that has no fixture. *)
Definition dangling_db : db :=
  {| users := [ {| u_email := "asha@x.io"; u_name := Some "Asha" |} ];
     fixtures := [ mk_fixture 1 "CSK" "MI" 1 (Some "CSK") ];
     predictions_match := [ mk_pred "asha@x.io" 9 "CSK" ];
     predictions_meta := [];
     meta_actuals := [] |}.

Definition dangling_row : scored :=
  {| s_email := "asha@x.io"; s_match_id := 9; s_predicted_winner := Some "CSK";
     s_week := None; s_winner := None; s_match_points := 0;
     s_name := Some "Asha" |}.

(** The prediction of [asha] with an empty users table. *)
Definition no_users_db : db :=
  {| users := [];
     fixtures := [ mk_fixture 1 "CSK" "MI" 1 (Some "CSK"%string) ];
     predictions_match := [ mk_pred "asha@x.io" 1 "CSK" ];
     predictions_meta := [];
     meta_actuals := [] |}.

(** The sample data before the administrator set the outcomes. *)
Definition sample_db_unset : db :=
  {| users := users sample_db;
     fixtures := fixtures sample_db;
     predictions_match := predictions_match sample_db;
     predictions_meta := predictions_meta sample_db;
     meta_actuals := [] |}.

(** The sample data before any result was entered. *)
Definition sample_db_no_results : db :=
  {| users := users sample_db;
     fixtures := map (fun f => {| x_match_id := x_match_id f;
                                  x_match_date := x_match_date f;
                                  x_team_a := x_team_a f; x_team_b := x_team_b f;
                                  x_week := x_week f; x_winner := None |})
                     (fixtures sample_db);
     predictions_match := predictions_match sample_db;
     predictions_meta := predictions_meta sample_db;
     meta_actuals := meta_actuals sample_db |}.

(** [json.dumps] on the values of the sample data. *)
Definition sample_json_dumps (v : pyval) : string :=
  match v with
  | PyList l => dumps (filter_map (fun x => match x with
                                            | PyStr s => Some s
                                            | _ => None
                                            end) l)
  | PyStr s => dq ++ s ++ dq
  | _ => "null"
  end.

(** Emails that are already trimmed and in lower case. *)
Definition sample_normalize (email : string) : string := email.

(** Decimal text read as an integer. *)
Definition sample_pg_int (s : string) : option Z :=
  option_map Z.of_int (NilEmpty.int_of_string s).

(** A correct pick on a fixture with a result, by an email that has no
    user, beside a user without predictions. *)
Definition ghost_db : db :=
  {| users := [ {| u_email := "asha@x.io"; u_name := Some "Asha" |} ];
     fixtures := [ mk_fixture 1 "CSK" "MI" 1 (Some "CSK") ];
     predictions_match := [ mk_pred "ghost@x.io" 1 "CSK" ];
     predictions_meta := [];
     meta_actuals := [] |}.

Definition ghost_row : scored :=
  {| s_email := "ghost@x.io"; s_match_id := 1; s_predicted_winner := Some "CSK";
     s_week := Some 1; s_winner := Some "CSK"; s_match_points := 5;
     s_name := None |}.

Local Close Scope string_scope.

(* ------------------------------------------------------------------ *)
(** * Orders on keys *)

Lemma wo_consistent {A : Type} (c : A -> A -> comparison) :
  weak_order c -> forall x y z, consistent (c x y) (c y z) (c x z).
Proof.
  intros [Ho Ht] x y z. unfold consistent.
  rewrite <- (Ho x y), <- (Ho y z), <- (Ho x z).
  repeat split; intros; eauto.
Qed.

Lemma lex_le_trans (a b c a2 b2 c2 : comparison) :
  consistent a b c ->
  (not_gt a2 = true -> not_gt b2 = true -> not_gt c2 = true) ->
  not_gt (lex a a2) = true -> not_gt (lex b b2) = true ->
  not_gt (lex c c2) = true.
Proof.
  intros (H1 & H2 & H3 & H4) H.
  destruct a, b, c; simpl in *; intros; auto;
    try discriminate;
    try (discriminate H1; auto); try (discriminate H2; auto);
    try (discriminate H3; auto); try (discriminate H4; auto).
Qed.

Lemma wo_refl {A : Type} (c : A -> A -> comparison) :
  weak_order c -> forall x, c x x = Eq.
Proof.
  intros [Ho _] x. specialize (Ho x x). destruct (c x x); simpl in Ho; congruence.
Qed.

Lemma wo_total {A : Type} (c : A -> A -> comparison) :
  weak_order c -> forall x y, not_gt (c x y) = true \/ not_gt (c y x) = true.
Proof.
  intros [Ho _] x y. rewrite (Ho x y). destruct (c x y); simpl; auto.
Qed.

Lemma wo_lex {A : Type} (c1 c2 : A -> A -> comparison) :
  weak_order c1 -> weak_order c2 ->
  weak_order (fun x y => lex (c1 x y) (c2 x y)).
Proof.
  intros W1 W2. split.
  - intros x y. rewrite (wo_opp _ W1 x y), (wo_opp _ W2 x y).
    destruct (c1 x y); reflexivity.
  - intros x y z. apply lex_le_trans.
    + apply wo_consistent, W1.
    + apply (wo_trans _ W2).
Qed.

Lemma wo_on {A B : Type} (f : A -> B) (c : B -> B -> comparison) :
  weak_order c -> weak_order (fun x y => c (f x) (f y)).
Proof.
  intros [Ho Ht]. split; intros; eauto.
Qed.

Lemma wo_flip {A : Type} (c : A -> A -> comparison) :
  weak_order c -> weak_order (fun x y => c y x).
Proof.
  intros [Ho Ht]. split; intros; eauto.
Qed.

Lemma Z_weak_order : weak_order Z.compare.
Proof.
  split.
  - intros x y. apply Z.compare_antisym.
  - intros x y z. change (not_gt (?a ?= ?b)) with (a <=? b).
    rewrite !Z.leb_le. lia.
Qed.

Lemma ascii_weak_order : weak_order Ascii.compare.
Proof.
  split.
  - intros x y. apply Ascii.compare_antisym.
  - intros x y z. unfold Ascii.compare.
    change (not_gt (?a ?= ?b)%N) with (a <=? b)%N.
    rewrite !N.leb_le. lia.
Qed.

Lemma string_compare_cons (a b : ascii) (x y : string) :
  String.compare (String a x) (String b y)
  = lex (Ascii.compare a b) (String.compare x y).
Proof. simpl. destruct (Ascii.compare a b); reflexivity. Qed.

Lemma string_le_trans (x y z : string) :
  not_gt (String.compare x y) = true -> not_gt (String.compare y z) = true ->
  not_gt (String.compare x z) = true.
Proof.
  revert y z. induction x as [|a x IH]; intros [|b y] [|c z];
    try (simpl; auto; discriminate).
  rewrite !string_compare_cons. apply lex_le_trans.
  - apply wo_consistent, ascii_weak_order.
  - apply IH.
Qed.

Lemma string_weak_order : weak_order String.compare.
Proof.
  split.
  - intros x y. apply String.compare_antisym.
  - apply string_le_trans.
Qed.

#[export] Instance CmpLaws_Z : CmpLaws Z.
Proof.
  split.
  - exact Z_weak_order.
  - intros x y. apply Z.compare_eq.
Qed.

#[export] Instance CmpLaws_string : CmpLaws string.
Proof.
  split.
  - exact string_weak_order.
  - exact String.compare_eq_iff.
Qed.

#[export] Instance CmpLaws_prod {A B : Type} `{CmpLaws A} `{CmpLaws B} : CmpLaws (A * B).
Proof.
  split.
  - apply (wo_lex (fun x y => cmp (fst x) (fst y)) (fun x y => cmp (snd x) (snd y)));
      apply wo_on; apply cmp_weak.
  - intros [a b] [a' b']. unfold cmp, Cmp_prod, lex. simpl.
    destruct (cmp a a') eqn:E; try discriminate.
    intros E'. apply cmp_eq in E. apply cmp_eq in E'. congruence.
Qed.

Lemma cmp_eqb_eq {A : Type} `{CmpLaws A} (x y : A) : cmp_eqb x y = true <-> x = y.
Proof.
  unfold cmp_eqb. split.
  - intros E. apply cmp_eq. destruct (cmp x y); simpl in E; congruence.
  - intros ->. rewrite (wo_refl _ cmp_weak). reflexivity.
Qed.

Lemma cmp_leb_total {A : Type} `{CmpLaws A} (x y : A) :
  cmp_leb x y = true \/ cmp_leb y x = true.
Proof. apply (wo_total _ cmp_weak). Qed.

Lemma cmp_leb_trans {A : Type} `{CmpLaws A} (x y z : A) :
  cmp_leb x y = true -> cmp_leb y z = true -> cmp_leb x z = true.
Proof. apply (wo_trans _ cmp_weak). Qed.

Lemma cmp_leb_antisym {A : Type} `{CmpLaws A} (x y : A) :
  cmp_leb x y = true -> cmp_leb y x = true -> x = y.
Proof.
  unfold cmp_leb. rewrite (wo_opp _ cmp_weak x y). intros H1 H2.
  apply cmp_eq. destruct (cmp x y); simpl in *; congruence.
Qed.

(* ------------------------------------------------------------------ *)
(** * Facts about the pandas fragment *)

Section SortFacts.

Context {A : Type} (le : A -> A -> bool).

Lemma insert_by_perm (x : A) (l : list A) : Permutation (insert_by le x l) (x :: l).
Proof.
  induction l as [|y l IH]; simpl; [reflexivity|].
  destruct (le x y); [reflexivity|].
  rewrite IH. apply perm_swap.
Qed.

Lemma sort_by_perm (l : list A) : Permutation (sort_by le l) l.
Proof.
  induction l as [|x l IH]; simpl; [reflexivity|].
  rewrite insert_by_perm. now constructor.
Qed.

Lemma sort_by_In (l : list A) (x : A) : In x (sort_by le l) <-> In x l.
Proof.
  split; apply Permutation_in; [|symmetry]; apply sort_by_perm.
Qed.

Hypothesis le_total : forall x y, le x y = true \/ le y x = true.
Hypothesis le_trans : forall x y z, le x y = true -> le y z = true -> le x z = true.

Lemma insert_by_sorted (x : A) (l : list A) :
  StronglySorted (holds le) l -> StronglySorted (holds le) (insert_by le x l).
Proof.
  induction 1 as [|y l Hs IH Hy]; simpl.
  - repeat constructor.
  - destruct (le x y) eqn:E.
    + constructor; [now constructor|].
      constructor; [exact E|].
      eapply Forall_impl; [|exact Hy]. intros z Hz. exact (le_trans _ _ _ E Hz).
    + constructor; [exact IH|].
      eapply Permutation_Forall; [symmetry; apply insert_by_perm|].
      constructor; [|exact Hy].
      destruct (le_total x y) as [H|H]; [congruence|exact H].
Qed.

Lemma sort_by_sorted (l : list A) : StronglySorted (holds le) (sort_by le l).
Proof.
  induction l as [|x l IH]; simpl; [constructor|].
  now apply insert_by_sorted.
Qed.

Hypothesis le_antisym : forall x y, le x y = true -> le y x = true -> x = y.

Lemma sorted_perm_eq (l1 l2 : list A) :
  StronglySorted (holds le) l1 -> StronglySorted (holds le) l2 ->
  Permutation l1 l2 -> l1 = l2.
Proof.
  intros H1. revert l2. induction H1 as [|a l1 Hs IH Ha]; intros l2 H2 P.
  - apply Permutation_nil in P. now subst.
  - destruct H2 as [|b l2 Hs2 Hb].
    + symmetry in P. apply Permutation_nil in P. discriminate.
    + assert (a = b) as ->.
      { assert (Ia : In a (b :: l2)) by (eapply Permutation_in; [exact P|now left]).
        assert (Ib : In b (a :: l1)) by (eapply Permutation_in; [symmetry; exact P|now left]).
        destruct Ia as [->|Ia]; [reflexivity|].
        destruct Ib as [->|Ib]; [reflexivity|].
        rewrite Forall_forall in Ha, Hb.
        apply le_antisym; [apply Ha, Ib|apply Hb, Ia]. }
      f_equal. apply IH; [exact Hs2|]. eapply Permutation_cons_inv, P.
Qed.

Lemma sort_by_perm_eq (l l' : list A) :
  Permutation l l' -> sort_by le l = sort_by le l'.
Proof.
  intros P. apply sorted_perm_eq; try apply sort_by_sorted.
  rewrite !sort_by_perm. exact P.
Qed.

End SortFacts.

Section DedupFacts.

Context {A : Type} (eqb : A -> A -> bool).
Hypothesis eqb_eq : forall x y, eqb x y = true <-> x = y.

Lemma dedup_In (l : list A) (x : A) : In x (dedup eqb l) <-> In x l.
Proof.
  induction l as [|a l IH]; simpl; [tauto|].
  rewrite filter_In, IH. split.
  - tauto.
  - intros [->|H]; [now left|].
    destruct (eqb a x) eqn:E.
    + left. now apply eqb_eq.
    + right. now split.
Qed.

Lemma dedup_NoDup (l : list A) : NoDup (dedup eqb l).
Proof.
  induction l as [|a l IH]; simpl; constructor.
  - rewrite filter_In. intros [_ H].
    rewrite (proj2 (eqb_eq a a) eq_refl) in H. discriminate.
  - now apply NoDup_filter.
Qed.

Lemma dedup_perm (l l' : list A) :
  Permutation l l' -> Permutation (dedup eqb l) (dedup eqb l').
Proof.
  intros P. apply NoDup_Permutation; try apply dedup_NoDup.
  intros x. rewrite !dedup_In. split; apply Permutation_in; [|symmetry]; exact P.
Qed.

End DedupFacts.

Lemma filter_map_perm {A B : Type} (f : A -> option B) (l l' : list A) :
  Permutation l l' -> Permutation (filter_map f l) (filter_map f l').
Proof.
  induction 1 as [|x l l' P IH|x y l|l l' l'' P1 IH1 P2 IH2]; simpl.
  - constructor.
  - destruct (f x); [now constructor|exact IH].
  - destruct (f x), (f y); try reflexivity. apply perm_swap.
  - now transitivity (filter_map f l').
Qed.

Lemma filter_map_In {A B : Type} (f : A -> option B) (l : list A) (y : B) :
  In y (filter_map f l) <-> exists x, In x l /\ f x = Some y.
Proof.
  induction l as [|a l IH]; simpl.
  - split; [tauto|]. intros (x & [] & _).
  - destruct (f a) eqn:E; simpl; rewrite IH; split.
    + intros [->|(x & Hx & Hf)]; [exists a; auto|exists x; auto].
    + intros (x & [->|Hx] & Hf); [left; congruence|right; eauto].
    + intros (x & Hx & Hf). exists x; auto.
    + intros (x & [->|Hx] & Hf); [congruence|eauto].
Qed.

Lemma filter_perm {A : Type} (p : A -> bool) (l l' : list A) :
  Permutation l l' -> Permutation (filter p l) (filter p l').
Proof.
  induction 1 as [|x l l' P IH|x y l|l l' l'' P1 IH1 P2 IH2]; simpl.
  - constructor.
  - destruct (p x); [now constructor|exact IH].
  - destruct (p x), (p y); try reflexivity. apply perm_swap.
  - now transitivity (filter p l').
Qed.

Lemma zsum_perm (l l' : list Z) : Permutation l l' -> zsum l = zsum l'.
Proof.
  induction 1; simpl in *; lia.
Qed.

Lemma zsum_app (l l' : list Z) : zsum (l ++ l') = zsum l + zsum l'.
Proof.
  induction l; simpl in *; lia.
Qed.

Lemma flat_map_perm_ext {A B : Type} (f g : A -> list B) (l : list A) :
  (forall x, In x l -> Permutation (f x) (g x)) ->
  Permutation (flat_map f l) (flat_map g l).
Proof.
  induction l as [|a l IH]; simpl; intros H; [constructor|].
  apply Permutation_app; [apply H; now left|].
  apply IH. intros x Hx. apply H. now right.
Qed.

Lemma merge_left_perm {L R O : Type} (on : L -> R -> bool)
  (both : L -> R -> O) (left_only : L -> O) (ls ls' : list L) (rs rs' : list R) :
  Permutation ls ls' -> Permutation rs rs' ->
  Permutation (merge_left on both left_only ls rs)
              (merge_left on both left_only ls' rs').
Proof.
  intros Pl Pr. unfold merge_left.
  etransitivity; [apply Permutation_flat_map, Pl|].
  apply flat_map_perm_ext. intros l _.
  pose proof (filter_perm (on l) _ _ Pr) as P.
  destruct (filter (on l) rs) as [|r0 m] eqn:E.
  - apply Permutation_nil in P. rewrite P. reflexivity.
  - destruct (filter (on l) rs') as [|r0' m'] eqn:E'.
    + symmetry in P. apply Permutation_nil in P. discriminate.
    + now apply Permutation_map.
Qed.

Lemma merge_left_nonempty {L R O : Type} (on : L -> R -> bool)
  (both : L -> R -> O) (left_only : L -> O) (ls : list L) (rs : list R) :
  is_empty (merge_left on both left_only ls rs) = is_empty ls.
Proof.
  destruct ls as [|l ls]; simpl; [reflexivity|].
  destruct (filter (on l) rs); reflexivity.
Qed.

(** Grouping does not depend on the order of the rows: the keys are the
    same and each group is the same up to the order of its rows. *)
Lemma group_keys_perm {R K : Type} `{CmpLaws K} (key : R -> option K)
  (rows rows' : list R) :
  Permutation rows rows' -> group_keys key rows = group_keys key rows'.
Proof.
  intros P. unfold group_keys. apply sort_by_perm_eq.
  - apply cmp_leb_total.
  - apply cmp_leb_trans.
  - apply cmp_leb_antisym.
  - apply dedup_perm; [apply cmp_eqb_eq|]. now apply filter_map_perm.
Qed.

Lemma groupby_sum_perm {R K T : Type} `{CmpLaws K} (key : R -> option K)
  (val : R -> Z) (h : K -> Z -> T) (rows rows' : list R) :
  Permutation rows rows' ->
  map (fun g => h (fst g) (zsum (map val (snd g)))) (groupby key rows)
  = map (fun g => h (fst g) (zsum (map val (snd g)))) (groupby key rows').
Proof.
  intros P. unfold groupby. rewrite (group_keys_perm key _ _ P), !map_map.
  apply map_ext. intros k. simpl. f_equal.
  apply zsum_perm, Permutation_map, filter_perm, P.
Qed.

Lemma is_empty_perm {A : Type} (l l' : list A) :
  Permutation l l' -> is_empty l = is_empty l'.
Proof.
  intros P. destruct l, l'; try reflexivity.
  - apply Permutation_nil in P. discriminate.
  - symmetry in P. apply Permutation_nil in P. discriminate.
Qed.

(* ------------------------------------------------------------------ *)
(** * The aggregators on reordered frames *)

Lemma match_sum_eq :
  match_sum = fun g => (fun (k : string) (v : Z) => (k, v)) (fst g)
                         (zsum (map s_match_points (snd g))).
Proof. reflexivity. Qed.

Lemma leaderboard_frame_perm (a b : match_frame) (ms : list meta_score) (us : list user) :
  Permutation (mf_rows a) (mf_rows b) ->
  leaderboard_frame a ms us = leaderboard_frame b ms us.
Proof.
  intros P. unfold leaderboard_frame.
  rewrite <- (is_empty_perm _ _ P), match_sum_eq.
  rewrite (groupby_sum_perm _ s_match_points _ _ _ P). reflexivity.
Qed.

Lemma week_sum_eq (g : string * (string * Z) * list scored) :
  week_sum g = mk_weekly (fst g) (zsum (map s_match_points (snd g))).
Proof.
  destruct g as [[e [n w]] rows]. reflexivity.
Qed.

Lemma weekly_perm (rows rows' : list scored) :
  Permutation rows rows' ->
  map week_sum (groupby week_key rows) = map week_sum (groupby week_key rows').
Proof.
  intros P. rewrite !(map_ext _ _ week_sum_eq).
  exact (groupby_sum_perm week_key s_match_points mk_weekly _ _ P).
Qed.

Lemma weekly_from_perm (a b : match_frame) :
  mf_named b = mf_named a -> Permutation (mf_rows a) (mf_rows b) ->
  weekly_from b = weekly_from a.
Proof.
  intros E P. unfold weekly_from.
  now rewrite <- (is_empty_perm _ _ P), E, (weekly_perm _ _ P).
Qed.

(* ------------------------------------------------------------------ *)
(** * Match scoring *)

Lemma filter_nil_iff {A : Type} (p : A -> bool) (l : list A) :
  filter p l = [] <-> forall x, In x l -> p x = false.
Proof.
  induction l as [|a l IH]; simpl.
  - split; [intros _ x []|reflexivity].
  - destruct (p a) eqn:E.
    + split; [discriminate|]. intros H. rewrite (H a) in E by now left. discriminate.
    + rewrite IH. split.
      * intros H x [->|Hx]; auto.
      * intros H x Hx. apply H. now right.
Qed.

(** The rows of a left join: each comes from one left row, paired with
    a matching right row or, when there is none, padded. *)
Lemma merge_left_In {L R O : Type} (on : L -> R -> bool)
  (both : L -> R -> O) (left_only : L -> O) (ls : list L) (rs : list R) (o : O) :
  In o (merge_left on both left_only ls rs) <->
  exists l, In l ls /\
    ((exists r, In r rs /\ on l r = true /\ o = both l r) \/
     ((forall r, In r rs -> on l r = false) /\ o = left_only l)).
Proof.
  unfold merge_left. rewrite in_flat_map. split.
  - intros (l & Hl & Ho). exists l. split; [exact Hl|].
    destruct (filter (on l) rs) as [|r0 m] eqn:E.
    + right. destruct Ho as [<-|[]]. split; [|reflexivity].
      now apply filter_nil_iff.
    + left. rewrite <- E in Ho. apply in_map_iff in Ho as (r & <- & Hr).
      apply filter_In in Hr as [Hr Hon]. exists r. auto.
  - intros (l & Hl & H). exists l. split; [exact Hl|].
    destruct H as [(r & Hr & Hon & ->)|(Hno & ->)].
    + assert (Hf : In r (filter (on l) rs)) by (apply filter_In; auto).
      destruct (filter (on l) rs) as [|r0 m] eqn:E; [destruct Hf|].
      rewrite <- E in *. now apply in_map.
    + apply filter_nil_iff in Hno. rewrite Hno. now left.
Qed.

(** With a unique key on the right, a left join is a lookup. *)
Lemma filter_unique_key {R K : Type} (key : R -> K) (p : R -> bool) (rs : list R) :
  NoDup (map key rs) ->
  (forall r r', p r = true -> p r' = true -> key r = key r') ->
  filter p rs = match find p rs with Some r => [r] | None => [] end.
Proof.
  intros Hn Hk. induction rs as [|a rs IH]; simpl; [reflexivity|].
  inversion Hn as [|? ? Hnotin Hn']; subst.
  destruct (p a) eqn:E; [|now apply IH].
  f_equal. apply filter_nil_iff. intros x Hx.
  destruct (p x) eqn:Ex; [|reflexivity].
  exfalso. apply Hnotin. rewrite (Hk a x E Ex). now apply in_map.
Qed.

Lemma merge_left_unique {L R O K : Type} (key : R -> K) (on : L -> R -> bool)
  (both : L -> R -> O) (left_only : L -> O) (ls : list L) (rs : list R) :
  NoDup (map key rs) ->
  (forall l r r', on l r = true -> on l r' = true -> key r = key r') ->
  merge_left on both left_only ls rs
  = map (fun l => match find (on l) rs with
                  | Some r => both l r
                  | None => left_only l
                  end) ls.
Proof.
  intros Hn Hk. unfold merge_left.
  induction ls as [|l ls IH]; [reflexivity|].
  rewrite map_cons, <- IH. cbn [flat_map].
  rewrite (filter_unique_key key (on l) rs Hn (Hk l)).
  destruct (find (on l) rs); reflexivity.
Qed.

Lemma opt_eqb_eq (a b : option string) : opt_eqb a b = true <-> a = b.
Proof.
  destruct a as [x|], b as [y|]; simpl; try (split; congruence).
  rewrite String.eqb_eq. split; congruence.
Qed.

(** Where a row of the match-scoring frame comes from. *)
Lemma scored_row_origin (d : db) (r : scored) :
  In r (mf_rows (compute_match_scores d)) ->
  exists p, In p (predictions_match d) /\ scored_cols r = pred_cols p /\
    ((exists f, In f (fixtures d) /\ x_match_id f = p_match_id p /\
                s_week r = x_week f /\ s_winner r = x_winner f) \/
     ((forall f, In f (fixtures d) -> x_match_id f <> p_match_id p) /\
      s_week r = None /\ s_winner r = None)) /\
    s_match_points r =
      match s_winner r with
      | None => 0
      | Some w => if opt_eqb (s_predicted_winner r) (Some w)
                  then POINTS match_winner else 0
      end.
Proof.
  unfold compute_match_scores.
  destruct (is_empty (predictions_match d)); [intros []|].
  assert (Hj : forall j n,
    In j (merge_left (fun p f => Z.eqb (p_match_id p) (x_match_id f))
            join_fixture no_fixture (predictions_match d) (fixtures d)) ->
    r = with_points j n ->
    exists p, In p (predictions_match d) /\ scored_cols r = pred_cols p /\
    ((exists f, In f (fixtures d) /\ x_match_id f = p_match_id p /\
                s_week r = x_week f /\ s_winner r = x_winner f) \/
     ((forall f, In f (fixtures d) -> x_match_id f <> p_match_id p) /\
      s_week r = None /\ s_winner r = None)) /\
    s_match_points r =
      match s_winner r with
      | None => 0
      | Some w => if opt_eqb (s_predicted_winner r) (Some w)
                  then POINTS match_winner else 0
      end).
  { intros j n Hin ->. apply merge_left_In in Hin as (p & Hp & H).
    exists p. split; [exact Hp|].
    destruct H as [(f & Hf & Hon & ->)|(Hno & ->)].
    - apply Z.eqb_eq in Hon. repeat split. left. exists f. auto.
    - repeat split. right. repeat split.
      intros f Hf E. specialize (Hno f Hf). apply Z.eqb_neq in Hno. congruence. }
  destruct (is_empty (users d)); simpl.
  - intros Hin. apply in_map_iff in Hin as (j & <- & Hin). eauto.
  - intros Hin. apply merge_left_In in Hin as (j & Hin & H).
    destruct H as [(u & _ & _ & ->)|(_ & ->)]; eauto.
Qed.

(** Every prediction has a row. *)
Lemma prediction_has_row (d : db) (p : prediction) :
  In p (predictions_match d) ->
  exists r, In r (mf_rows (compute_match_scores d)) /\ scored_cols r = pred_cols p.
Proof.
  intros Hp. unfold compute_match_scores.
  assert (is_empty (predictions_match d) = false) as ->
    by (destruct (predictions_match d); [destruct Hp|reflexivity]).
  assert (Hj : exists j,
    In j (merge_left (fun p f => Z.eqb (p_match_id p) (x_match_id f))
            join_fixture no_fixture (predictions_match d) (fixtures d)) /\
    joined_cols j = pred_cols p).
  { destruct (filter (fun f => Z.eqb (p_match_id p) (x_match_id f)) (fixtures d))
      as [|f m] eqn:Ef.
    - exists (no_fixture p). split; [|reflexivity].
      apply merge_left_In. exists p. split; [exact Hp|]. right.
      split; [|reflexivity]. now apply filter_nil_iff.
    - exists (join_fixture p f). split; [|reflexivity].
      assert (Hf : In f (filter (fun f => Z.eqb (p_match_id p) (x_match_id f)) (fixtures d)))
        by (rewrite Ef; now left).
      apply filter_In in Hf as [Hf Hon].
      apply merge_left_In. exists p. split; [exact Hp|]. left. exists f. auto. }
  destruct Hj as (j & Hj & Ec).
  destruct (is_empty (users d)); simpl.
  - exists (with_points j None). split; [|exact Ec].
    exact (in_map (fun r => with_points r None) _ _ Hj).
  - destruct (filter (fun u => String.eqb (j_email j) (u_email u)) (users d))
      as [|u m] eqn:Eu.
    + exists (with_points j None). split; [|exact Ec].
      apply merge_left_In. exists j. split; [exact Hj|]. right.
      split; [|reflexivity]. now apply filter_nil_iff.
    + exists (with_points j (u_name u)). split; [|exact Ec].
      assert (Hu : In u (filter (fun u => String.eqb (j_email j) (u_email u)) (users d)))
        by (rewrite Eu; now left).
      apply filter_In in Hu as [Hu Hon].
      apply merge_left_In. exists j. split; [exact Hj|]. left. exists u. auto.
Qed.

Example sample_match_scores :
  map (fun r => (s_email r, s_match_id r, s_week r, s_match_points r, s_name r))
      (mf_rows (compute_match_scores sample_db))
  = [ ("asha@x.io"%string, 1, Some 1, 5, Some "Asha"%string);
      ("bina@x.io"%string, 1, Some 1, 0, Some "Bina"%string);
      ("asha@x.io"%string, 2, Some 1, 0, Some "Asha"%string);
      ("bina@x.io"%string, 2, Some 1, 5, Some "Bina"%string);
      ("bina@x.io"%string, 3, Some 2, 0, Some "Bina"%string);
      ("dev@x.io"%string, 9, None, 0, None) ].
Proof. reflexivity. Qed.

Example sample_meta_scores :
  compute_meta_scores sample_json_loads sample_db
  = Some [ {| ms_email := "asha@x.io"; ms_playoff_points := 20;
              ms_finalist_points := 15; ms_champion_points := 20;
              ms_meta_total := 55 |};
           {| ms_email := "chet@x.io"; ms_playoff_points := 0;
              ms_finalist_points := 0; ms_champion_points := 0;
              ms_meta_total := 0 |} ].
Proof. reflexivity. Qed.

Example sample_leaderboard :
  option_map (map (fun r => (rank r, email r, match_points r, total_points r)))
             (overall_leaderboard sample_json_loads sample_db)
  = Some [ (1, "asha@x.io"%string, 5, 60);
           (2, "bina@x.io"%string, 5, 5);
           (3, "chet@x.io"%string, 0, 0);
           (3, "dev@x.io"%string, 0, 0) ].
Proof. reflexivity. Qed.

Example sample_weekly :
  weekly_winners sample_db
  = Some ([ {| w_email := "asha@x.io"; w_name := "Asha"; w_week := 1; w_match_points := 5 |};
            {| w_email := "bina@x.io"; w_name := "Bina"; w_week := 1; w_match_points := 5 |};
            {| w_email := "bina@x.io"; w_name := "Bina"; w_week := 2; w_match_points := 0 |} ],
          [ (1, [ {| w_email := "asha@x.io"; w_name := "Asha"; w_week := 1; w_match_points := 5 |};
                  {| w_email := "bina@x.io"; w_name := "Bina"; w_week := 1; w_match_points := 5 |} ]);
            (2, [ {| w_email := "bina@x.io"; w_name := "Bina"; w_week := 2; w_match_points := 0 |} ]) ]).
Proof. reflexivity. Qed.

(* ------------------------------------------------------------------ *)
(** * Claims about match scoring *)

Lemma compute_match_scores_unique (d : db) :
  NoDup (map x_match_id (fixtures d)) ->
  NoDup (map u_email (users d)) ->
  map scored_cols (mf_rows (compute_match_scores d))
  = map pred_cols (predictions_match d).
Proof.
  intros Hf Hu. unfold compute_match_scores.
  destruct (is_empty (predictions_match d)) eqn:Ee.
  { destruct (predictions_match d); [reflexivity|discriminate]. }
  assert (Hj : map joined_cols
                 (merge_left (fun p f => Z.eqb (p_match_id p) (x_match_id f))
                    join_fixture no_fixture (predictions_match d) (fixtures d))
               = map pred_cols (predictions_match d)).
  { rewrite (merge_left_unique x_match_id); [|exact Hf|].
    - rewrite map_map. apply map_ext. intros p.
      destruct (find _ (fixtures d)); reflexivity.
    - intros p f f' H1 H2. apply Z.eqb_eq in H1, H2. congruence. }
  destruct (is_empty (users d)); cbn [mf_rows].
  - rewrite <- Hj, map_map. reflexivity.
  - rewrite <- Hj. rewrite (merge_left_unique u_email); [|exact Hu|].
    + rewrite map_map. apply map_ext. intros j.
      destruct (find _ (users d)); reflexivity.
    + intros j u u' H1 H2. apply String.eqb_eq in H1, H2. congruence.
Qed.

(** C1, as the code has it. The join keeps every prediction: with unique
    fixture ids and unique user emails the frame has exactly one row per
    prediction, in the order of the predictions, and the row of a
    prediction whose match has no fixture is there with a null week, a
    null winner and 0 points. *)
Theorem one_row_per_prediction (d : db) :
  NoDup (map x_match_id (fixtures d)) ->
  NoDup (map u_email (users d)) ->
  map scored_cols (mf_rows (compute_match_scores d))
  = map pred_cols (predictions_match d) /\
  forall r, In r (mf_rows (compute_match_scores d)) ->
    (forall f, In f (fixtures d) -> x_match_id f <> s_match_id r) ->
    s_week r = None /\ s_winner r = None /\ s_match_points r = 0.
Proof.
  intros Hf Hu. split; [now apply compute_match_scores_unique|].
  intros r Hr Hno.
  destruct (scored_row_origin d r Hr) as (p & _ & Ec & H & Hpts).
  assert (Eid : s_match_id r = p_match_id p)
    by (unfold scored_cols, pred_cols in Ec; congruence).
  destruct H as [(f & Hin & Hid & _)|(_ & Hw & Hwin)].
  - exfalso. apply (Hno f Hin). congruence.
  - rewrite Hwin in Hpts. auto.
Qed.

Ltac nodup_by_eval :=
  repeat constructor; simpl; intuition (discriminate || congruence).

Lemma one_row_per_prediction_witness :
  NoDup (map x_match_id (fixtures sample_db)) /\
  NoDup (map u_email (users sample_db)) /\
  map scored_cols (mf_rows (compute_match_scores sample_db))
  = map pred_cols (predictions_match sample_db).
Proof.
  assert (Hf : NoDup (map x_match_id (fixtures sample_db))) by nodup_by_eval.
  assert (Hu : NoDup (map u_email (users sample_db))) by nodup_by_eval.
  split; [exact Hf|]. split; [exact Hu|].
  exact (proj1 (one_row_per_prediction sample_db Hf Hu)).
Defined.

(** C1, as stated, fails: the prediction for match 9, which has no
    fixture, is a row of the match-scoring frame. *)
Lemma dangling_prediction_kept :
  In dangling_row (mf_rows (compute_match_scores dangling_db)) /\
  ~ exists f, In f (fixtures dangling_db) /\ x_match_id f = s_match_id dangling_row.
Proof.
  split.
  - left. reflexivity.
  - intros (f & [<-|[]] & H). discriminate H.
Qed.

(** C3. Every row of the match-scoring frame belongs to a prediction and
    carries the winner of that prediction's fixture; its points are 0
    while the fixture has no result, and otherwise the [match_winner]
    value, 5, exactly when the predicted winner is the winner, and 0 when
    it is not. *)
Theorem match_points_rule (d : db) (r : scored) :
  In r (mf_rows (compute_match_scores d)) ->
  (exists p, In p (predictions_match d) /\ scored_cols r = pred_cols p /\
     ((exists f, In f (fixtures d) /\ x_match_id f = p_match_id p /\
                 s_winner r = x_winner f) \/
      ((forall f, In f (fixtures d) -> x_match_id f <> p_match_id p) /\
       s_winner r = None))) /\
  (s_winner r = None -> s_match_points r = 0) /\
  (forall w, s_winner r = Some w ->
     (s_predicted_winner r = Some w -> s_match_points r = POINTS match_winner) /\
     (s_predicted_winner r <> Some w -> s_match_points r = 0)) /\
  POINTS match_winner = 5.
Proof.
  intros Hr. destruct (scored_row_origin d r Hr) as (p & Hp & Ec & H & Hpts).
  split; [|split; [|split]].
  - exists p. split; [exact Hp|]. split; [exact Ec|].
    destruct H as [(f & Hf & Hid & _ & Hw)|(Hno & _ & Hw)]; [left|right]; eauto.
  - intros E. now rewrite E in Hpts.
  - intros w E. rewrite E in Hpts.
    destruct (opt_eqb (s_predicted_winner r) (Some w)) eqn:Eq.
    + apply opt_eqb_eq in Eq. split; [auto|congruence].
    + split; [|auto]. intros E'. apply opt_eqb_eq in E'. congruence.
  - reflexivity.
Qed.

Lemma match_points_rule_witness :
  let r := {| s_email := "asha@x.io"; s_match_id := 1;
              s_predicted_winner := Some "CSK"%string; s_week := Some 1;
              s_winner := Some "CSK"%string; s_match_points := 5;
              s_name := Some "Asha"%string |} in
  In r (mf_rows (compute_match_scores sample_db)) /\
  s_match_points r = POINTS match_winner.
Proof.
  intros r.
  assert (Hr : In r (mf_rows (compute_match_scores sample_db))) by (left; reflexivity).
  split; [exact Hr|].
  destruct (match_points_rule sample_db r Hr) as (_ & _ & H & _).
  exact (proj1 (H "CSK"%string eq_refl) eq_refl).
Defined.

(* ------------------------------------------------------------------ *)
(** * The leaderboard: order and ranks *)

Lemma lb_before_spec (x y : lb_row) :
  lb_before x y = true <-> ranks_above (select_cols x) (select_cols y).
Proof.
  unfold lb_before, ranks_above, lex, cmp, Cmp_Z. simpl.
  destruct (Z.compare_spec (lb_total_points y) (lb_total_points x));
    destruct (Z.compare_spec (lb_match_points y) (lb_match_points x));
    destruct (Z.compare_spec (lb_playoff_points y) (lb_playoff_points x));
    simpl; split; intros; try lia; try discriminate; try reflexivity.
Qed.

Lemma lb_before_total (x y : lb_row) : lb_before x y = true \/ lb_before y x = true.
Proof. rewrite !lb_before_spec. unfold ranks_above. simpl. lia. Qed.

Lemma lb_before_trans (x y z : lb_row) :
  lb_before x y = true -> lb_before y z = true -> lb_before x z = true.
Proof. rewrite !lb_before_spec. unfold ranks_above. simpl. lia. Qed.

Lemma StronglySorted_map {A B : Type} (f : A -> B) (R : B -> B -> Prop) (l : list A) :
  StronglySorted (fun x y => R (f x) (f y)) l -> StronglySorted R (map f l).
Proof.
  induction 1 as [|a l Hs IH Ha]; simpl; constructor.
  - exact IH.
  - now apply Forall_map.
Qed.

Lemma StronglySorted_impl {A : Type} (R S : A -> A -> Prop) (l : list A) :
  (forall x y, R x y -> S x y) -> StronglySorted R l -> StronglySorted S l.
Proof.
  intros H. induction 1 as [|a l Hs IH Ha]; constructor.
  - exact IH.
  - eapply Forall_impl; [|exact Ha]. intros y. apply H.
Qed.

Lemma leaderboard_frame_shape (a : match_frame) (ms : list meta_score) (us : list user) :
  exists rows, leaderboard_frame a ms us = ranked rows /\
               StronglySorted (holds lb_before) rows.
Proof.
  unfold leaderboard_frame. eexists. split; [reflexivity|].
  apply sort_by_sorted; [apply lb_before_total|apply lb_before_trans].
Qed.

Lemma ranked_totals (rows : list lb_row) :
  map lb_total_points (ranked rows) = map lb_total_points rows.
Proof.
  unfold ranked. rewrite map_map. reflexivity.
Qed.

Lemma ranked_rank (rows : list lb_row) (r : lb_row) :
  In r (ranked rows) ->
  lb_rank r = rank_min (map lb_total_points (ranked rows)) (lb_total_points r).
Proof.
  rewrite ranked_totals. unfold ranked. intros H.
  apply in_map_iff in H as (r0 & <- & _). reflexivity.
Qed.

Lemma ranked_sorted (rows : list lb_row) :
  StronglySorted (holds lb_before) rows ->
  StronglySorted ranks_above (map select_cols (ranked rows)).
Proof.
  intros H. unfold ranked. rewrite map_map. apply StronglySorted_map.
  eapply StronglySorted_impl; [|exact H].
  intros x y Hxy. apply lb_before_spec in Hxy. exact Hxy.
Qed.

(** C6. The rows of the leaderboard are in descending order of
    [(total_points, match_points, playoff_points)]: every row comes
    before all rows with a smaller total, among equal totals before
    those with fewer match points, and among equal match points before
    those with fewer playoff points. *)
Theorem leaderboard_sorted (json_loads : string -> option pyval) (d : db)
  (lb : list standing) :
  overall_leaderboard json_loads d = Some lb ->
  StronglySorted ranks_above lb.
Proof.
  unfold overall_leaderboard.
  destruct (compute_meta_scores json_loads d) as [ms|]; simpl; [|discriminate].
  intros [= <-].
  destruct (leaderboard_frame_shape (compute_match_scores d) ms (users d))
    as (rows & -> & Hs).
  now apply ranked_sorted.
Qed.

Lemma leaderboard_sorted_witness :
  exists lb, overall_leaderboard sample_json_loads sample_db = Some lb /\
             StronglySorted ranks_above lb.
Proof.
  eexists. split; [reflexivity|].
  apply (leaderboard_sorted sample_json_loads sample_db). reflexivity.
Defined.

(** In a frame sorted by descending total, the rows with a total above
    [t] are a prefix. *)
Lemma sorted_split (t : Z) (l : list standing) :
  StronglySorted ranks_above l ->
  l = filter (fun x => t <? total_points x) l
      ++ filter (fun x => negb (t <? total_points x)) l.
Proof.
  induction 1 as [|a l Hs IH Ha]; simpl; [reflexivity|].
  destruct (t <? total_points a) eqn:E; simpl.
  - now rewrite <- IH.
  - assert (Hall : forall x, In x l -> (t <? total_points x) = false).
    { intros x Hx. rewrite Forall_forall in Ha. specialize (Ha x Hx).
      apply Z.ltb_ge in E. apply Z.ltb_ge. unfold ranks_above in Ha. lia. }
    rewrite (proj2 (filter_nil_iff _ l) Hall). simpl. f_equal.
    clear -Hall. induction l as [|b l IH]; simpl; [reflexivity|].
    rewrite (Hall b) by now left. simpl. f_equal. apply IH.
    intros x Hx. apply Hall. now right.
Qed.

Lemma filter_length_split {A : Type} (p q s : A -> bool) (l : list A) :
  (forall x, In x l -> p x = q x || s x) ->
  (forall x, In x l -> q x && s x = false) ->
  List.length (filter p l) = (List.length (filter q l) + List.length (filter s l))%nat.
Proof.
  induction l as [|a l IH]; simpl; intros H1 H2; [reflexivity|].
  rewrite (H1 a) by now left.
  pose proof (H2 a (or_introl eq_refl)) as H2a.
  assert (IH' := IH (fun x Hx => H1 x (or_intror Hx)) (fun x Hx => H2 x (or_intror Hx))).
  destruct (q a), (s a); simpl in *; try discriminate; lia.
Qed.

(** C2. The rank of a row is one more than the number of rows with a
    strictly larger total, whatever the other columns hold: rows with
    equal totals share a rank even when their match or playoff points
    differ; the shared rank is the position of the first row of the tied
    group (the rows above it are exactly those with a larger total); the
    next smaller total is ranked lower by the size of the tied group;
    totals 50, 50, 40 are ranked 1, 1, 3. *)
Theorem rank_min_ties (json_loads : string -> option pyval) (d : db)
  (lb : list standing) :
  overall_leaderboard json_loads d = Some lb ->
  (forall r, In r lb ->
     rank r = 1 + Z.of_nat (List.length
                (filter (fun r' => total_points r <? total_points r') lb))) /\
  (forall r r', In r lb -> In r' lb ->
     total_points r = total_points r' -> rank r = rank r') /\
  (forall r, In r lb ->
     exists above rest, lb = above ++ rest /\
       rank r = Z.of_nat (List.length above) + 1 /\
       (forall x, In x above -> total_points x > total_points r) /\
       (forall x, In x rest -> total_points x <= total_points r)) /\
  (forall r r', In r lb -> In r' lb ->
     total_points r' < total_points r ->
     (forall x, In x lb ->
        ~ (total_points r' < total_points x < total_points r)) ->
     rank r' = rank r + Z.of_nat (List.length
                 (filter (fun x => total_points x =? total_points r) lb))) /\
  map (rank_min [50; 50; 40]) [50; 50; 40] = [1; 1; 3].
Proof.
  unfold overall_leaderboard.
  destruct (compute_meta_scores json_loads d) as [ms|]; simpl; [|discriminate].
  intros [= <-].
  destruct (leaderboard_frame_shape (compute_match_scores d) ms (users d))
    as (rows & -> & Hs).
  pose proof (ranked_sorted rows Hs) as Hsorted.
  assert (Hrank : forall r, In r (map select_cols (ranked rows)) ->
     rank r = 1 + Z.of_nat (List.length
                (filter (fun r' => total_points r <? total_points r')
                        (map select_cols (ranked rows))))).
  { intros r Hr. apply in_map_iff in Hr as (r0 & <- & Hr0).
    rewrite filter_map_swap, length_map. simpl.
    rewrite (ranked_rank rows r0 Hr0). unfold rank_min.
    now rewrite filter_map_swap, length_map. }
  split; [exact Hrank|]. split; [|split; [|split]].
  - intros r r' Hr Hr' E. rewrite (Hrank r Hr), (Hrank r' Hr'), E. reflexivity.
  - intros r Hr.
    exists (filter (fun x => total_points r <? total_points x)
                   (map select_cols (ranked rows))),
           (filter (fun x => negb (total_points r <? total_points x))
                   (map select_cols (ranked rows))).
    split; [now apply sorted_split|]. split; [rewrite (Hrank r Hr); lia|].
    split; intros x Hx; apply filter_In in Hx as [_ Hx].
    + apply Z.ltb_lt in Hx. lia.
    + apply negb_true_iff, Z.ltb_ge in Hx. exact Hx.
  - intros r r' Hr Hr' Hlt Hgap. rewrite (Hrank r Hr), (Hrank r' Hr').
    rewrite (filter_length_split _
               (fun x => total_points r <? total_points x)
               (fun x => total_points x =? total_points r)).
    + lia.
    + intros x Hx. specialize (Hgap x Hx).
      destruct (Z.ltb_spec (total_points r') (total_points x));
        destruct (Z.ltb_spec (total_points r) (total_points x));
        destruct (Z.eqb_spec (total_points x) (total_points r)); simpl; try lia;
        reflexivity.
    + intros x _.
      destruct (Z.ltb_spec (total_points r) (total_points x));
        destruct (Z.eqb_spec (total_points x) (total_points r)); simpl; try lia;
        reflexivity.
  - reflexivity.
Qed.

Lemma rank_min_ties_witness :
  exists lb, overall_leaderboard sample_json_loads sample_db = Some lb /\
    forall r r', In r lb -> In r' lb ->
      total_points r = total_points r' -> rank r = rank r'.
Proof.
  eexists. split; [reflexivity|].
  exact (proj1 (proj2 (rank_min_ties sample_json_loads sample_db _ eq_refl))).
Defined.

(* ------------------------------------------------------------------ *)
(** * Meta scoring *)

Lemma atom_eqb_eq (a b : atom) : atom_eqb a b = true <-> a = b.
Proof.
  destruct a, b; simpl; try (split; congruence).
  - rewrite Z.eqb_eq. split; congruence.
  - rewrite String.eqb_eq. split; congruence.
Qed.

Lemma mem_In (t : atom) (s : list atom) : mem t s = true <-> In t s.
Proof.
  unfold mem. rewrite existsb_exists. split.
  - intros (x & Hx & E). apply atom_eqb_eq in E. now subst.
  - intros H. exists t. split; [exact H|]. now apply atom_eqb_eq.
Qed.

Lemma py_set_NoDup (v : pyval) (s : list atom) : py_set v = Some s -> NoDup s.
Proof.
  destruct v; simpl; try discriminate.
  - intros [= <-]. apply dedup_NoDup, atom_eqb_eq.
  - destruct (all_some (map to_atom l)); simpl; [|discriminate].
    intros [= <-]. apply dedup_NoDup, atom_eqb_eq.
  - intros [= <-]. apply dedup_NoDup, atom_eqb_eq.
Qed.

Lemma all_some_strings (l : list string) :
  all_some (map to_atom (map PyStr l)) = Some (map AStr l).
Proof.
  induction l as [|x l IH]; simpl; [reflexivity|]. now rewrite IH.
Qed.

(** [set] of a list of team names is the set of those names. *)
Lemma py_set_strings (l : list string) :
  py_set (PyList (map PyStr l)) = Some (dedup atom_eqb (map AStr l)).
Proof.
  simpl. now rewrite all_some_strings.
Qed.

Lemma predicted_NoDup (json_loads : string -> option pyval) (r : meta_prediction) :
  NoDup (fst (fst (predicted json_loads r))) /\
  NoDup (snd (fst (predicted json_loads r))).
Proof.
  unfold predicted, decode_row, bind.
  destruct (json_loads (text_or (m_playoff_teams r) "[]")) as [v1|];
    [|split; constructor].
  destruct (py_set v1) as [s1|] eqn:E1; [|split; constructor].
  destruct (json_loads (text_or (m_finalists r) "[]")) as [v2|];
    [|split; constructor].
  destruct (py_set v2) as [s2|] eqn:E2; [|split; constructor].
  simpl. split; eapply py_set_NoDup; eassumption.
Qed.

Lemma zsum_const {A : Type} (c : Z) (l : list A) :
  zsum (map (fun _ => c) l) = c * Z.of_nat (List.length l).
Proof.
  induction l as [|a l IH]; simpl map; simpl zsum; [simpl; lia|].
  rewrite IH. simpl List.length. lia.
Qed.

Lemma hits_intersection (a b : list atom) :
  NoDup a -> is_intersection (filter (fun t => mem t b) a) a b.
Proof.
  intros Ha. split.
  - now apply NoDup_filter.
  - intros t. rewrite filter_In, mem_In. tauto.
Qed.

Lemma champion_hit_spec (cp : option string) (ac : pyval) :
  champion_hit cp ac = true <-> champion_matches cp ac.
Proof.
  unfold champion_hit, champion_matches, str_truthy. split.
  - destruct cp as [c|]; [|discriminate]. destruct ac; simpl;
      rewrite ?andb_false_r; try discriminate.
    intros H. apply andb_prop in H as [H E]. apply andb_prop in H as [Hc _].
    apply String.eqb_eq in E. subst s. exists c. repeat split.
    intros ->. discriminate.
  - intros (c & -> & Hc & ->). simpl.
    apply String.eqb_neq in Hc. rewrite Hc, String.eqb_refl. reflexivity.
Qed.

Lemma calc_row_scored (json_loads : string -> option pyval)
  (ap af : list atom) (ac : pyval) (r : meta_prediction) :
  ms_email (calc_row json_loads ap af ac r) = m_email r /\
  scored_as ap af ac (predicted json_loads r) (calc_row json_loads ap af ac r).
Proof.
  pose proof (predicted_NoDup json_loads r) as [N1 N2].
  unfold calc_row, scored_as.
  destruct (predicted json_loads r) as [[pp fp] cp].
  cbn [fst snd] in N1, N2.
  cbn [ms_email ms_playoff_points ms_finalist_points ms_champion_points ms_meta_total].
  split; [reflexivity|]. split; [|split; [|split; [|split]]].
  - eexists. split; [now apply hits_intersection|]. apply zsum_const.
  - eexists. split; [now apply hits_intersection|]. apply zsum_const.
  - intros H. apply champion_hit_spec in H. now rewrite H.
  - intros H. destruct (champion_hit cp ac) eqn:E; [|reflexivity].
    apply champion_hit_spec in E. contradiction.
  - reflexivity.
Qed.

Lemma compute_meta_scores_rows (json_loads : string -> option pyval) (d : db)
  (ap af : list atom) :
  load_actual_sets json_loads (meta_actuals d) = Some (ap, af) ->
  compute_meta_scores json_loads d
  = Some (map (calc_row json_loads ap af
                 (get_actual_meta json_loads (meta_actuals d) "champion"))
              (predictions_meta d)).
Proof.
  intros E. unfold compute_meta_scores. rewrite E. simpl.
  destruct (predictions_meta d); reflexivity.
Qed.

Lemma Forall2_map_r {A B : Type} (P : A -> B -> Prop) (f : A -> B) (l : list A) :
  (forall x, In x l -> P x (f x)) -> Forall2 P l (map f l).
Proof.
  induction l as [|a l IH]; simpl; intros H; constructor.
  - apply H. now left.
  - apply IH. intros x Hx. apply H. now right.
Qed.

(** C4. When the meta scores are computed, each user's row holds:
    playoff points, the [playoff_team] value (10) times the number of
    teams in both the predicted and the actual playoff set; finalist
    points likewise with the [finalist] value (15); champion points, the
    [champion] value (20) exactly when the predicted champion is a
    non-empty name and the actual champion is that name, else 0; and
    their sum as [meta_total].  The predicted sets are those decoded
    from the stored row: for a stored list of team names, the set of
    those names. *)
Theorem meta_points_rule (json_loads : string -> option pyval) (d : db)
  (scores : list meta_score) :
  predictions_meta d <> [] ->
  compute_meta_scores json_loads d = Some scores ->
  (exists ap af,
     load_actual_sets json_loads (meta_actuals d) = Some (ap, af) /\
     Forall2 (fun r s =>
                ms_email s = m_email r /\
                scored_as ap af (get_actual_meta json_loads (meta_actuals d) "champion")
                          (predicted json_loads r) s)
             (predictions_meta d) scores) /\
  (forall r teams_p teams_f,
     In r (predictions_meta d) ->
     json_loads (text_or (m_playoff_teams r) "[]") = Some (PyList (map PyStr teams_p)) ->
     json_loads (text_or (m_finalists r) "[]") = Some (PyList (map PyStr teams_f)) ->
     predicted json_loads r
     = (dedup atom_eqb (map AStr teams_p), dedup atom_eqb (map AStr teams_f),
        m_champion r)) /\
  (POINTS playoff_team = 10 /\ POINTS finalist = 15 /\ POINTS champion = 20).
Proof.
  intros Hne Hc. split; [|split].
  - destruct (load_actual_sets json_loads (meta_actuals d)) as [[ap af]|] eqn:E.
    + exists ap, af. split; [reflexivity|].
      rewrite (compute_meta_scores_rows json_loads d ap af E) in Hc.
      injection Hc as <-. apply Forall2_map_r. intros r _.
      apply calc_row_scored.
    + unfold compute_meta_scores in Hc. rewrite E in Hc.
      destruct (predictions_meta d); [congruence|discriminate].
  - intros r tp tf _ E1 E2. unfold predicted, decode_row, bind.
    now rewrite E1, E2, !py_set_strings.
  - repeat split.
Qed.

Lemma meta_points_rule_witness :
  predictions_meta sample_db <> [] /\
  exists scores, compute_meta_scores sample_json_loads sample_db = Some scores /\
    exists ap af,
     load_actual_sets sample_json_loads (meta_actuals sample_db) = Some (ap, af) /\
     Forall2 (fun r s =>
                ms_email s = m_email r /\
                scored_as ap af
                  (get_actual_meta sample_json_loads (meta_actuals sample_db) "champion")
                  (predicted sample_json_loads r) s)
             (predictions_meta sample_db) scores.
Proof.
  assert (Hne : predictions_meta sample_db <> []) by discriminate.
  split; [exact Hne|]. eexists. split; [reflexivity|].
  exact (proj1 (meta_points_rule sample_json_loads sample_db _ Hne eq_refl)).
Defined.

(** C5. Meta scoring never raises on account of a stored
    meta-prediction row: it can only raise while loading the actual
    outcomes the administrator stored.  Once those load, it returns one
    row per stored row, in order, whatever the rows hold; and a row
    whose payload makes the decoding raise is scored with all three
    predicted fields empty, that is with 0 points throughout. *)
Theorem malformed_payload_tolerated (json_loads : string -> option pyval) (d : db) :
  (compute_meta_scores json_loads d = None ->
   load_actual_sets json_loads (meta_actuals d) = None) /\
  (forall ap af,
     load_actual_sets json_loads (meta_actuals d) = Some (ap, af) ->
     exists scores,
       compute_meta_scores json_loads d = Some scores /\
       map ms_email scores = map m_email (predictions_meta d) /\
       Forall2 (fun r s =>
                  decode_row json_loads r = None ->
                  predicted json_loads r = ([], [], None) /\
                  s = zero_score (m_email r))
               (predictions_meta d) scores).
Proof.
  split.
  - destruct (load_actual_sets json_loads (meta_actuals d)) as [[ap af]|] eqn:E;
      [|reflexivity].
    rewrite (compute_meta_scores_rows json_loads d ap af E). discriminate.
  - intros ap af E. eexists.
    split; [exact (compute_meta_scores_rows json_loads d ap af E)|]. split.
    + rewrite map_map. apply map_ext. intros r. apply calc_row_scored.
    + apply Forall2_map_r. intros r _ Hd.
      unfold calc_row, predicted. rewrite Hd. split; reflexivity.
Qed.

Lemma malformed_payload_tolerated_witness :
  exists ap af scores,
    load_actual_sets sample_json_loads (meta_actuals sample_db) = Some (ap, af) /\
    compute_meta_scores sample_json_loads sample_db = Some scores /\
    map ms_email scores = map m_email (predictions_meta sample_db) /\
    Forall2 (fun r s =>
               decode_row sample_json_loads r = None ->
               predicted sample_json_loads r = ([], [], None) /\
               s = zero_score (m_email r))
            (predictions_meta sample_db) scores.
Proof.
  destruct (proj2 (malformed_payload_tolerated sample_json_loads sample_db) _ _ eq_refl)
    as (scores & Hs & He & Hz).
  do 3 eexists. split; [reflexivity|]. split; [exact Hs|]. split; [exact He|exact Hz].
Defined.

(** The second sample row has a payload that is not JSON. *)
Example malformed_sample_row :
  map (decode_row sample_json_loads) (predictions_meta sample_db)
  = [ Some ([AStr "CSK"; AStr "MI"; AStr "RCB"; AStr "GT"],
            [AStr "CSK"; AStr "MI"], Some "CSK"%string);
      None ].
Proof. reflexivity. Qed.

(* ------------------------------------------------------------------ *)
(** * Grouping and the outer join *)

Lemma in_group_spec {R K : Type} `{CmpLaws K} (key : R -> option K) (k : K) (r : R) :
  in_group key k r = true <-> key r = Some k.
Proof.
  unfold in_group. destruct (key r) as [k'|]; [|split; discriminate].
  rewrite cmp_eqb_eq. split; congruence.
Qed.

Lemma group_keys_In {R K : Type} `{CmpLaws K} (key : R -> option K)
  (rows : list R) (k : K) :
  In k (group_keys key rows) <-> exists r, In r rows /\ key r = Some k.
Proof.
  unfold group_keys. rewrite sort_by_In, (dedup_In _ cmp_eqb_eq).
  apply filter_map_In.
Qed.

Lemma group_keys_NoDup {R K : Type} `{CmpLaws K} (key : R -> option K) (rows : list R) :
  NoDup (group_keys key rows).
Proof.
  unfold group_keys. eapply Permutation_NoDup.
  - symmetry. apply sort_by_perm.
  - apply dedup_NoDup, cmp_eqb_eq.
Qed.

Lemma group_keys_sorted {R K : Type} `{CmpLaws K} (key : R -> option K) (rows : list R) :
  StronglySorted (holds cmp_leb) (group_keys key rows).
Proof.
  unfold group_keys. apply sort_by_sorted; [apply cmp_leb_total|apply cmp_leb_trans].
Qed.

Lemma groupby_In {R K : Type} `{CmpLaws K} (key : R -> option K)
  (rows : list R) (k : K) (g : list R) :
  In (k, g) (groupby key rows) <->
  (exists r, In r rows /\ key r = Some k) /\ g = filter (in_group key k) rows.
Proof.
  unfold groupby. rewrite in_map_iff, <- group_keys_In. split.
  - intros (k' & [= -> <-] & Hk). auto.
  - intros (Hk & ->). exists k. auto.
Qed.

Lemma groupby_keys {R K : Type} `{Cmp K} (key : R -> option K) (rows : list R) :
  map fst (groupby key rows) = group_keys key rows.
Proof.
  unfold groupby. rewrite map_map. simpl. apply map_id.
Qed.

(** The rows of an outer join. *)
Lemma merge_outer_In {L R K O : Type} `{CmpLaws K} (kl : L -> K) (kr : R -> K)
  (both : L -> R -> O) (left_only : L -> O) (right_only : R -> O)
  (ls : list L) (rs : list R) (o : O) :
  In o (merge_outer kl kr both left_only right_only ls rs) <->
  (exists l r, In l ls /\ In r rs /\ kl l = kr r /\ o = both l r) \/
  (exists l, In l ls /\ (forall r, In r rs -> kr r <> kl l) /\ o = left_only l) \/
  (exists r, In r rs /\ (forall l, In l ls -> kl l <> kr r) /\ o = right_only r).
Proof.
  unfold merge_outer. rewrite in_flat_map.
  assert (Hkeys : forall k, In k (sort_by cmp_leb (dedup cmp_eqb (map kl ls ++ map kr rs)))
                    <-> (exists l, In l ls /\ kl l = k) \/ (exists r, In r rs /\ kr r = k)).
  { intros k. rewrite sort_by_In, (dedup_In _ cmp_eqb_eq), in_app_iff, !in_map_iff.
    split; intros [(x & E & Hx)|(x & E & Hx)]; eauto. }
  assert (Hfl : forall k l, In l (filter (fun l => cmp_eqb k (kl l)) ls)
                  <-> In l ls /\ kl l = k).
  { intros k l. rewrite filter_In, cmp_eqb_eq. split; intros [? ?]; auto. }
  assert (Hfr : forall k r, In r (filter (fun r => cmp_eqb k (kr r)) rs)
                  <-> In r rs /\ kr r = k).
  { intros k r. rewrite filter_In, cmp_eqb_eq. split; intros [? ?]; auto. }
  split.
  - intros (k & _ & Ho).
    destruct (filter (fun l => cmp_eqb k (kl l)) ls) as [|l0 fl] eqn:El.
    + right. right. apply in_map_iff in Ho as (r & <- & Hr).
      apply Hfr in Hr as [Hr <-]. exists r. repeat split; [exact Hr|].
      intros l Hl E.
      assert (Hin : In l (filter (fun l => cmp_eqb (kr r) (kl l)) ls))
        by (apply Hfl; auto).
      rewrite El in Hin. destruct Hin.
    + destruct (filter (fun r => cmp_eqb k (kr r)) rs) as [|r0 fr] eqn:Er.
      * right. left. apply in_map_iff in Ho as (l & <- & Hl).
        rewrite <- El in Hl. apply Hfl in Hl as [Hl <-].
        exists l. repeat split; [exact Hl|].
        intros r Hr E.
        assert (Hin : In r (filter (fun r => cmp_eqb (kl l) (kr r)) rs))
          by (apply Hfr; auto).
        rewrite Er in Hin. destruct Hin.
      * left. apply in_flat_map in Ho as (l & Hl & Ho).
        apply in_map_iff in Ho as (r & <- & Hr).
        rewrite <- El in Hl. rewrite <- Er in Hr.
        apply Hfl in Hl as [Hl <-]. apply Hfr in Hr as [Hr E].
        exists l, r. auto.
  - intros [(l & r & Hl & Hr & E & ->)|[(l & Hl & Hno & ->)|(r & Hr & Hno & ->)]].
    + exists (kl l). split; [apply Hkeys; eauto|].
      assert (Il : In l (filter (fun x => cmp_eqb (kl l) (kl x)) ls)) by (apply Hfl; auto).
      assert (Ir : In r (filter (fun x => cmp_eqb (kl l) (kr x)) rs)) by (apply Hfr; auto).
      destruct (filter (fun x => cmp_eqb (kl l) (kl x)) ls) as [|l0 fl] eqn:El;
        [destruct Il|].
      destruct (filter (fun x => cmp_eqb (kl l) (kr x)) rs) as [|r0 fr] eqn:Er;
        [destruct Ir|].
      apply in_flat_map. exists l. split; [exact Il|]. now apply in_map.
    + exists (kl l). split; [apply Hkeys; eauto|].
      assert (Il : In l (filter (fun x => cmp_eqb (kl l) (kl x)) ls)) by (apply Hfl; auto).
      assert (Er : filter (fun x => cmp_eqb (kl l) (kr x)) rs = []).
      { apply filter_nil_iff. intros r Hr.
        destruct (cmp_eqb (kl l) (kr r)) eqn:E; [|reflexivity].
        apply cmp_eqb_eq in E. exfalso. apply (Hno r Hr). auto. }
      rewrite Er.
      destruct (filter (fun x => cmp_eqb (kl l) (kl x)) ls) as [|l0 fl] eqn:El;
        [destruct Il|].
      now apply in_map.
    + exists (kr r). split; [apply Hkeys; eauto|].
      assert (Ir : In r (filter (fun x => cmp_eqb (kr r) (kr x)) rs)) by (apply Hfr; auto).
      assert (El : filter (fun x => cmp_eqb (kr r) (kl x)) ls = []).
      { apply filter_nil_iff. intros l Hl.
        destruct (cmp_eqb (kr r) (kl l)) eqn:E; [|reflexivity].
        apply cmp_eqb_eq in E. exfalso. apply (Hno l Hl). auto. }
      rewrite El. now apply in_map.
Qed.

(* ------------------------------------------------------------------ *)
(** * The leaderboard: the outer join and the totals *)

Lemma merge_left_covers {L R O : Type} (on : L -> R -> bool)
  (both : L -> R -> O) (left_only : L -> O) (ls : list L) (rs : list R) (l : L) :
  In l ls ->
  exists o, In o (merge_left on both left_only ls rs) /\
            ((exists r, o = both l r) \/ o = left_only l).
Proof.
  intros Hl. destruct (filter (on l) rs) as [|r m] eqn:E.
  - exists (left_only l). split; [|now right].
    apply merge_left_In. exists l. split; [exact Hl|]. right.
    split; [|reflexivity]. now apply filter_nil_iff.
  - exists (both l r). split; [|left; now exists r].
    assert (Hr : In r (filter (on l) rs)) by (rewrite E; now left).
    apply filter_In in Hr as [Hr Hon].
    apply merge_left_In. exists l. split; [exact Hl|]. left. exists r. auto.
Qed.

Lemma email_test_eq (e x : string) : cmp_eqb e x = String.eqb x e.
Proof.
  apply Bool.eq_iff_eq_true. rewrite cmp_eqb_eq, String.eqb_eq. split; congruence.
Qed.

Lemma match_agg_In (rows : list scored) (e : string) (v : Z) :
  In (e, v) (map match_sum (groupby (fun r => Some (s_email r)) rows)) <->
  (exists s, In s rows /\ s_email s = e) /\ v = user_match_points rows e.
Proof.
  rewrite in_map_iff. unfold match_sum, user_match_points. split.
  - intros ([k g] & [= -> <-] & Hg). apply groupby_In in Hg as [(s & Hs & [= Hk]) ->].
    split; [eauto|]. simpl. do 2 f_equal. apply filter_ext. intros s'.
    unfold in_group. apply email_test_eq.
  - intros [(s & Hs & Hk) ->].
    exists (e, filter (in_group (fun r => Some (s_email r)) e) rows). split.
    + simpl. do 3 f_equal. apply filter_ext. intros s'.
      unfold in_group. apply email_test_eq.
    + apply groupby_In. split; [|reflexivity]. exists s. split; [exact Hs|congruence].
Qed.

Lemma user_match_points_none (rows : list scored) (e : string) :
  (forall s, In s rows -> s_email s <> e) -> user_match_points rows e = 0.
Proof.
  intros H. unfold user_match_points.
  rewrite (proj2 (filter_nil_iff _ rows)); [reflexivity|].
  intros s Hs. apply String.eqb_neq. now apply H.
Qed.

Lemma merged_row_spec (rows : list scored) (ms : list meta_score) (g : merged) :
  In g (merged_rows rows ms) ->
  ((exists s, In s rows /\ s_email s = g_email g) \/
   (exists m, In m ms /\ ms_email m = g_email g)) /\
  g_match_points g = user_match_points rows (g_email g) /\
  meta_part ms (g_email g) (g_playoff_points g) (g_finalist_points g)
            (g_champion_points g) (g_meta_total g).
Proof.
  unfold merged_rows. rewrite merge_outer_In.
  intros [([e v] & m & Hl & Hm & E & ->)|[([e v] & Hl & Hno & ->)|(m & Hm & Hno & ->)]];
    simpl in *.
  - apply match_agg_In in Hl as [Hs ->]. subst e.
    split; [right; eauto|]. split; [reflexivity|].
    left. exists m. repeat split; auto.
  - apply match_agg_In in Hl as [Hs ->].
    split; [left; exact Hs|]. split; [reflexivity|].
    right. repeat split; auto.
  - split; [right; eauto|]. split.
    + symmetry. apply user_match_points_none. intros s Hs E.
      apply (Hno (s_email s, user_match_points rows (s_email s))); [|exact E].
      apply match_agg_In. split; [eauto|reflexivity].
    + left. exists m. repeat split; auto.
Qed.

Lemma merged_row_present (rows : list scored) (ms : list meta_score) (e : string) :
  (exists s, In s rows /\ s_email s = e) \/ (exists m, In m ms /\ ms_email m = e) ->
  exists g, In g (merged_rows rows ms) /\ g_email g = e.
Proof.
  unfold merged_rows. intros H.
  assert (Ha : forall s, In s rows ->
             In (s_email s, user_match_points rows (s_email s))
                (map match_sum (groupby (fun r => Some (s_email r)) rows)))
    by (intros s Hs; apply match_agg_In; split; [eauto|reflexivity]).
  destruct (in_dec string_dec e (map ms_email ms)) as [Hin|Hout].
  - apply in_map_iff in Hin as (m & Em & Hm).
    destruct (in_dec string_dec e (map s_email rows)) as [Hin'|Hout'].
    + apply in_map_iff in Hin' as (s & Es & Hs).
      eexists. split.
      * apply merge_outer_In. left. exists (s_email s, user_match_points rows (s_email s)), m.
        split; [now apply Ha|]. split; [exact Hm|]. split; [simpl; congruence|reflexivity].
      * simpl. exact Es.
    + exists (meta_only m). split; [|exact Em].
      apply merge_outer_In. right. right. exists m. split; [exact Hm|].
      split; [|reflexivity]. intros [e' v] Hl E. simpl in E.
      apply match_agg_In in Hl as [(s & Hs & Es) _].
      apply Hout'. apply in_map_iff. exists s. split; [congruence|exact Hs].
  - destruct H as [(s & Hs & Es)|(m & Hm & Em)].
    + eexists. split.
      * apply merge_outer_In. right. left.
        exists (s_email s, user_match_points rows (s_email s)).
        split; [now apply Ha|]. split; [|reflexivity].
        intros m Hm E. simpl in E. apply Hout. apply in_map_iff.
        exists m. split; [congruence|exact Hm].
      * simpl. exact Es.
    + exfalso. apply Hout. apply in_map_iff. eauto.
Qed.

Lemma match_agg_always (rows : list scored) :
  (if is_empty rows then []
   else map match_sum (groupby (fun r => Some (s_email r)) rows))
  = map match_sum (groupby (fun r => Some (s_email r)) rows).
Proof.
  destruct rows; reflexivity.
Qed.

(** Each row of the leaderboard frame is a row of the outer join with a
    name, a total and a rank. *)
Lemma leaderboard_frame_In (a : match_frame) (ms : list meta_score) (us : list user)
  (r : lb_row) :
  In r (leaderboard_frame a ms us) ->
  exists g n k, In g (merged_rows (mf_rows a) ms) /\ r = set_rank k (with_total g n).
Proof.
  unfold leaderboard_frame. rewrite match_agg_always. fold (merged_rows (mf_rows a) ms).
  intros H. apply in_map_iff in H as (r0 & <- & H).
  apply sort_by_In in H. apply merge_left_In in H as (g & Hg & H).
  destruct H as [(u & _ & _ & ->)|(_ & ->)]; eauto.
Qed.

Lemma leaderboard_frame_covers (a : match_frame) (ms : list meta_score) (us : list user)
  (g : merged) :
  In g (merged_rows (mf_rows a) ms) ->
  exists r, In r (leaderboard_frame a ms us) /\ lb_email r = g_email g.
Proof.
  unfold leaderboard_frame. rewrite match_agg_always. fold (merged_rows (mf_rows a) ms).
  intros Hg.
  destruct (merge_left_covers (fun g u => String.eqb (g_email g) (u_email u))
              (fun g u => with_total g (u_name u)) (fun g => with_total g None)
              (merged_rows (mf_rows a) ms) us g Hg) as (r0 & Hr0 & Hshape).
  eexists. split.
  - apply in_map_iff. exists r0. split; [reflexivity|]. now apply sort_by_In.
  - destruct Hshape as [(u & ->)| ->]; reflexivity.
Qed.

Lemma meta_total_is_sum (json_loads : string -> option pyval) (d : db)
  (ms : list meta_score) :
  compute_meta_scores json_loads d = Some ms ->
  forall m, In m ms ->
    ms_meta_total m = ms_playoff_points m + ms_finalist_points m + ms_champion_points m.
Proof.
  unfold compute_meta_scores.
  destruct (is_empty (predictions_meta d)); [intros [= <-] m []|].
  destruct (load_actual_sets json_loads (meta_actuals d)) as [[ap af]|];
    simpl; [|discriminate].
  intros [= <-] m Hm. apply in_map_iff in Hm as (r & <- & _).
  destruct (calc_row_scored json_loads ap af
              (get_actual_meta json_loads (meta_actuals d) "champion") r) as [_ H].
  unfold scored_as in H. destruct (predicted json_loads r) as [[pp fp] cp].
  apply H.
Qed.

(** C7. The leaderboard has a row for exactly the users that appear in
    the match-scoring frame or in the meta scores.  In every row,
    [match_points] is the sum of the user's match points (0 for a user
    with meta scores only), the meta columns are those of the user's
    meta row (0 for a user with match scores only), and
    [total_points = match_points + meta_total]. *)
Theorem outer_join_totals (json_loads : string -> option pyval) (d : db)
  (ms : list meta_score) :
  compute_meta_scores json_loads d = Some ms ->
  let rows := mf_rows (compute_match_scores d) in
  let frame := leaderboard_frame (compute_match_scores d) ms (users d) in
  overall_leaderboard json_loads d = Some (map select_cols frame) /\
  (forall e, (exists r, In r frame /\ lb_email r = e) <->
             (exists s, In s rows /\ s_email s = e) \/
             (exists m, In m ms /\ ms_email m = e)) /\
  (forall r, In r frame ->
     lb_total_points r = lb_match_points r + lb_meta_total r /\
     lb_match_points r = user_match_points rows (lb_email r) /\
     meta_part ms (lb_email r) (lb_playoff_points r) (lb_finalist_points r)
               (lb_champion_points r) (lb_meta_total r)) /\
  (forall r, In r frame ->
     (forall s, In s rows -> s_email s <> lb_email r) -> lb_match_points r = 0) /\
  (forall o, In o (map select_cols frame) ->
     total_points o
     = match_points o + (playoff_points o + finalist_points o + champion_points o)).
Proof.
  intros Hc rows frame.
  assert (Hrow : forall r, In r frame ->
     lb_total_points r = lb_match_points r + lb_meta_total r /\
     lb_match_points r = user_match_points rows (lb_email r) /\
     meta_part ms (lb_email r) (lb_playoff_points r) (lb_finalist_points r)
               (lb_champion_points r) (lb_meta_total r)).
  { intros r Hr. apply leaderboard_frame_In in Hr as (g & n & k & Hg & ->).
    apply merged_row_spec in Hg as (_ & Hm & Hmeta). simpl. auto. }
  split; [|split; [|split; [|split]]].
  - unfold overall_leaderboard. now rewrite Hc.
  - intros e. split.
    + intros (r & Hr & <-). apply leaderboard_frame_In in Hr as (g & n & k & Hg & ->).
      apply merged_row_spec in Hg as (H & _). exact H.
    + intros H. apply (merged_row_present rows ms) in H as (g & Hg & <-).
      now apply leaderboard_frame_covers.
  - exact Hrow.
  - intros r Hr Hno. destruct (Hrow r Hr) as (_ & -> & _).
    now apply user_match_points_none.
  - intros o Ho. apply in_map_iff in Ho as (r & <- & Hr). simpl.
    destruct (Hrow r Hr) as (-> & _ & Hmeta). f_equal.
    destruct Hmeta as [(m & Hm & _ & -> & -> & -> & ->)|(_ & -> & -> & -> & ->)].
    + now apply (meta_total_is_sum json_loads d ms Hc).
    + reflexivity.
Qed.

Lemma outer_join_totals_witness :
  exists ms, compute_meta_scores sample_json_loads sample_db = Some ms /\
    forall o,
      In o (map select_cols
              (leaderboard_frame (compute_match_scores sample_db) ms (users sample_db))) ->
      total_points o
      = match_points o + (playoff_points o + finalist_points o + champion_points o).
Proof.
  eexists. split; [reflexivity|].
  exact (proj2 (proj2 (proj2 (proj2
           (outer_join_totals sample_json_loads sample_db _ eq_refl))))).
Defined.

(* ------------------------------------------------------------------ *)
(** * Weekly winners *)

Lemma week_key_spec (r : scored) (e n : string) (w : Z) :
  week_key r = Some (e, (n, w)) <->
  s_email r = e /\ s_name r = Some n /\ s_week r = Some w.
Proof.
  unfold week_key. destruct (s_name r), (s_week r); split;
    try discriminate; try (intros (_ & ? & ?); discriminate).
  - intros [= -> -> ->]. auto.
  - intros (-> & [= ->] & [= ->]). reflexivity.
Qed.

Lemma counts_towardsb_spec (x : weekly_row) (r : scored) :
  counts_towardsb x r = true <-> counts_towards x r.
Proof.
  unfold counts_towardsb, counts_towards.
  rewrite !andb_true_iff, String.eqb_eq, opt_eqb_eq.
  destruct (s_week r) as [w|].
  - rewrite Z.eqb_eq.
    split; [intros [[? ?] ?]|intros (? & ? & ?)]; repeat split; congruence.
  - split; [intros [_ H]; discriminate H|intros (_ & _ & H); discriminate H].
Qed.

Lemma counts_towardsb_group (x : weekly_row) (r : scored) :
  in_group week_key (w_email x, (w_name x, w_week x)) r = counts_towardsb x r.
Proof.
  apply Bool.eq_iff_eq_true.
  rewrite in_group_spec, counts_towardsb_spec. apply week_key_spec.
Qed.

Lemma weekly_table_In (rows : list scored) (x : weekly_row) :
  In x (weekly_table rows) <->
  (exists r, In r rows /\ counts_towards x r) /\
  w_match_points x = zsum (map s_match_points (filter (counts_towardsb x) rows)).
Proof.
  rewrite <- (filter_ext _ _ (counts_towardsb_group x)).
  unfold weekly_table. rewrite in_map_iff. split.
  - intros ([[e [n w]] g] & <- & Hg). apply groupby_In in Hg as [(r & Hr & Hk) ->].
    simpl. split; [|reflexivity]. exists r. split; [exact Hr|].
    now apply week_key_spec.
  - intros [(r & Hr & Hk) Hp]. destruct x as [e n w p]. simpl in *.
    exists (e, (n, w), filter (in_group week_key (e, (n, w))) rows). split.
    + simpl. now rewrite Hp.
    + apply groupby_In. split; [|reflexivity]. exists r. split; [exact Hr|].
      now apply week_key_spec.
Qed.

Lemma weekly_table_keys (rows : list scored) :
  map (fun x => (w_email x, (w_name x, w_week x))) (weekly_table rows)
  = group_keys week_key rows.
Proof.
  unfold weekly_table. rewrite map_map, <- groupby_keys. apply map_ext.
  intros [[e [n w]] g]. reflexivity.
Qed.

Lemma weekly_from_inv (a : match_frame)
  (totals : list weekly_row) (winners : list (Z * list weekly_row)) :
  weekly_from a = Some (totals, winners) ->
  totals = sort_by totals_before (weekly_table (mf_rows a)) /\
  winners = map week_winners
              (groupby (fun r => Some (w_week r)) (weekly_table (mf_rows a))).
Proof.
  unfold weekly_from.
  destruct (mf_rows a) as [|r rows]; simpl is_empty; cbv iota.
  - intros [= <- <-]. split; reflexivity.
  - destruct (mf_named a); simpl; [|discriminate].
    intros [= <- <-]. split; reflexivity.
Qed.

Lemma weekly_from_named (a : match_frame) :
  mf_named a = true -> exists totals winners, weekly_from a = Some (totals, winners).
Proof.
  intros E. unfold weekly_from. rewrite E.
  destruct (is_empty (mf_rows a)); simpl; eauto.
Qed.

(** Without a [name] column no row has a name. *)
Lemma unnamed_rows (d : db) (r : scored) :
  mf_named (compute_match_scores d) = false ->
  In r (mf_rows (compute_match_scores d)) -> s_name r = None.
Proof.
  unfold compute_match_scores.
  destruct (is_empty (predictions_match d)); [intros _ []|].
  destruct (is_empty (users d)); simpl; [|discriminate].
  intros _ H. apply in_map_iff in H as (j & <- & _). reflexivity.
Qed.

Lemma fold_max_spec (t : list Z) (x : Z) :
  (fold_left Z.max t x = x \/ In (fold_left Z.max t x) t) /\
  x <= fold_left Z.max t x /\
  forall y, In y t -> y <= fold_left Z.max t x.
Proof.
  revert x. induction t as [|a t IH]; intros x; simpl.
  - split; [now left|]. split; [lia|]. intros y [].
  - destruct (IH (Z.max x a)) as (H1 & H2 & H3). split; [|split].
    + destruct H1 as [H1|H1]; [|now right; right].
      rewrite H1. destruct (Z.max_spec x a) as [[_ ->]|[_ ->]]; auto.
    + lia.
    + intros y [<-|Hy]; [lia|now apply H3].
Qed.

Lemma max_of_spec (l : list Z) (m : Z) :
  max_of l = Some m -> In m l /\ forall y, In y l -> y <= m.
Proof.
  destruct l as [|x t]; simpl; [discriminate|]. intros [= <-].
  destruct (fold_max_spec t x) as (H1 & H2 & H3). split.
  - destruct H1 as [->|H1]; auto.
  - intros y [<-|Hy]; auto.
Qed.

Lemma assoc_find {V : Type} (f : Z -> V) (keys : list Z) (w : Z) :
  option_map snd (find (fun e => Z.eqb (fst e) w) (map (fun k => (k, f k)) keys))
  = if in_dec Z.eq_dec w keys then Some (f w) else None.
Proof.
  induction keys as [|k keys IH]; simpl; [reflexivity|].
  destruct (Z.eqb_spec k w) as [->|Hne].
  - destruct (Z.eq_dec w w); [reflexivity|congruence].
  - rewrite IH. destruct (Z.eq_dec k w); [congruence|].
    destruct (in_dec Z.eq_dec w keys); reflexivity.
Qed.

Lemma winners_get_groupby (table : list weekly_row) (w : Z) :
  winners_get (map week_winners (groupby (fun r => Some (w_week r)) table)) w
  = if in_dec Z.eq_dec w (group_keys (fun r => Some (w_week r)) table)
    then Some (snd (week_winners
                      (w, filter (in_group (fun r => Some (w_week r)) w) table)))
    else None.
Proof.
  unfold winners_get, groupby. rewrite map_map.
  rewrite <- (assoc_find (fun k => snd (week_winners
                  (k, filter (in_group (fun r => Some (w_week r)) k) table)))).
  reflexivity.
Qed.

Lemma week_group_In (table : list weekly_row) (w : Z) (x : weekly_row) :
  In x (filter (in_group (fun r => Some (w_week r)) w) table) <->
  In x table /\ w_week x = w.
Proof.
  rewrite filter_In, in_group_spec. split; intros [H1 H2]; split; congruence.
Qed.

Lemma week_winners_In (table : list weekly_row) (w : Z) (x : weekly_row) :
  In x (snd (week_winners (w, filter (in_group (fun r => Some (w_week r)) w) table)))
  <-> is_week_winner table w x.
Proof.
  unfold week_winners, is_week_winner. simpl.
  rewrite sort_by_In, filter_In, week_group_In.
  set (sub := filter (in_group (fun r => Some (w_week r)) w) table).
  destruct (max_of (map w_match_points sub)) as [m|] eqn:Em.
  - apply max_of_spec in Em as [Hm Hle]. simpl. rewrite Z.eqb_eq. split.
    + intros [[Hx Hw] E]. repeat split; auto. intros y Hy Hyw. rewrite E.
      apply Hle. apply in_map. apply week_group_In. auto.
    + intros (Hx & Hw & Hmax). repeat split; auto.
      apply in_map_iff in Hm as (y & <- & Hy).
      apply week_group_In in Hy as [Hy Hyw].
      assert (w_match_points x <= w_match_points y).
      { apply Hle. apply in_map. apply week_group_In. auto. }
      specialize (Hmax y Hy Hyw). lia.
  - simpl. split; [intros [_ H]; discriminate|].
    intros (Hx & Hw & _). exfalso.
    assert (Hin : In x sub) by (apply week_group_In; auto).
    destruct sub; [destruct Hin|discriminate].
Qed.

Lemma totals_before_spec (x y : weekly_row) :
  totals_before x y = true <-> week_then_points x y.
Proof.
  unfold totals_before, week_then_points, lex, cmp, Cmp_Z.
  destruct (Z.compare_spec (w_week x) (w_week y));
    destruct (Z.compare_spec (w_match_points y) (w_match_points x));
    simpl; split; intros; try lia; try discriminate; try reflexivity.
Qed.

Lemma totals_before_total (x y : weekly_row) :
  totals_before x y = true \/ totals_before y x = true.
Proof. rewrite !totals_before_spec. unfold week_then_points. lia. Qed.

Lemma totals_before_trans (x y z : weekly_row) :
  totals_before x y = true -> totals_before y z = true -> totals_before x z = true.
Proof. rewrite !totals_before_spec. unfold week_then_points. lia. Qed.

Lemma name_before_leb (x y : weekly_row) :
  name_before x y = String.leb (w_name x) (w_name y).
Proof.
  unfold name_before, cmp_leb, String.leb, cmp, Cmp_string.
  destruct (String.compare (w_name x) (w_name y)); reflexivity.
Qed.

Lemma week_winners_sorted (g : Z * list weekly_row) :
  StronglySorted (fun x y => String.leb (w_name x) (w_name y) = true)
                 (snd (week_winners g)).
Proof.
  destruct g as [w sub]. simpl.
  eapply StronglySorted_impl;
    [|apply (sort_by_sorted name_before)].
  - intros x y H. unfold holds in H. now rewrite <- name_before_leb.
  - intros x y. unfold name_before. apply cmp_leb_total.
  - intros x y z. unfold name_before. apply cmp_leb_trans.
Qed.

Lemma week_has_rows (rows : list scored) (w : Z) :
  In w (group_keys (fun r => Some (w_week r)) (weekly_table rows)) <->
  has_scored_row rows w.
Proof.
  rewrite group_keys_In. unfold has_scored_row. split.
  - intros (x & Hx & [= E]). apply weekly_table_In in Hx as [(r & Hr & _ & Hn & Hw) _].
    exists r. split; [exact Hr|]. split; [congruence|]. rewrite Hn. discriminate.
  - intros (r & Hr & Hw & Hn). destruct (s_name r) as [n|] eqn:En; [|congruence].
    exists {| w_email := s_email r; w_name := n; w_week := w;
              w_match_points :=
                zsum (map s_match_points
                        (filter (in_group week_key (s_email r, (n, w))) rows)) |}.
    split; [|reflexivity]. apply weekly_table_In.
    split; [|rewrite <- (filter_ext _ _ (counts_towardsb_group _)); reflexivity].
    exists r. split; [exact Hr|]. repeat split; assumption.
Qed.

Lemma is_week_winner_perm (t t' : list weekly_row) (w : Z) (x : weekly_row) :
  (forall y, In y t <-> In y t') -> is_week_winner t w x <-> is_week_winner t' w x.
Proof.
  intros H. unfold is_week_winner. rewrite (H x). split; intros (H1 & H2 & H3);
    repeat split; auto; intros y Hy; apply H3, H, Hy.
Qed.

(** C8, as the code has it.  For every week that has a scored row of a
    named user (a row on a fixture with a result, whose email has a user
    with a name) the weekly result exists and maps the week to its
    winners: exactly the rows of the per-user-per-week table for that
    week whose total is the largest of the week (all of them when
    several tie), in ascending order of name.  In any result, a week
    without a row of a named user is not in the mapping, the flat table
    is in order of ascending week and then descending points, and it
    holds one row per user, name and week with the sum of the match
    points that count towards it. *)
Theorem weekly_winners_rule (d : db) :
  let rows := mf_rows (compute_match_scores d) in
  (forall w, has_completed_row rows w ->
     exists totals winners ws,
       weekly_winners d = Some (totals, winners) /\
       winners_get winners w = Some ws /\
       (forall x, In x ws <-> is_week_winner totals w x) /\
       StronglySorted (fun x y => String.leb (w_name x) (w_name y) = true) ws) /\
  (forall totals winners,
     weekly_winners d = Some (totals, winners) ->
     (forall w, ~ has_scored_row rows w -> winners_get winners w = None) /\
     StronglySorted week_then_points totals /\
     NoDup (map (fun x => (w_email x, (w_name x, w_week x))) totals) /\
     (forall x, In x totals <->
        (exists r, In r rows /\ counts_towards x r) /\
        w_match_points x
        = zsum (map s_match_points (filter (counts_towardsb x) rows)))).
Proof.
  intros rows. split.
  - intros w Hc.
    assert (Hw : has_scored_row rows w).
    { destruct Hc as (r & Hr & Hweek & _ & Hname). exists r. auto. }
    assert (Hn : mf_named (compute_match_scores d) = true).
    { destruct (mf_named (compute_match_scores d)) eqn:E; [reflexivity|].
      destruct Hw as (r & Hr & _ & Hname).
      exfalso. apply Hname. now apply (unnamed_rows d). }
    destruct (weekly_from_named _ Hn) as (totals & winners & E).
    destruct (weekly_from_inv _ _ _ E) as [Et Ew].
    exists totals, winners,
      (snd (week_winners
              (w, filter (in_group (fun r => Some (w_week r)) w) (weekly_table rows)))).
    split; [exact E|]. split; [|split].
    + rewrite Ew. fold rows. rewrite winners_get_groupby.
      destruct (in_dec Z.eq_dec w _) as [_|Hout]; [reflexivity|].
      exfalso. apply Hout. now apply week_has_rows.
    + intros x. rewrite week_winners_In. apply is_week_winner_perm.
      intros y. rewrite Et. symmetry. apply sort_by_In.
    + apply week_winners_sorted.
  - intros totals winners E. destruct (weekly_from_inv _ _ _ E) as [Et Ew].
    fold rows in Et, Ew. split; [|split; [|split]].
    + intros w Hw. rewrite Ew, winners_get_groupby.
      destruct (in_dec Z.eq_dec w _) as [Hin|_]; [|reflexivity].
      exfalso. apply Hw. now apply week_has_rows.
    + rewrite Et. eapply StronglySorted_impl;
        [|apply (sort_by_sorted totals_before);
          [apply totals_before_total|apply totals_before_trans]].
      intros x y H. now apply totals_before_spec.
    + rewrite Et. eapply Permutation_NoDup.
      * apply Permutation_map. symmetry. apply sort_by_perm.
      * rewrite weekly_table_keys. apply group_keys_NoDup.
    + intros x. rewrite Et, sort_by_In. apply weekly_table_In.
Qed.

Lemma weekly_winners_rule_witness :
  has_completed_row (mf_rows (compute_match_scores sample_db)) 1 /\
  exists totals winners ws,
    weekly_winners sample_db = Some (totals, winners) /\
    winners_get winners 1 = Some ws /\
    (forall x, In x ws <-> is_week_winner totals 1 x) /\
    StronglySorted (fun x y => String.leb (w_name x) (w_name y) = true) ws.
Proof.
  assert (H : has_completed_row (mf_rows (compute_match_scores sample_db)) 1).
  { eexists. split; [left; reflexivity|]. split; [reflexivity|].
    split; discriminate. }
  split; [exact H|].
  exact (proj1 (weekly_winners_rule sample_db) 1 H).
Defined.

(** C8, as stated, fails: week 1 has a scored row, a correct pick worth
    5 points on a fixture with a result, but its email has no user, and
    the weekly result has no entry for the week. *)
Lemma scored_week_without_entry :
  In ghost_row (mf_rows (compute_match_scores ghost_db)) /\
  s_week ghost_row = Some 1 /\ s_winner ghost_row <> None /\
  s_match_points ghost_row = POINTS match_winner /\
  weekly_winners ghost_db = Some ([], []) /\
  ~ exists totals winners ws,
      weekly_winners ghost_db = Some (totals, winners) /\
      winners_get winners 1 = Some ws.
Proof.
  split; [left; reflexivity|]. split; [reflexivity|]. split; [discriminate|].
  split; [reflexivity|]. split; [reflexivity|].
  intros (totals & winners & ws & E & H).
  assert (Ew : winners = []) by (vm_compute in E; congruence).
  subst winners. discriminate H.
Qed.

(* ------------------------------------------------------------------ *)
(** * Rows with an incomplete grouping key *)

Lemma is_complete_false (r : scored) :
  is_complete r = false <-> s_week r = None \/ s_name r = None.
Proof.
  unfold is_complete, week_key. destruct (s_name r), (s_week r); split; auto;
    try discriminate; intros [H|H]; discriminate.
Qed.

Lemma filter_filter_weaker {A : Type} (p q : A -> bool) (l : list A) :
  (forall x, p x = true -> q x = true) -> filter p (filter q l) = filter p l.
Proof.
  intros H. induction l as [|a l IH]; simpl; [reflexivity|].
  destruct (q a) eqn:Eq; simpl.
  - now rewrite IH.
  - destruct (p a) eqn:Ep; [|exact IH].
    apply H in Ep. congruence.
Qed.









(** C10. With an empty users table the email of a prediction has no
    matching user, and the weekly aggregator raises instead of leaving
    the row out of its table and mapping; on the same tables the overall
    leaderboard, which attaches the names without the guard, returns the
    row with a null name. *)
Lemma no_users_weekly_raises :
  In (mk_pred "asha@x.io" 1 "CSK") (predictions_match no_users_db) /\
  (forall u, In u (users no_users_db) -> u_email u <> "asha@x.io"%string) /\
  weekly_winners no_users_db = None /\
  overall_leaderboard sample_json_loads no_users_db
  = Some [ {| rank := 1; name := None; email := "asha@x.io";
              match_points := 5; playoff_points := 0; finalist_points := 0;
              champion_points := 0; total_points := 5 |} ].
Proof.
  split; [now left|]. split; [intros u []|]. split; reflexivity.
Qed.

(* ------------------------------------------------------------------ *)
(** * Reordering the stored rows *)

Lemma reordered_tables_of (d d' : db) : reordered d d' -> reordered_tables d d'.
Proof.
  intros (Pp & Pf & Eu & Em & Ea). repeat split; auto.
  - now rewrite Eu.
  - now rewrite Em.
Qed.

Lemma compute_match_scores_perm (d d' : db) :
  reordered_tables d d' ->
  mf_named (compute_match_scores d') = mf_named (compute_match_scores d) /\
  Permutation (mf_rows (compute_match_scores d)) (mf_rows (compute_match_scores d')).
Proof.
  intros (Pp & Pf & Pu & _ & _). unfold compute_match_scores.
  rewrite <- (is_empty_perm _ _ Pp), <- (is_empty_perm _ _ Pu).
  destruct (is_empty (predictions_match d)); [split; reflexivity|].
  destruct (is_empty (users d)); simpl; split; try reflexivity.
  - apply Permutation_map. now apply merge_left_perm.
  - apply merge_left_perm; [|exact Pu]. now apply merge_left_perm.
Qed.

Lemma perm_short_eq {A : Type} (l l' : list A) :
  Permutation l l' -> (List.length l <= 1)%nat -> l = l'.
Proof.
  destruct l as [|a [|b l]]; simpl; intros P H.
  - apply Permutation_nil in P. now subst.
  - apply Permutation_length_1_inv in P. now subst.
  - lia.
Qed.

(** With a unique key, the rows a test selects do not depend on the
    order of the frame. *)
Lemma filter_perm_unique {R K : Type} (key : R -> K) (p : R -> bool) (rs rs' : list R) :
  NoDup (map key rs) -> Permutation rs rs' ->
  (forall r r', p r = true -> p r' = true -> key r = key r') ->
  filter p rs = filter p rs'.
Proof.
  intros Hn P Hk. apply perm_short_eq; [now apply filter_perm|].
  rewrite (filter_unique_key key p rs Hn Hk).
  destruct (find p rs); simpl; lia.
Qed.

Lemma merge_left_perm_right {L R O K : Type} (key : R -> K) (on : L -> R -> bool)
  (both : L -> R -> O) (left_only : L -> O) (ls : list L) (rs rs' : list R) :
  NoDup (map key rs) -> Permutation rs rs' ->
  (forall l r r', on l r = true -> on l r' = true -> key r = key r') ->
  merge_left on both left_only ls rs = merge_left on both left_only ls rs'.
Proof.
  intros Hn P Hk. unfold merge_left. apply flat_map_ext. intros l.
  now rewrite (filter_perm_unique key (on l) rs rs' Hn P (Hk l)).
Qed.

Lemma merge_outer_perm_right {L R K O : Type} `{CmpLaws K} (kl : L -> K) (kr : R -> K)
  (both : L -> R -> O) (left_only : L -> O) (right_only : R -> O)
  (ls : list L) (rs rs' : list R) :
  NoDup (map kr rs) -> Permutation rs rs' ->
  merge_outer kl kr both left_only right_only ls rs
  = merge_outer kl kr both left_only right_only ls rs'.
Proof.
  intros Hn P. unfold merge_outer.
  assert (Ek : sort_by cmp_leb (dedup cmp_eqb (map kl ls ++ map kr rs))
               = sort_by cmp_leb (dedup cmp_eqb (map kl ls ++ map kr rs'))).
  { apply sort_by_perm_eq;
      [apply cmp_leb_total|apply cmp_leb_trans|apply cmp_leb_antisym|].
    apply dedup_perm; [apply cmp_eqb_eq|].
    apply Permutation_app_head. now apply Permutation_map. }
  rewrite Ek. apply flat_map_ext. intros k.
  rewrite (filter_perm_unique kr (fun r => cmp_eqb k (kr r)) rs rs' Hn P);
    [reflexivity|].
  intros r r' H1 H2. apply cmp_eqb_eq in H1, H2. congruence.
Qed.

Lemma leaderboard_frame_perm_all (a b : match_frame)
  (ms ms' : list meta_score) (us us' : list user) :
  Permutation (mf_rows a) (mf_rows b) ->
  Permutation ms ms' -> NoDup (map ms_email ms) ->
  Permutation us us' -> NoDup (map u_email us) ->
  leaderboard_frame a ms us = leaderboard_frame b ms' us'.
Proof.
  intros Pr Pm Nm Pu Nu. rewrite (leaderboard_frame_perm a b ms us Pr).
  unfold leaderboard_frame.
  rewrite (merge_outer_perm_right fst ms_email join_both match_only meta_only _ ms ms' Nm Pm).
  rewrite (merge_left_perm_right u_email _ _ _ _ us us' Nu Pu); [reflexivity|].
  intros g u u' H1 H2. apply String.eqb_eq in H1, H2. congruence.
Qed.

Lemma compute_meta_scores_perm (json_loads : string -> option pyval) (d d' : db) :
  Permutation (predictions_meta d) (predictions_meta d') ->
  meta_actuals d' = meta_actuals d ->
  match compute_meta_scores json_loads d, compute_meta_scores json_loads d' with
  | Some ms, Some ms' =>
      Permutation ms ms' /\ map ms_email ms = map m_email (predictions_meta d)
  | None, None => True
  | _, _ => False
  end.
Proof.
  intros P Ea. unfold compute_meta_scores.
  rewrite Ea, <- (is_empty_perm _ _ P).
  destruct (is_empty (predictions_meta d)) eqn:Ee.
  - split; [reflexivity|]. destruct (predictions_meta d); [reflexivity|discriminate].
  - destruct (load_actual_sets json_loads (meta_actuals d)) as [[ap af]|]; simpl;
      [|exact I].
    split; [now apply Permutation_map|].
    rewrite map_map. apply map_ext. intros r. apply calc_row_scored.
Qed.

(** C9. Reordering the stored match predictions and fixtures changes
    neither the overall leaderboard nor the weekly result (the
    per-user-per-week table and the winners mapping), row order
    included.  With the emails of the users and of the meta predictions
    unique, as their primary keys make them, the same holds when the
    users and the meta predictions are reordered as well. *)
Theorem reorder_invariance (json_loads : string -> option pyval) (d d' : db) :
  (reordered d d' ->
   overall_leaderboard json_loads d' = overall_leaderboard json_loads d /\
   weekly_winners d' = weekly_winners d) /\
  (reordered_tables d d' ->
   NoDup (map u_email (users d)) ->
   NoDup (map m_email (predictions_meta d)) ->
   overall_leaderboard json_loads d' = overall_leaderboard json_loads d /\
   weekly_winners d' = weekly_winners d).
Proof.
  split.
  - intros Hr.
    destruct (compute_match_scores_perm d d' (reordered_tables_of d d' Hr)) as [En P].
    destruct Hr as (_ & _ & Eu & Em & Ea). split.
    + unfold overall_leaderboard.
      assert (compute_meta_scores json_loads d' = compute_meta_scores json_loads d) as ->
        by (unfold compute_meta_scores; now rewrite Em, Ea).
      rewrite Eu.
      destruct (compute_meta_scores json_loads d) as [ms|]; simpl; [|reflexivity].
      now rewrite (leaderboard_frame_perm _ _ ms (users d) P).
    + unfold weekly_winners. now apply weekly_from_perm.
  - intros Hr Nu Nm. destruct (compute_match_scores_perm d d' Hr) as [En P].
    destruct Hr as (_ & _ & Pu & Pm & Ea). split.
    + unfold overall_leaderboard.
      pose proof (compute_meta_scores_perm json_loads d d' Pm Ea) as Hm.
      destruct (compute_meta_scores json_loads d) as [ms|],
               (compute_meta_scores json_loads d') as [ms'|];
        simpl; try reflexivity; try contradiction.
      destruct Hm as [Pms Ems]. do 2 f_equal. symmetry.
      apply leaderboard_frame_perm_all; auto. now rewrite Ems.
    + unfold weekly_winners. now apply weekly_from_perm.
Qed.

Lemma reorder_invariance_witness :
  (reordered sample_db sample_db_rev /\
   overall_leaderboard sample_json_loads sample_db_rev
   = overall_leaderboard sample_json_loads sample_db /\
   weekly_winners sample_db_rev = weekly_winners sample_db) /\
  (reordered_tables sample_db sample_db_shuffled /\
   NoDup (map u_email (users sample_db)) /\
   NoDup (map m_email (predictions_meta sample_db)) /\
   overall_leaderboard sample_json_loads sample_db_shuffled
   = overall_leaderboard sample_json_loads sample_db /\
   weekly_winners sample_db_shuffled = weekly_winners sample_db).
Proof.
  assert (H : reordered sample_db sample_db_rev)
    by (repeat split; apply Permutation_rev).
  assert (H' : reordered_tables sample_db sample_db_shuffled)
    by (repeat split; apply Permutation_rev).
  assert (Nu : NoDup (map u_email (users sample_db))) by nodup_by_eval.
  assert (Nm : NoDup (map m_email (predictions_meta sample_db))) by nodup_by_eval.
  split.
  - split; [exact H|].
    exact (proj1 (reorder_invariance sample_json_loads sample_db sample_db_rev) H).
  - split; [exact H'|]. split; [exact Nu|]. split; [exact Nm|].
    exact (proj2 (reorder_invariance sample_json_loads sample_db sample_db_shuffled)
             H' Nu Nm).
Defined.

(* ------------------------------------------------------------------ *)
(** * When the aggregators raise, and the empty states *)

(** X1. The weekly aggregator raises exactly when there are match
    predictions and the users table is empty (the frame then has no
    [name] column to group by); in every other state it returns. *)
Theorem weekly_winners_raises_iff (d : db) :
  weekly_winners d = None <-> users d = [] /\ predictions_match d <> [].
Proof.
  unfold weekly_winners, weekly_from. split.
  - destruct (is_empty (mf_rows (compute_match_scores d))) eqn:Er; [discriminate|].
    destruct (mf_named (compute_match_scores d)) eqn:En; [discriminate|]. intros _.
    unfold compute_match_scores in Er, En.
    destruct (predictions_match d) as [|p ps]; [discriminate|].
    destruct (users d) as [|u us]; [|discriminate].
    split; [reflexivity|discriminate].
  - intros [Eu Hp].
    assert (En : mf_named (compute_match_scores d) = false).
    { unfold compute_match_scores. rewrite Eu.
      destruct (is_empty (predictions_match d)); reflexivity. }
    assert (Er : is_empty (mf_rows (compute_match_scores d)) = false).
    { destruct (predictions_match d) as [|p ps] eqn:Ep; [congruence|].
      destruct (prediction_has_row d p) as (s & Hs & _); [rewrite Ep; now left|].
      destruct (mf_rows (compute_match_scores d)); [destruct Hs|reflexivity]. }
    now rewrite Er, En.
Qed.

Lemma get_actual_meta_unset (json_loads : string -> option pyval)
  (tbl : list (string * option string)) (k : string) :
  actuals_unset tbl ->
  k = "playoff_teams"%string \/ k = "finalists"%string \/ k = "champion"%string ->
  get_actual_meta json_loads tbl k = PyNone.
Proof.
  intros Hu Hk. unfold get_actual_meta.
  destruct (find (fun row => String.eqb (fst row) k) tbl) as [[k' [v|]]|] eqn:E;
    try reflexivity.
  apply find_some in E as [Hin Ek]. simpl in Ek. apply String.eqb_eq in Ek. subst k'.
  destruct (Hu k v Hin) as (H1 & H2 & H3). exfalso. destruct Hk as [-> | [-> | ->]]; auto.
Qed.

Lemma filter_none {A : Type} (l : list A) : filter (fun _ => false) l = [].
Proof. induction l; simpl; auto. Qed.

Lemma calc_row_unset (json_loads : string -> option pyval) (r : meta_prediction) :
  calc_row json_loads [] [] PyNone r = zero_score (m_email r).
Proof.
  unfold calc_row. destruct (predicted json_loads r) as [[pp fp] cp].
  unfold mem. simpl existsb. rewrite !filter_none.
  unfold champion_hit. simpl py_truthy. rewrite andb_false_r. reflexivity.
Qed.

Lemma meta_scores_emails (json_loads : string -> option pyval) (d : db)
  (ms : list meta_score) :
  compute_meta_scores json_loads d = Some ms ->
  map ms_email ms = map m_email (predictions_meta d).
Proof.
  unfold compute_meta_scores.
  destruct (is_empty (predictions_meta d)) eqn:Ee.
  - intros [= <-]. destruct (predictions_meta d); [reflexivity|discriminate].
  - destruct (load_actual_sets json_loads (meta_actuals d)) as [[ap af]|];
      simpl; [|discriminate].
    intros [= <-]. rewrite map_map. apply map_ext. intros r. apply calc_row_scored.
Qed.

(** The columns of a leaderboard row are those of a row of the outer
    join. *)
Lemma standing_origin (json_loads : string -> option pyval) (d : db)
  (lb : list standing) (o : standing) :
  overall_leaderboard json_loads d = Some lb -> In o lb ->
  exists ms g,
    compute_meta_scores json_loads d = Some ms /\
    In g (merged_rows (mf_rows (compute_match_scores d)) ms) /\
    email o = g_email g /\ match_points o = g_match_points g /\
    playoff_points o = g_playoff_points g /\
    finalist_points o = g_finalist_points g /\
    champion_points o = g_champion_points g /\
    total_points o = g_match_points g + g_meta_total g.
Proof.
  unfold overall_leaderboard.
  destruct (compute_meta_scores json_loads d) as [ms|]; simpl; [|discriminate].
  intros [= <-] Ho. apply in_map_iff in Ho as (r & <- & Hr).
  apply leaderboard_frame_In in Hr as (g & n & k & Hg & ->).
  exists ms, g. repeat split; auto.
Qed.

(** X2. While no actual outcome is stored, meta scoring raises nothing
    and scores every stored meta prediction with zeros; the leaderboard
    is returned and each of its rows has zero playoff, finalist and
    champion points and a total equal to its match points. *)
Theorem unset_actuals_score_zero (json_loads : string -> option pyval) (d : db) :
  actuals_unset (meta_actuals d) ->
  compute_meta_scores json_loads d
  = Some (map (fun r => zero_score (m_email r)) (predictions_meta d)) /\
  exists lb, overall_leaderboard json_loads d = Some lb /\
    forall o, In o lb ->
      playoff_points o = 0 /\ finalist_points o = 0 /\ champion_points o = 0 /\
      total_points o = match_points o.
Proof.
  intros Hu.
  assert (Hload : load_actual_sets json_loads (meta_actuals d) = Some ([], [])).
  { unfold load_actual_sets. rewrite !get_actual_meta_unset; auto. }
  assert (Hms : compute_meta_scores json_loads d
                = Some (map (fun r => zero_score (m_email r)) (predictions_meta d))).
  { rewrite (compute_meta_scores_rows json_loads d [] [] Hload).
    rewrite get_actual_meta_unset by auto. f_equal. apply map_ext.
    intros r. apply calc_row_unset. }
  split; [exact Hms|].
  destruct (overall_leaderboard json_loads d) as [lb|] eqn:El.
  - exists lb. split; [reflexivity|]. intros o Ho.
    destruct (standing_origin json_loads d lb o El Ho)
      as (ms & g & Ems & Hg & _ & -> & -> & -> & -> & ->).
    rewrite Hms in Ems. injection Ems as <-.
    apply merged_row_spec in Hg as (_ & _ & Hmeta).
    destruct Hmeta as [(m & Hm & _ & -> & -> & -> & ->)|(_ & -> & -> & -> & ->)].
    + apply in_map_iff in Hm as (r & <- & _). simpl. repeat split; lia.
    + repeat split; lia.
  - unfold overall_leaderboard in El. rewrite Hms in El. discriminate.
Qed.

Lemma unset_actuals_score_zero_witness :
  actuals_unset (meta_actuals sample_db_unset) /\
  compute_meta_scores sample_json_loads sample_db_unset
  = Some (map (fun r => zero_score (m_email r)) (predictions_meta sample_db_unset)).
Proof.
  assert (H : actuals_unset (meta_actuals sample_db_unset)) by (intros k v []).
  split; [exact H|].
  exact (proj1 (unset_actuals_score_zero sample_json_loads sample_db_unset H)).
Defined.

(** The emails of a returned leaderboard are those of the match
    predictions and of the meta predictions. *)
Lemma leaderboard_email_In (json_loads : string -> option pyval) (d : db)
  (lb : list standing) (e : string) :
  overall_leaderboard json_loads d = Some lb ->
  ((exists o, In o lb /\ email o = e) <->
   (exists p, In p (predictions_match d) /\ p_email p = e) \/
   (exists m, In m (predictions_meta d) /\ m_email m = e)).
Proof.
  intros El. split.
  - intros (o & Ho & <-).
    destruct (standing_origin json_loads d lb o El Ho) as (ms & g & Ems & Hg & -> & _).
    apply merged_row_spec in Hg as ([(s & Hs & Es)|(m & Hm & Em)] & _).
    + left. destruct (scored_row_origin d s Hs) as (p & Hp & Ec & _).
      exists p. split; [exact Hp|].
      unfold scored_cols, pred_cols in Ec. congruence.
    + right. pose proof (meta_scores_emails json_loads d ms Ems) as He.
      assert (Hin : In (g_email g) (map m_email (predictions_meta d))).
      { rewrite <- He, <- Em. now apply in_map. }
      apply in_map_iff in Hin as (r & Er & Hr). eauto.
  - intros H. unfold overall_leaderboard in El.
    destruct (compute_meta_scores json_loads d) as [ms|] eqn:Ems; simpl in El;
      [|discriminate].
    injection El as <-.
    assert (Hg : exists g, In g (merged_rows (mf_rows (compute_match_scores d)) ms) /\
                           g_email g = e).
    { apply merged_row_present. destruct H as [(p & Hp & Ep)|(m & Hm & Em)].
      - left. destruct (prediction_has_row d p Hp) as (s & Hs & Ec).
        exists s. split; [exact Hs|].
        unfold scored_cols, pred_cols in Ec. congruence.
      - right. pose proof (meta_scores_emails json_loads d ms Ems) as He.
        assert (Hin : In e (map ms_email ms)).
        { rewrite He, <- Em. now apply in_map. }
        apply in_map_iff in Hin as (r & Er & Hr). eauto. }
    destruct Hg as (g & Hg & Eg).
    destruct (leaderboard_frame_covers (compute_match_scores d) ms (users d) g Hg)
      as (r & Hr & Er).
    exists (select_cols r). split; [now apply in_map|].
    cbn [email select_cols]. congruence.
Qed.

(** X3. A returned leaderboard is empty exactly when there is neither a
    match prediction nor a meta prediction: users alone give no rows,
    and any prediction of either kind gives its email a row. *)
Theorem leaderboard_empty_iff (json_loads : string -> option pyval) (d : db)
  (lb : list standing) :
  overall_leaderboard json_loads d = Some lb ->
  (lb = [] <-> predictions_match d = [] /\ predictions_meta d = []) /\
  (forall p, In p (predictions_match d) ->
     exists o, In o lb /\ email o = p_email p) /\
  (forall m, In m (predictions_meta d) ->
     exists o, In o lb /\ email o = m_email m).
Proof.
  intros El. split; [|split].
  2:{ intros p Hp. apply (leaderboard_email_In json_loads d lb _ El). left. eauto. }
  2:{ intros m Hm. apply (leaderboard_email_In json_loads d lb _ El). right. eauto. }
  split.
  - intros ->. unfold overall_leaderboard in El.
    destruct (compute_meta_scores json_loads d) as [ms|] eqn:Ems; simpl in El;
      [|discriminate].
    injection El as El. apply map_eq_nil in El.
    pose proof (meta_scores_emails json_loads d ms Ems) as He.
    split.
    + destruct (predictions_match d) as [|p ps] eqn:Ep; [reflexivity|]. exfalso.
      destruct (prediction_has_row d p) as (s & Hs & _); [rewrite Ep; now left|].
      destruct (merged_row_present (mf_rows (compute_match_scores d)) ms (s_email s))
        as (g & Hg & _); [left; eauto|].
      destruct (leaderboard_frame_covers (compute_match_scores d) ms (users d) g Hg)
        as (r & Hr & _).
      rewrite El in Hr. destruct Hr.
    + destruct (predictions_meta d) as [|r rs]; [reflexivity|]. exfalso.
      destruct ms as [|m ms]; [discriminate|].
      destruct (merged_row_present (mf_rows (compute_match_scores d)) (m :: ms) (ms_email m))
        as (g & Hg & _); [right; exists m; split; [now left|reflexivity]|].
      destruct (leaderboard_frame_covers (compute_match_scores d) (m :: ms) (users d) g Hg)
        as (r0 & Hr & _).
      rewrite El in Hr. destruct Hr.
  - intros [Ep Em]. destruct lb as [|o lb]; [reflexivity|]. exfalso.
    destruct (standing_origin json_loads d (o :: lb) o El (or_introl eq_refl))
      as (ms & g & Ems & Hg & _).
    pose proof (meta_scores_emails json_loads d ms Ems) as He.
    rewrite Em in He. apply map_eq_nil in He. subst ms.
    apply merged_row_spec in Hg as ([(s & Hs & _)|(m & [] & _)] & _).
    unfold compute_match_scores in Hs. rewrite Ep in Hs. destruct Hs.
Qed.

Lemma leaderboard_empty_iff_witness :
  exists lb, overall_leaderboard sample_json_loads sample_db = Some lb /\
    (lb = [] <->
     predictions_match sample_db = [] /\ predictions_meta sample_db = []) /\
    (forall p, In p (predictions_match sample_db) ->
       exists o, In o lb /\ email o = p_email p) /\
    (forall m, In m (predictions_meta sample_db) ->
       exists o, In o lb /\ email o = m_email m).
Proof.
  eexists. split; [reflexivity|].
  exact (leaderboard_empty_iff sample_json_loads sample_db _ eq_refl).
Defined.

(* ------------------------------------------------------------------ *)
(** * What the match points count *)

Lemma scored_points_correct (d : db) (s : scored) :
  In s (mf_rows (compute_match_scores d)) ->
  s_match_points s = if correct_pick s then POINTS match_winner else 0.
Proof.
  intros Hs. destruct (scored_row_origin d s Hs) as (_ & _ & _ & _ & ->).
  unfold correct_pick. destruct (s_winner s); reflexivity.
Qed.

Lemma zsum_counts {A : Type} (pts : A -> Z) (c p : A -> bool) (v : Z) (l : list A) :
  (forall x, In x l -> pts x = if c x then v else 0) ->
  zsum (map pts (filter p l))
  = v * Z.of_nat (List.length (filter (fun x => p x && c x) l)).
Proof.
  induction l as [|a l IH]; intros H; [simpl; lia|].
  assert (IH' := IH (fun x Hx => H x (or_intror Hx))).
  pose proof (H a (or_introl eq_refl)) as Ha.
  simpl. destruct (p a); simpl; [|exact IH'].
  rewrite IH', Ha. destruct (c a); simpl List.length; lia.
Qed.

(** X4. The [match_points] of a leaderboard row are the [match_winner]
    value, 5, times the number of the user's predictions that name the
    winner of a fixture with a result. *)
Theorem match_points_count_correct_picks (json_loads : string -> option pyval)
  (d : db) (lb : list standing) :
  overall_leaderboard json_loads d = Some lb ->
  forall o, In o lb ->
    match_points o
    = 5 * Z.of_nat (List.length
            (filter (fun s => String.eqb (s_email s) (email o) && correct_pick s)
                    (mf_rows (compute_match_scores d)))).
Proof.
  intros El o Ho.
  destruct (standing_origin json_loads d lb o El Ho)
    as (ms & g & _ & Hg & -> & -> & _).
  apply merged_row_spec in Hg as (_ & -> & _).
  unfold user_match_points. apply zsum_counts.
  intros s Hs. now rewrite (scored_points_correct d s Hs).
Qed.

Lemma match_points_count_correct_picks_witness :
  exists lb, overall_leaderboard sample_json_loads sample_db = Some lb /\
    forall o, In o lb ->
      match_points o
      = 5 * Z.of_nat (List.length
              (filter (fun s => String.eqb (s_email s) (email o) && correct_pick s)
                      (mf_rows (compute_match_scores sample_db)))).
Proof.
  eexists. split; [reflexivity|].
  exact (match_points_count_correct_picks sample_json_loads sample_db _ eq_refl).
Defined.

(* ------------------------------------------------------------------ *)
(** * Bounds on the meta scores *)

Lemma intersection_size (common a b : list atom) :
  is_intersection common a b ->
  (List.length common <= List.length b)%nat.
Proof.
  intros [Hn Hin]. apply NoDup_incl_length; [exact Hn|].
  intros t Ht. now apply Hin in Ht.
Qed.

(** X5. Once the actual sets are loaded, every meta-score row has playoff
    points between 0 and 10 per actual playoff team, finalist points
    between 0 and 15 per actual finalist, and champion points 0 or 20;
    with the four playoff teams and two finalists the administrator can
    store, no meta total exceeds 90. *)
Theorem meta_points_bounded (json_loads : string -> option pyval) (d : db)
  (ap af : list atom) (scores : list meta_score) :
  load_actual_sets json_loads (meta_actuals d) = Some (ap, af) ->
  compute_meta_scores json_loads d = Some scores ->
  forall s, In s scores ->
    0 <= ms_playoff_points s <= 10 * Z.of_nat (List.length ap) /\
    0 <= ms_finalist_points s <= 15 * Z.of_nat (List.length af) /\
    (ms_champion_points s = 0 \/ ms_champion_points s = 20) /\
    ((List.length ap <= 4)%nat -> (List.length af <= 2)%nat ->
     0 <= ms_meta_total s <= 90).
Proof.
  intros Hl Hc s Hs.
  rewrite (compute_meta_scores_rows json_loads d ap af Hl) in Hc.
  injection Hc as <-. apply in_map_iff in Hs as (r & <- & _).
  destruct (calc_row_scored json_loads ap af
              (get_actual_meta json_loads (meta_actuals d) "champion") r) as [_ H].
  unfold scored_as in H. destruct (predicted json_loads r) as [[pp fp] cp].
  destruct H as ((c1 & I1 & E1) & (c2 & I2 & E2) & Hyes & Hno & Et).
  apply intersection_size in I1, I2.
  assert (Hch : ms_champion_points
                  (calc_row json_loads ap af
                     (get_actual_meta json_loads (meta_actuals d) "champion") r) = 0 \/
                ms_champion_points
                  (calc_row json_loads ap af
                     (get_actual_meta json_loads (meta_actuals d) "champion") r) = 20).
  { destruct (champion_hit cp (get_actual_meta json_loads (meta_actuals d) "champion"))
      eqn:Eh.
    - right. apply Hyes. now apply champion_hit_spec.
    - left. apply Hno. intros Hm. apply champion_hit_spec in Hm. congruence. }
  rewrite Et, E1, E2. change (POINTS playoff_team) with 10.
  change (POINTS finalist) with 15.
  repeat split; try lia; auto.
Qed.

Lemma meta_points_bounded_witness :
  exists ap af scores,
    load_actual_sets sample_json_loads (meta_actuals sample_db) = Some (ap, af) /\
    compute_meta_scores sample_json_loads sample_db = Some scores /\
    forall s, In s scores -> 0 <= ms_meta_total s <= 90.
Proof.
  do 3 eexists. split; [reflexivity|]. split; [reflexivity|].
  intros s Hs.
  apply (meta_points_bounded sample_json_loads sample_db _ _ _ eq_refl eq_refl s Hs);
    simpl; lia.
Defined.

(* ------------------------------------------------------------------ *)
(** * The rank column *)

Lemma leaderboard_ranks (json_loads : string -> option pyval) (d : db)
  (lb : list standing) :
  overall_leaderboard json_loads d = Some lb ->
  StronglySorted ranks_above lb /\
  forall r, In r lb ->
    rank r = 1 + Z.of_nat (List.length
               (filter (fun r' => total_points r <? total_points r') lb)).
Proof.
  unfold overall_leaderboard.
  destruct (compute_meta_scores json_loads d) as [ms|]; simpl; [|discriminate].
  intros [= <-].
  destruct (leaderboard_frame_shape (compute_match_scores d) ms (users d))
    as (rows & -> & Hs).
  split; [now apply ranked_sorted|].
  intros r Hr. apply in_map_iff in Hr as (r0 & <- & Hr0).
  rewrite filter_map_swap, length_map. simpl.
  rewrite (ranked_rank rows r0 Hr0). unfold rank_min.
  now rewrite filter_map_swap, length_map.
Qed.

Lemma filter_length_le {A : Type} (p q : A -> bool) (l : list A) :
  (forall x, p x = true -> q x = true) ->
  (List.length (filter p l) <= List.length (filter q l))%nat.
Proof.
  intros H. induction l as [|a l IH]; simpl; [lia|].
  destruct (p a) eqn:Ep.
  - rewrite (H a Ep). simpl. lia.
  - destruct (q a); simpl; lia.
Qed.

Lemma StronglySorted_impl_In {A : Type} (R S : A -> A -> Prop) (l : list A) :
  (forall x y, In x l -> In y l -> R x y -> S x y) ->
  StronglySorted R l -> StronglySorted S l.
Proof.
  intros H Hs. induction Hs as [|a l Hs IH Ha]; constructor.
  - apply IH. intros x y Hx Hy. apply H; now right.
  - rewrite Forall_forall in *. intros y Hy.
    apply H; [now left|now right|now apply Ha].
Qed.

(** X6. In a returned leaderboard the first row has rank 1, ranks never
    decrease down the table, and the rank of the row at position [i]
    (from 0) is at least 1 and at most [i + 1]. *)
Theorem ranks_ascend_from_one (json_loads : string -> option pyval) (d : db)
  (lb : list standing) :
  overall_leaderboard json_loads d = Some lb ->
  (forall r rest, lb = r :: rest -> rank r = 1) /\
  StronglySorted (fun x y => rank x <= rank y) lb /\
  (forall i r, nth_error lb i = Some r -> 1 <= rank r <= Z.of_nat i + 1).
Proof.
  intros El. destruct (leaderboard_ranks json_loads d lb El) as [Hs Hrank].
  assert (Hpos : forall i r, nth_error lb i = Some r ->
                   1 <= rank r <= Z.of_nat i + 1).
  { intros i r Hi. assert (Hr : In r lb) by (eapply nth_error_In; eauto).
    rewrite (Hrank r Hr). split; [lia|].
    pose proof (sorted_split (total_points r) lb Hs) as Hsplit.
    set (above := filter (fun x => total_points r <? total_points x) lb) in *.
    destruct (Nat.lt_ge_cases i (List.length above)) as [Hlt|Hge]; [|lia].
    exfalso. rewrite Hsplit, nth_error_app1 in Hi by exact Hlt.
    apply nth_error_In, filter_In in Hi as [_ Hi]. apply Z.ltb_lt in Hi. lia. }
  split; [|split; [|exact Hpos]].
  - intros r rest ->. specialize (Hpos 0%nat r eq_refl). lia.
  - eapply StronglySorted_impl_In; [|exact Hs].
    intros x y Hx Hy Hxy. rewrite (Hrank x Hx), (Hrank y Hy).
    apply Zplus_le_compat_l, inj_le. apply filter_length_le.
    intros z Hz. apply Z.ltb_lt in Hz. apply Z.ltb_lt.
    unfold ranks_above in Hxy. lia.
Qed.

Lemma ranks_ascend_from_one_witness :
  exists lb, overall_leaderboard sample_json_loads sample_db = Some lb /\
    StronglySorted (fun x y => rank x <= rank y) lb.
Proof.
  eexists. split; [reflexivity|].
  exact (proj1 (proj2 (ranks_ascend_from_one sample_json_loads sample_db _ eq_refl))).
Defined.

(* ------------------------------------------------------------------ *)
(** * One row per user, with the user's name *)

(** With unique keys on both sides, an outer join has one row per key,
    in key order. *)
Lemma merge_outer_map {L R K O T : Type} `{CmpLaws K} (kl : L -> K) (kr : R -> K)
  (both : L -> R -> O) (left_only : L -> O) (right_only : R -> O)
  (ls : list L) (rs : list R) (f : O -> T) (h : K -> T) :
  NoDup (map kl ls) -> NoDup (map kr rs) ->
  (forall l r, In l ls -> In r rs -> kl l = kr r -> f (both l r) = h (kl l)) ->
  (forall l, In l ls -> (forall r, In r rs -> kr r <> kl l) ->
             f (left_only l) = h (kl l)) ->
  (forall r, In r rs -> (forall l, In l ls -> kl l <> kr r) ->
             f (right_only r) = h (kr r)) ->
  map f (merge_outer kl kr both left_only right_only ls rs)
  = map h (sort_by cmp_leb (dedup cmp_eqb (map kl ls ++ map kr rs))).
Proof.
  intros Nl Nr Hb Hl Hr. unfold merge_outer.
  assert (Hk : forall k, In k (sort_by cmp_leb (dedup cmp_eqb (map kl ls ++ map kr rs)))
                 -> In k (map kl ls) \/ In k (map kr rs)).
  { intros k. rewrite sort_by_In, (dedup_In _ cmp_eqb_eq). apply in_app_or. }
  revert Hk.
  generalize (sort_by cmp_leb (dedup cmp_eqb (map kl ls ++ map kr rs))) as keys.
  induction keys as [|k keys IH]; intros Hk; [reflexivity|].
  rewrite map_cons. change (h k :: map h keys) with ([h k] ++ map h keys).
  rewrite <- IH by (intros k' Hk'; apply Hk; now right).
  cbn [flat_map]. rewrite map_app. f_equal.
  rewrite (filter_unique_key kl (fun l => cmp_eqb k (kl l)) ls Nl)
    by (intros l l' H1 H2; apply cmp_eqb_eq in H1, H2; congruence).
  rewrite (filter_unique_key kr (fun r => cmp_eqb k (kr r)) rs Nr)
    by (intros r r' H1 H2; apply cmp_eqb_eq in H1, H2; congruence).
  destruct (find (fun l => cmp_eqb k (kl l)) ls) as [l|] eqn:El;
    destruct (find (fun r => cmp_eqb k (kr r)) rs) as [r|] eqn:Er; simpl.
  - apply find_some in El as [Il El], Er as [Ir Er].
    apply cmp_eqb_eq in El, Er. subst k. f_equal. now apply Hb.
  - apply find_some in El as [Il El]. apply cmp_eqb_eq in El. subst k. f_equal.
    apply Hl; [exact Il|]. intros r Ir E.
    pose proof (find_none _ _ Er r Ir) as Hn. simpl in Hn.
    rewrite (proj2 (cmp_eqb_eq (kl l) (kr r))) in Hn by congruence. discriminate.
  - apply find_some in Er as [Ir Er]. apply cmp_eqb_eq in Er. subst k. f_equal.
    apply Hr; [exact Ir|]. intros l Il E.
    pose proof (find_none _ _ El l Il) as Hn. simpl in Hn.
    rewrite (proj2 (cmp_eqb_eq (kr r) (kl l))) in Hn by congruence. discriminate.
  - exfalso. destruct (Hk k (or_introl eq_refl)) as [Hin|Hin];
      apply in_map_iff in Hin as (x & Ex & Hx).
    + pose proof (find_none _ _ El x Hx) as Hn. simpl in Hn.
      rewrite (proj2 (cmp_eqb_eq k (kl x))) in Hn by congruence. discriminate.
    + pose proof (find_none _ _ Er x Hx) as Hn. simpl in Hn.
      rewrite (proj2 (cmp_eqb_eq k (kr x))) in Hn by congruence. discriminate.
Qed.

Lemma match_agg_keys (rows : list scored) :
  map fst (map match_sum (groupby (fun r => Some (s_email r)) rows))
  = group_keys (fun r => Some (s_email r)) rows.
Proof.
  rewrite map_map. unfold match_sum. simpl. apply groupby_keys.
Qed.

(** The emails of the leaderboard, up to the order of the rows, are
    those of the outer join. *)
Lemma leaderboard_emails (json_loads : string -> option pyval) (d : db)
  (lb : list standing) :
  NoDup (map u_email (users d)) ->
  overall_leaderboard json_loads d = Some lb ->
  exists ms, compute_meta_scores json_loads d = Some ms /\
    exists frame : list lb_row,
      lb = map select_cols frame /\
      Permutation (map (fun r => (lb_email r, lb_match_points r)) frame)
                  (map (fun g => (g_email g, g_match_points g))
                       (merged_rows (mf_rows (compute_match_scores d)) ms)).
Proof.
  intros Nu. unfold overall_leaderboard.
  destruct (compute_meta_scores json_loads d) as [ms|]; simpl; [|discriminate].
  intros [= <-]. exists ms. split; [reflexivity|].
  eexists. split; [reflexivity|].
  unfold leaderboard_frame. rewrite match_agg_always.
  fold (merged_rows (mf_rows (compute_match_scores d)) ms).
  rewrite map_map. cbn [lb_email lb_match_points set_rank].
  rewrite <- (map_map (fun r => r) (fun r => (lb_email r, lb_match_points r))), map_id.
  etransitivity; [apply Permutation_map, sort_by_perm|].
  rewrite (merge_left_unique u_email); [|exact Nu|].
  - rewrite map_map. apply Permutation_refl'. apply map_ext. intros g.
    destruct (find _ (users d)); reflexivity.
  - intros g u u' H1 H2. apply String.eqb_eq in H1, H2. congruence.
Qed.

Lemma merged_emails (rows : list scored) (ms : list meta_score) :
  NoDup (map ms_email ms) ->
  NoDup (map g_email (merged_rows rows ms)).
Proof.
  intros Nm. unfold merged_rows.
  rewrite (merge_outer_map fst ms_email join_both match_only meta_only _ ms
             g_email (fun k => k)); auto.
  - rewrite map_id. eapply Permutation_NoDup; [symmetry; apply sort_by_perm|].
    apply dedup_NoDup, cmp_eqb_eq.
  - rewrite match_agg_keys. apply group_keys_NoDup.
Qed.

(** X7. With unique user emails and unique meta-prediction emails (their
    primary keys), a returned leaderboard has at most one row per email,
    and its emails are exactly those with a match prediction or a meta
    prediction: every such email appears exactly once. *)
Theorem one_row_per_user (json_loads : string -> option pyval) (d : db)
  (lb : list standing) :
  NoDup (map u_email (users d)) ->
  NoDup (map m_email (predictions_meta d)) ->
  overall_leaderboard json_loads d = Some lb ->
  NoDup (map email lb) /\
  (forall e, In e (map email lb) <->
     (exists p, In p (predictions_match d) /\ p_email p = e) \/
     (exists m, In m (predictions_meta d) /\ m_email m = e)).
Proof.
  intros Nu Nm El. split.
  2:{ intros e. rewrite <- (leaderboard_email_In json_loads d lb e El).
      rewrite in_map_iff. split; intros (o & H1 & H2); exists o; auto. }
  destruct (leaderboard_emails json_loads d lb Nu El) as (ms & Ems & frame & -> & P).
  rewrite map_map. cbn [email select_cols].
  apply (Permutation_map fst) in P. rewrite !map_map in P. cbn [fst] in P.
  eapply Permutation_NoDup; [symmetry; exact P|].
  apply merged_emails. now rewrite (meta_scores_emails json_loads d ms Ems).
Qed.

Lemma one_row_per_user_witness :
  NoDup (map u_email (users sample_db)) /\
  NoDup (map m_email (predictions_meta sample_db)) /\
  exists lb, overall_leaderboard sample_json_loads sample_db = Some lb /\
             NoDup (map email lb).
Proof.
  assert (Nu : NoDup (map u_email (users sample_db))) by nodup_by_eval.
  assert (Nm : NoDup (map m_email (predictions_meta sample_db))) by nodup_by_eval.
  split; [exact Nu|]. split; [exact Nm|]. eexists. split; [reflexivity|].
  exact (proj1 (one_row_per_user sample_json_loads sample_db _ Nu Nm eq_refl)).
Defined.

(** X8. The [name] of a leaderboard row is the name of a user with the
    row's email; it is null exactly when no user has that email or the
    user's name is null. *)
Theorem leaderboard_names (json_loads : string -> option pyval) (d : db)
  (lb : list standing) :
  overall_leaderboard json_loads d = Some lb ->
  forall o, In o lb ->
    (exists u, In u (users d) /\ u_email u = email o /\ name o = u_name u) \/
    ((forall u, In u (users d) -> u_email u <> email o) /\ name o = None).
Proof.
  unfold overall_leaderboard.
  destruct (compute_meta_scores json_loads d) as [ms|]; simpl; [|discriminate].
  intros [= <-] o Ho. apply in_map_iff in Ho as (r & <- & Hr).
  unfold leaderboard_frame in Hr. apply in_map_iff in Hr as (r0 & <- & Hr).
  apply sort_by_In, merge_left_In in Hr as (g & _ & H).
  destruct H as [(u & Hu & Hon & ->)|(Hno & ->)]; simpl.
  - left. apply String.eqb_eq in Hon. exists u. auto.
  - right. split; [|reflexivity]. intros u Hu E.
    specialize (Hno u Hu). apply String.eqb_neq in Hno. congruence.
Qed.

Lemma leaderboard_names_witness :
  exists lb, overall_leaderboard sample_json_loads sample_db = Some lb /\
    forall o, In o lb ->
      (exists u, In u (users sample_db) /\ u_email u = email o /\ name o = u_name u) \/
      ((forall u, In u (users sample_db) -> u_email u <> email o) /\ name o = None).
Proof.
  eexists. split; [reflexivity|].
  exact (leaderboard_names sample_json_loads sample_db _ eq_refl).
Defined.

(* ------------------------------------------------------------------ *)
(** * The shape of the weekly result *)

(** The entry of a week with a scored row. *)
Lemma winners_of_week (d : db) (w : Z) :
  has_scored_row (mf_rows (compute_match_scores d)) w ->
  exists totals winners ws,
    weekly_winners d = Some (totals, winners) /\
    winners_get winners w = Some ws /\
    forall x, In x ws <-> is_week_winner totals w x.
Proof.
  intros Hw. set (rows := mf_rows (compute_match_scores d)) in *.
  assert (Hn : mf_named (compute_match_scores d) = true).
  { destruct (mf_named (compute_match_scores d)) eqn:E; [reflexivity|].
    destruct Hw as (r & Hr & _ & Hname).
    exfalso. apply Hname. now apply (unnamed_rows d). }
  destruct (weekly_from_named _ Hn) as (totals & winners & E).
  destruct (weekly_from_inv _ _ _ E) as [Et Ew].
  exists totals, winners,
    (snd (week_winners
            (w, filter (in_group (fun r => Some (w_week r)) w) (weekly_table rows)))).
  split; [exact E|]. split.
  - rewrite Ew. fold rows. rewrite winners_get_groupby.
    destruct (in_dec Z.eq_dec w _) as [_|Hout]; [reflexivity|].
    exfalso. apply Hout. now apply week_has_rows.
  - intros x. rewrite week_winners_In. apply is_week_winner_perm.
    intros y. rewrite Et. symmetry. apply sort_by_In.
Qed.

Lemma strictly_ascending (l : list Z) :
  StronglySorted (holds cmp_leb) l -> NoDup l -> StronglySorted Z.lt l.
Proof.
  induction 1 as [|a l Hs IH Ha]; intros Hn; constructor.
  - apply IH. now inversion Hn.
  - inversion Hn as [|? ? Hnotin _]; subst.
    rewrite Forall_forall in *. intros y Hy. specialize (Ha y Hy).
    unfold holds, cmp_leb, cmp, Cmp_Z in Ha.
    change (not_gt (a ?= y)) with (a <=? y) in Ha. apply Z.leb_le in Ha.
    assert (a <> y) by (intros ->; contradiction). lia.
Qed.

Lemma winners_keys (table : list weekly_row) :
  map fst (map week_winners (groupby (fun r => Some (w_week r)) table))
  = group_keys (fun r => Some (w_week r)) table.
Proof.
  rewrite map_map, <- groupby_keys. apply map_ext. intros [k g]. reflexivity.
Qed.

Lemma winners_entry (table : list weekly_row) (w : Z) (ws : list weekly_row) :
  In (w, ws) (map week_winners (groupby (fun r => Some (w_week r)) table)) ->
  (exists x, In x table /\ w_week x = w) /\
  forall x, In x ws <-> is_week_winner table w x.
Proof.
  intros Hin. apply in_map_iff in Hin as ([k g] & Ek & Hg).
  apply groupby_In in Hg as [(x & Hx & Hk) ->].
  assert (Hkw : k = w) by (simpl in Ek; congruence).
  assert (Hxw : w_week x = w) by congruence.
  clear Hk. subst k.
  split; [eauto|]. intros y. rewrite <- week_winners_In.
  rewrite Ek. reflexivity.
Qed.

(** X9. In a returned weekly result the weeks of the mapping are in
    strictly ascending order; no week is mapped to an empty set of
    winners; the winners of a week are rows of that week from the flat
    table, and they all have the same points. *)
Theorem weekly_mapping_shape (d : db)
  (totals : list weekly_row) (winners : list (Z * list weekly_row)) :
  weekly_winners d = Some (totals, winners) ->
  StronglySorted Z.lt (map fst winners) /\
  forall w ws, In (w, ws) winners ->
    ws <> [] /\
    (forall x, In x ws -> In x totals /\ w_week x = w) /\
    (forall x y, In x ws -> In y ws -> w_match_points x = w_match_points y).
Proof.
  intros E. destruct (weekly_from_inv _ _ _ E) as [Et Ew].
  set (table := weekly_table (mf_rows (compute_match_scores d))) in *.
  split.
  - rewrite Ew, winners_keys. apply strictly_ascending.
    + apply group_keys_sorted.
    + apply group_keys_NoDup.
  - intros w ws Hin. rewrite Ew in Hin.
    apply winners_entry in Hin as [(x0 & Hx0 & Hw0) Hws].
    split; [|split].
    + set (sub := filter (in_group (fun r => Some (w_week r)) w) table).
      assert (Hsub : In x0 sub) by (apply week_group_In; auto).
      destruct (max_of (map w_match_points sub)) as [m|] eqn:Em.
      * apply max_of_spec in Em as [Hm Hle].
        apply in_map_iff in Hm as (y & Ey & Hy).
        apply week_group_In in Hy as [Hy Hyw].
        assert (Hwin : In y ws).
        { apply Hws. repeat split; auto. intros z Hz Hzw. rewrite Ey.
          apply Hle, in_map, week_group_In. auto. }
        intros ->. destruct Hwin.
      * destruct sub; [destruct Hsub|discriminate].
    + intros x Hx. apply Hws in Hx as (Hx & Hxw & _). split; [|exact Hxw].
      rewrite Et. now apply sort_by_In.
    + intros x y Hx Hy. apply Hws in Hx as (Hx & Hxw & Hxm).
      apply Hws in Hy as (Hy & Hyw & Hym).
      specialize (Hxm y Hy Hyw). specialize (Hym x Hx Hxw). lia.
Qed.

Lemma weekly_mapping_shape_witness :
  exists totals winners,
    weekly_winners sample_db = Some (totals, winners) /\
    StronglySorted Z.lt (map fst winners) /\
    forall w ws, In (w, ws) winners -> ws <> [].
Proof.
  do 2 eexists. split; [reflexivity|].
  destruct (weekly_mapping_shape sample_db _ _ eq_refl) as [Hs Hw].
  split; [exact Hs|]. intros w ws Hin. exact (proj1 (Hw w ws Hin)).
Defined.

Lemma zsum_zero (l : list Z) : (forall x, In x l -> x = 0) -> zsum l = 0.
Proof.
  induction l as [|a l IH]; simpl; intros H; [reflexivity|].
  rewrite (H a) by now left. rewrite IH; [reflexivity|].
  intros x Hx. apply H. now right.
Qed.

(** X10. A week none of whose rows has a result yet still has an entry
    (when it has a scored row): every user with a row in that week is a
    winner of it, with 0 points. *)
Theorem week_without_results_all_win (d : db) (w : Z) :
  has_scored_row (mf_rows (compute_match_scores d)) w ->
  (forall r, In r (mf_rows (compute_match_scores d)) ->
     s_week r = Some w -> s_winner r = None) ->
  exists totals winners ws,
    weekly_winners d = Some (totals, winners) /\
    winners_get winners w = Some ws /\
    (forall x, In x ws <-> In x totals /\ w_week x = w) /\
    (forall x, In x ws -> w_match_points x = 0).
Proof.
  intros Hw Hnone.
  destruct (winners_of_week d w Hw) as (totals & winners & ws & E & Eg & Hws).
  destruct (weekly_from_inv _ _ _ E) as [Et _].
  assert (Hzero : forall x, In x totals -> w_week x = w -> w_match_points x = 0).
  { intros x Hx Hxw. rewrite Et in Hx.
    apply sort_by_In, weekly_table_In in Hx as [_ ->].
    apply zsum_zero. intros p Hp. apply in_map_iff in Hp as (r & <- & Hr).
    apply filter_In in Hr as [Hr Hc]. apply counts_towardsb_spec in Hc.
    destruct Hc as (_ & _ & Hrw).
    rewrite (scored_points_correct d r Hr). unfold correct_pick.
    rewrite (Hnone r Hr) by congruence. reflexivity. }
  exists totals, winners, ws. split; [exact E|]. split; [exact Eg|]. split.
  - intros x. rewrite Hws. unfold is_week_winner. split.
    + intros (Hx & Hxw & _). auto.
    + intros [Hx Hxw]. repeat split; auto. intros y Hy Hyw.
      rewrite (Hzero x Hx Hxw), (Hzero y Hy Hyw). lia.
  - intros x Hx. apply Hws in Hx as (Hx & Hxw & _). now apply Hzero.
Qed.

Lemma week_without_results_all_win_witness :
  has_scored_row (mf_rows (compute_match_scores sample_db_no_results)) 1 /\
  exists totals winners ws,
    weekly_winners sample_db_no_results = Some (totals, winners) /\
    winners_get winners 1 = Some ws /\
    (forall x, In x ws <-> In x totals /\ w_week x = 1) /\
    (forall x, In x ws -> w_match_points x = 0).
Proof.
  assert (H : has_scored_row (mf_rows (compute_match_scores sample_db_no_results)) 1).
  { eexists. split; [left; reflexivity|]. split; [reflexivity|discriminate]. }
  split; [exact H|].
  apply (week_without_results_all_win sample_db_no_results 1 H).
  intros r Hr _. simpl in Hr.
  repeat (destruct Hr as [<-|Hr]; [reflexivity|]). destruct Hr.
Defined.

(* ------------------------------------------------------------------ *)
(** * No points are lost or counted twice *)

Lemma zsum_add_map {A : Type} (f g : A -> Z) (l : list A) :
  zsum (map (fun k => f k + g k) l) = zsum (map f l) + zsum (map g l).
Proof.
  induction l as [|a l IH]; simpl; [reflexivity|]. rewrite IH. lia.
Qed.

Lemma zsum_indicator {A : Type} (p : A -> bool) (c : Z) (l : list A) :
  zsum (map (fun k => if p k then c else 0) l)
  = c * Z.of_nat (List.length (filter p l)).
Proof.
  induction l as [|a l IH]; simpl; [lia|].
  rewrite IH. destruct (p a); simpl List.length; lia.
Qed.

(** When every row falls under exactly one key, the sums by key add up
    to the sum over all rows. *)
Lemma sum_over_keys {R K : Type} (keyb : K -> R -> bool) (v : R -> Z)
  (keys : list K) (rows : list R) :
  (forall r, In r rows -> List.length (filter (fun k => keyb k r) keys) = 1%nat) ->
  zsum (map (fun k => zsum (map v (filter (keyb k) rows))) keys)
  = zsum (map v rows).
Proof.
  induction rows as [|r rows IH]; intros H.
  - simpl. apply zsum_zero. intros x Hx. apply in_map_iff in Hx as (k & <- & _).
    reflexivity.
  - rewrite (map_ext _ (fun k => (if keyb k r then v r else 0)
                                 + zsum (map v (filter (keyb k) rows)))).
    + rewrite zsum_add_map, zsum_indicator.
      rewrite IH by (intros x Hx; apply H; now right).
      rewrite (H r) by now left. simpl. lia.
    + intros k. simpl. destruct (keyb k r); simpl; lia.
Qed.

Lemma count_unique {K : Type} (eqb : K -> K -> bool) (keys : list K) (k0 : K) :
  (forall k, eqb k k0 = true <-> k = k0) ->
  NoDup keys -> In k0 keys ->
  List.length (filter (fun k => eqb k k0) keys) = 1%nat.
Proof.
  intros He Hn Hin. induction keys as [|k keys IH]; [destruct Hin|].
  inversion Hn as [|? ? Hnotin Hn']; subst. simpl.
  destruct (eqb k k0) eqn:E.
  - apply He in E. subst k. simpl. f_equal.
    rewrite (proj2 (filter_nil_iff _ keys)); [reflexivity|].
    intros x Hx. destruct (eqb x k0) eqn:Ex; [|reflexivity].
    apply He in Ex. subst x. contradiction.
  - destruct Hin as [->|Hin]; [|now apply IH].
    rewrite (proj2 (He k0) eq_refl) in E. discriminate.
Qed.

(** X11. The points of the flat weekly table add up to the match points
    of the rows that have both a name and a week: grouping neither loses
    nor repeats a point. *)
Theorem weekly_points_conserved (d : db)
  (totals : list weekly_row) (winners : list (Z * list weekly_row)) :
  weekly_winners d = Some (totals, winners) ->
  zsum (map w_match_points totals)
  = zsum (map s_match_points
            (filter is_complete (mf_rows (compute_match_scores d)))).
Proof.
  intros E. destruct (weekly_from_inv _ _ _ E) as [-> _].
  set (rows := mf_rows (compute_match_scores d)).
  rewrite (zsum_perm _ _ (Permutation_map w_match_points (sort_by_perm _ _))).
  unfold weekly_table, groupby. rewrite !map_map.
  rewrite (map_ext _ (fun k => zsum (map s_match_points
                                       (filter (in_group week_key k)
                                               (filter is_complete rows))))).
  - apply sum_over_keys. intros r Hr. apply filter_In in Hr as [Hr Hc].
    unfold is_complete in Hc. destruct (week_key r) as [k0|] eqn:Ek; [|discriminate].
    rewrite (filter_ext _ (fun k => cmp_eqb k k0)).
    + apply count_unique.
      * intros k. apply cmp_eqb_eq.
      * apply group_keys_NoDup.
      * apply group_keys_In. eauto.
    + intros k. unfold in_group. now rewrite Ek.
  - intros [e [n w]]. simpl. do 2 f_equal. symmetry. apply filter_filter_weaker.
    intros r. unfold in_group, is_complete.
    destruct (week_key r); [reflexivity|discriminate].
Qed.

Lemma weekly_points_conserved_witness :
  exists totals winners,
    weekly_winners sample_db = Some (totals, winners) /\
    zsum (map w_match_points totals)
    = zsum (map s_match_points
              (filter is_complete (mf_rows (compute_match_scores sample_db)))).
Proof.
  do 2 eexists. split; [reflexivity|].
  exact (weekly_points_conserved sample_db _ _ eq_refl).
Defined.

Lemma merged_match_points (rows : list scored) (ms : list meta_score) :
  NoDup (map ms_email ms) ->
  zsum (map g_match_points (merged_rows rows ms)) = zsum (map s_match_points rows).
Proof.
  intros Nm. unfold merged_rows.
  rewrite (merge_outer_map fst ms_email join_both match_only meta_only _ ms
             g_match_points (user_match_points rows)); auto.
  - unfold user_match_points.
    apply (sum_over_keys (fun k s => String.eqb (s_email s) k)).
    intros s Hs. rewrite (filter_ext _ (fun k => cmp_eqb k (s_email s)))
      by (intros k; symmetry; apply email_test_eq).
    apply count_unique.
    + intros k. apply cmp_eqb_eq.
    + eapply Permutation_NoDup; [symmetry; apply sort_by_perm|].
      apply dedup_NoDup, cmp_eqb_eq.
    + apply sort_by_In, (dedup_In _ cmp_eqb_eq), in_or_app. left.
      rewrite match_agg_keys. apply group_keys_In. eauto.
  - rewrite match_agg_keys. apply group_keys_NoDup.
  - intros [e v] m Hl _ _. apply match_agg_In in Hl as [_ ->]. reflexivity.
  - intros [e v] Hl _. apply match_agg_In in Hl as [_ ->]. reflexivity.
  - intros m Hm Hno. simpl. symmetry. apply user_match_points_none.
    intros s Hs E.
    apply (Hno (s_email s, user_match_points rows (s_email s))); [|exact E].
    apply match_agg_In. split; [eauto|reflexivity].
Qed.

(** X12. With unique user emails and unique meta-prediction emails, the
    [match_points] column of a returned leaderboard adds up to the match
    points of all rows of the match-scoring frame. *)
Theorem leaderboard_points_conserved (json_loads : string -> option pyval) (d : db)
  (lb : list standing) :
  NoDup (map u_email (users d)) ->
  NoDup (map m_email (predictions_meta d)) ->
  overall_leaderboard json_loads d = Some lb ->
  zsum (map match_points lb)
  = zsum (map s_match_points (mf_rows (compute_match_scores d))).
Proof.
  intros Nu Nm El.
  destruct (leaderboard_emails json_loads d lb Nu El) as (ms & Ems & frame & -> & P).
  rewrite map_map. cbn [match_points select_cols].
  apply (Permutation_map snd) in P. rewrite !map_map in P. cbn [snd] in P.
  rewrite (zsum_perm _ _ P). apply merged_match_points.
  now rewrite (meta_scores_emails json_loads d ms Ems).
Qed.

Lemma leaderboard_points_conserved_witness :
  NoDup (map u_email (users sample_db)) /\
  NoDup (map m_email (predictions_meta sample_db)) /\
  exists lb, overall_leaderboard sample_json_loads sample_db = Some lb /\
    zsum (map match_points lb)
    = zsum (map s_match_points (mf_rows (compute_match_scores sample_db))).
Proof.
  assert (Nu : NoDup (map u_email (users sample_db))) by nodup_by_eval.
  assert (Nm : NoDup (map m_email (predictions_meta sample_db))) by nodup_by_eval.
  split; [exact Nu|]. split; [exact Nm|]. eexists. split; [reflexivity|].
  exact (leaderboard_points_conserved sample_json_loads sample_db _ Nu Nm eq_refl).
Defined.

(* ------------------------------------------------------------------ *)
(** * Upserts and lookups *)

Section UpsertFacts.

Context {R : Type} (same : R -> bool) (update : R -> R) (new : R).

Hypothesis update_same : forall r, same r = true -> same (update r) = true.
Hypothesis new_same : same new = true.

Lemma find_upsert_same (tbl : list R) :
  find same (upsert same update new tbl)
  = Some (match find same tbl with Some r => update r | None => new end).
Proof.
  induction tbl as [|r t IH]; simpl.
  - now rewrite new_same.
  - destruct (same r) eqn:E; simpl.
    + now rewrite (update_same r E).
    + now rewrite E.
Qed.

Lemma find_upsert_other (q : R -> bool) (tbl : list R) :
  (forall r, same r = true -> q r = false) ->
  find q (upsert same update new tbl) = find q tbl.
Proof.
  intros Hq. induction tbl as [|r t IH]; simpl.
  - now rewrite (Hq new new_same).
  - destruct (same r) eqn:E; simpl.
    + now rewrite (Hq r E), (Hq (update r) (update_same r E)).
    + now rewrite IH.
Qed.

Lemma upsert_In_other (tbl : list R) (r : R) :
  same r = false -> (In r (upsert same update new tbl) <-> In r tbl).
Proof.
  intros Hr. induction tbl as [|a t IH]; simpl.
  - split; [intros [<-|[]]; congruence|intros []].
  - destruct (same a) eqn:E; simpl.
    + split; intros [<-|H]; auto.
      * rewrite (update_same a E) in Hr. discriminate.
      * congruence.
    + rewrite IH. reflexivity.
Qed.

Lemma upsert_In_new (tbl : list R) :
  (forall r, same r = true -> update r = new) -> In new (upsert same update new tbl).
Proof.
  intros H. induction tbl as [|a t IH]; simpl; [now left|].
  destruct (same a) eqn:E; [left; now apply H|right; exact IH].
Qed.

Lemma upsert_keys {K : Type} (key : R -> K) (tbl : list R) :
  (forall r, same r = true <-> key r = key new) ->
  (forall r, key (update r) = key r) ->
  NoDup (map key tbl) -> NoDup (map key (upsert same update new tbl)).
Proof.
  intros Hs Hu. induction tbl as [|a t IH]; simpl; intros Hn.
  - repeat constructor. intros [].
  - inversion Hn as [|? ? Hnotin Hn']; subst.
    destruct (same a) eqn:E; simpl.
    + now rewrite Hu.
    + constructor; [|now apply IH].
      intros Hin. apply in_map_iff in Hin as (r & Er & Hr).
      destruct (same r) eqn:Esr.
      * apply Hs in Esr. rewrite Er in Esr. apply Hs in Esr. congruence.
      * apply (proj1 (upsert_In_other t r Esr)) in Hr.
        apply Hnotin. rewrite <- Er. exact (in_map key _ _ Hr).
Qed.

End UpsertFacts.

Lemma dedup_length_le {A : Type} (eqb : A -> A -> bool) (l : list A) :
  (List.length (dedup eqb l) <= List.length l)%nat.
Proof.
  induction l as [|a l IH]; simpl; [lia|].
  pose proof (List.filter_length_le (fun y => negb (eqb a y)) (dedup eqb l)). lia.
Qed.

(* ------------------------------------------------------------------ *)
(** * The actual outcomes: written, read back, loaded *)

Section ActualFacts.

Variable json_loads : string -> option pyval.
Variable json_dumps : pyval -> string.

Lemma get_set_same (tbl : list (string * option string)) (key : string) (value : pyval) :
  json_loads (json_dumps value) = Some value ->
  get_actual_meta json_loads (set_actual_meta json_dumps tbl key value) key = value.
Proof.
  intros Hrt. unfold get_actual_meta, set_actual_meta.
  rewrite find_upsert_same.
  - destruct (find _ tbl) as [[k v]|]; simpl; now rewrite Hrt.
  - intros r Hr. exact Hr.
  - apply String.eqb_refl.
Qed.

Lemma get_set_other (tbl : list (string * option string)) (key key' : string)
  (value : pyval) :
  key' <> key ->
  get_actual_meta json_loads (set_actual_meta json_dumps tbl key value) key'
  = get_actual_meta json_loads tbl key'.
Proof.
  intros Hne. unfold get_actual_meta, set_actual_meta.
  rewrite find_upsert_other; [reflexivity| |apply String.eqb_refl|].
  - intros r Hr. exact Hr.
  - intros r Hr. simpl in *. apply String.eqb_eq in Hr. apply String.eqb_neq. congruence.
Qed.

(** X13. Reading an actual outcome back after writing it gives the value
    written (when the JSON text of the value decodes to it); the other
    keys read as before; and the table keeps one row per key. *)
Theorem actual_meta_round_trip (tbl : list (string * option string))
  (key : string) (value : pyval) :
  json_loads (json_dumps value) = Some value ->
  get_actual_meta json_loads (set_actual_meta json_dumps tbl key value) key = value /\
  (forall key', key' <> key ->
     get_actual_meta json_loads (set_actual_meta json_dumps tbl key value) key'
     = get_actual_meta json_loads tbl key') /\
  (NoDup (map fst tbl) ->
   NoDup (map fst (set_actual_meta json_dumps tbl key value))).
Proof.
  intros Hrt. split; [now apply get_set_same|]. split.
  - intros key' Hne. now apply get_set_other.
  - unfold set_actual_meta. apply upsert_keys.
    + intros r Hr. exact Hr.
    + apply String.eqb_refl.
    + intros r. simpl. apply String.eqb_eq.
    + reflexivity.
Qed.

(** X14. After Save Actuals on the admin page succeeded, the page reads
    the outcomes back from the store it wrote (that of [utils/db.py])
    without raising: the playoff set is the set of the four names saved,
    the finalist set that of the two names, and the champion the
    non-empty name saved; so the sets have at most four and two
    members. *)
Theorem saved_actuals_load (tbl tbl' : list (string * option string))
  (playoffs finalists : list string) (champion : string) :
  json_loads (json_dumps (PyList (map PyStr playoffs)))
    = Some (PyList (map PyStr playoffs)) ->
  json_loads (json_dumps (PyList (map PyStr finalists)))
    = Some (PyList (map PyStr finalists)) ->
  json_loads (json_dumps (PyStr champion)) = Some (PyStr champion) ->
  save_actuals json_dumps tbl playoffs finalists champion = Some tbl' ->
  existing_actuals json_loads tbl'
  = Some (dedup atom_eqb (map AStr playoffs), dedup atom_eqb (map AStr finalists),
          PyStr champion) /\
  champion <> EmptyString /\
  (List.length (dedup atom_eqb (map AStr playoffs)) <= 4)%nat /\
  (List.length (dedup atom_eqb (map AStr finalists)) <= 2)%nat.
Proof.
  intros Hp Hf Hc. unfold save_actuals.
  destruct (Nat.eqb_spec (List.length playoffs) 4) as [Lp|]; [|discriminate].
  destruct (Nat.eqb_spec (List.length finalists) 2) as [Lf|]; [|discriminate].
  destruct (String.eqb_spec champion "") as [|Hne]; [discriminate|].
  simpl. intros [= <-].
  split; [|split; [exact Hne|]].
  - unfold existing_actuals.
    rewrite (get_set_same _ "champion" _ Hc).
    rewrite !(get_set_other _ "champion") by discriminate.
    rewrite (get_set_same _ "finalists" _ Hf).
    rewrite (get_set_other _ "finalists") by discriminate.
    rewrite (get_set_same _ "playoff_teams" _ Hp).
    unfold py_or.
    destruct playoffs as [|p0 ps]; [discriminate|].
    destruct finalists as [|f0 fs]; [discriminate|].
    cbn [py_truthy is_empty map negb].
    rewrite <- !map_cons, !py_set_strings. cbn [bind].
    destruct (String.eqb_spec champion EmptyString) as [E|_]; [contradiction|].
    reflexivity.
  - split.
    + etransitivity; [apply dedup_length_le|]. rewrite length_map. lia.
    + etransitivity; [apply dedup_length_le|]. rewrite length_map. lia.
Qed.

End ActualFacts.

Lemma actual_meta_round_trip_witness :
  sample_json_loads (sample_json_dumps (PyList [PyStr "CSK"%string; PyStr "KKR"%string]))
  = Some (PyList [PyStr "CSK"%string; PyStr "KKR"%string]) /\
  get_actual_meta sample_json_loads
    (set_actual_meta sample_json_dumps (meta_actuals sample_db) "finalists"
       (PyList [PyStr "CSK"%string; PyStr "KKR"%string])) "finalists"
  = PyList [PyStr "CSK"%string; PyStr "KKR"%string].
Proof.
  split; [reflexivity|].
  exact (proj1 (actual_meta_round_trip sample_json_loads sample_json_dumps
                  (meta_actuals sample_db) "finalists"
                  (PyList [PyStr "CSK"%string; PyStr "KKR"%string]) eq_refl)).
Defined.

Lemma saved_actuals_load_witness :
  exists tbl',
    save_actuals sample_json_dumps []
      ["CSK"; "MI"; "KKR"; "SRH"]%string ["CSK"; "KKR"]%string "CSK" = Some tbl' /\
    existing_actuals sample_json_loads tbl'
    = Some (dedup atom_eqb (map AStr ["CSK"; "MI"; "KKR"; "SRH"]%string),
            dedup atom_eqb (map AStr ["CSK"; "KKR"]%string), PyStr "CSK").
Proof.
  eexists. split; [reflexivity|].
  exact (proj1 (saved_actuals_load sample_json_loads sample_json_dumps [] _
                  ["CSK"; "MI"; "KKR"; "SRH"]%string ["CSK"; "KKR"]%string "CSK"
                  eq_refl eq_refl eq_refl eq_refl)).
Defined.

(* ------------------------------------------------------------------ *)
(** * The predictions a user saves *)

Lemma filter_upsert_other {R : Type} (same q : R -> bool) (update : R -> R) (new : R)
  (tbl : list R) :
  (forall r, same r = true -> same (update r) = true) ->
  same new = true ->
  (forall r, same r = true -> q r = false) ->
  filter q (upsert same update new tbl) = filter q tbl.
Proof.
  intros Hu Hn Hq. induction tbl as [|r t IH]; simpl.
  - now rewrite (Hq new Hn).
  - destruct (same r) eqn:E; simpl.
    + now rewrite (Hq r E), (Hq (update r) (Hu r E)).
    + now rewrite IH.
Qed.

Lemma key_unique {R K : Type} (key : R -> K) (l : list R) (a b : R) :
  NoDup (map key l) -> In a l -> In b l -> key a = key b -> a = b.
Proof.
  induction l as [|x l IH]; simpl; [intros _ []|].
  intros Hn Ha Hb E. inversion Hn as [|? ? Hnotin Hn']; subst.
  destruct Ha as [->|Ha], Hb as [->|Hb]; auto.
  - exfalso. apply Hnotin. rewrite E. now apply in_map.
  - exfalso. apply Hnotin. rewrite <- E. now apply in_map.
Qed.

Lemma py_str_inj (m n : Z) : py_str m = py_str n -> m = n.
Proof.
  unfold py_str. intros E. apply to_int_inj.
  assert (H : Some (Z.to_int m) = Some (Z.to_int n))
    by (rewrite <- !NilEmpty.isi; now rewrite E).
  congruence.
Qed.

Lemma dict_get_In {V : Type} (items : list (atom * V)) (k : atom) (v : V) :
  NoDup (map fst items) -> In (k, v) items -> dict_get items k = Some v.
Proof.
  intros Hn Hin. unfold dict_get.
  destruct (find (fun e => atom_eqb (fst e) k) (rev items)) as [[k' v']|] eqn:E.
  - apply find_some in E as [Hin' Ek]. simpl in Ek. apply atom_eqb_eq in Ek. subst k'.
    apply in_rev in Hin'. simpl. f_equal.
    assert (H : (k, v') = (k, v)) by (apply (key_unique fst items); auto).
    congruence.
  - exfalso. pose proof (find_none _ _ E (k, v) (proj1 (in_rev _ _) Hin)) as H.
    simpl in H. rewrite (proj2 (atom_eqb_eq k k) eq_refl) in H. discriminate.
Qed.

Lemma dict_get_None {V : Type} (items : list (atom * V)) (k : atom) :
  (forall v, ~ In (k, v) items) -> dict_get items k = None.
Proof.
  intros H. unfold dict_get.
  destruct (find (fun e => atom_eqb (fst e) k) (rev items)) as [[k' v']|] eqn:E;
    [|reflexivity].
  apply find_some in E as [Hin Ek]. simpl in Ek. apply atom_eqb_eq in Ek. subst k'.
  apply in_rev in Hin. now apply H in Hin.
Qed.

Lemma dict_get_ext {V : Type} (items items' : list (atom * V)) (k : atom) :
  NoDup (map fst items) -> NoDup (map fst items') ->
  (forall v, In (k, v) items <-> In (k, v) items') ->
  dict_get items k = dict_get items' k.
Proof.
  intros Hn Hn' H.
  destruct (dict_get items' k) as [v|] eqn:E.
  - apply dict_get_In; [exact Hn|]. apply H.
    unfold dict_get in E.
    destruct (find (fun e => atom_eqb (fst e) k) (rev items')) as [[k' v']|] eqn:F;
      [|discriminate].
    apply find_some in F as [Hin Ek]. simpl in Ek. apply atom_eqb_eq in Ek. subst k'.
    apply in_rev in Hin. simpl in E. congruence.
  - apply dict_get_None. intros v Hin. apply H in Hin.
    rewrite (dict_get_In _ _ _ Hn' Hin) in E. discriminate.
Qed.

Section PredictionFacts.

Variable json_loads : string -> option pyval.
Variable json_dumps : pyval -> string.
Variable normalize : string -> string.
Variable pg_int : string -> option Z.

Lemma same_pick_spec (email : string) (m : Z) (r : prediction) :
  String.eqb (p_email r) (normalize email) && Z.eqb (p_match_id r) m = true
  <-> pick_key r = (normalize email, m).
Proof.
  unfold pick_key. rewrite andb_true_iff, String.eqb_eq, Z.eqb_eq.
  split; [intros [-> ->]; reflexivity|intros [= -> ->]; auto].
Qed.

Lemma save_match_spec (tbl : list prediction) (email : string) (m : Z)
  (w : option string) :
  pg_int (py_str m) = Some m ->
  exists tbl',
    upsert_match_prediction normalize pg_int tbl email m w = Some tbl' /\
    In {| p_email := normalize email; p_match_id := m; p_predicted_winner := w |} tbl' /\
    (forall r, pick_key r <> (normalize email, m) -> (In r tbl' <-> In r tbl)) /\
    (forall email', normalize email' <> normalize email ->
       get_user_match_predictions normalize tbl' email'
       = get_user_match_predictions normalize tbl email') /\
    (NoDup (map pick_key tbl) -> NoDup (map pick_key tbl')).
Proof.
  intros Hpg. unfold upsert_match_prediction. rewrite Hpg. cbn [bind].
  eexists. split; [reflexivity|].
  assert (Hu : forall r,
             String.eqb (p_email r) (normalize email) && Z.eqb (p_match_id r) m = true ->
             String.eqb (p_email {| p_email := p_email r; p_match_id := p_match_id r;
                                    p_predicted_winner := w |}) (normalize email)
             && Z.eqb (p_match_id {| p_email := p_email r; p_match_id := p_match_id r;
                                     p_predicted_winner := w |}) m = true)
    by (intros r Hr; exact Hr).
  assert (Hn : String.eqb (p_email {| p_email := normalize email; p_match_id := m;
                                      p_predicted_winner := w |}) (normalize email)
               && Z.eqb (p_match_id {| p_email := normalize email; p_match_id := m;
                                       p_predicted_winner := w |}) m = true)
    by (simpl; now rewrite String.eqb_refl, Z.eqb_refl).
  split; [|split; [|split]].
  - apply upsert_In_new. intros r Hr. apply same_pick_spec in Hr.
    unfold pick_key in Hr. injection Hr as -> ->. reflexivity.
  - intros r Hr. apply upsert_In_other; [exact Hu|exact Hn|].
    destruct (String.eqb (p_email r) (normalize email) && Z.eqb (p_match_id r) m) eqn:E;
      [|reflexivity].
    apply same_pick_spec in E. contradiction.
  - intros email' Hne. unfold get_user_match_predictions. f_equal.
    apply filter_upsert_other; [exact Hu|exact Hn|].
    intros r Hr. apply same_pick_spec in Hr. unfold pick_key in Hr.
    injection Hr as Hr _. apply String.eqb_neq. congruence.
  - apply (upsert_keys _ _ _ Hu Hn pick_key).
    + intros r. rewrite same_pick_spec. reflexivity.
    + reflexivity.
Qed.

Lemma user_picks_In (tbl : list prediction) (email : string) (m : Z) (w : option string) :
  In (AStr (py_str m), w) (get_user_match_predictions normalize tbl email) <->
  In {| p_email := normalize email; p_match_id := m; p_predicted_winner := w |} tbl.
Proof.
  unfold get_user_match_predictions. rewrite in_map_iff. split.
  - intros (r & E & Hr). apply filter_In in Hr as [Hr He].
    apply String.eqb_eq in He. injection E as Em Ew. apply py_str_inj in Em.
    destruct r as [e i p]. simpl in *. now subst.
  - intros H. eexists. split; [|apply filter_In; split; [exact H|]].
    + reflexivity.
    + simpl. apply String.eqb_refl.
Qed.

Lemma user_picks_keys (tbl : list prediction) (email : string) :
  NoDup (map pick_key tbl) ->
  NoDup (map fst (get_user_match_predictions normalize tbl email)).
Proof.
  unfold get_user_match_predictions. rewrite map_map. cbn [fst].
  induction tbl as [|a t IH]; simpl; intros Hn; [constructor|].
  inversion Hn as [|? ? Hnotin Hn']; subst.
  destruct (String.eqb (p_email a) (normalize email)) eqn:E; [|now apply IH].
  simpl. constructor; [|now apply IH].
  intros Hin. apply in_map_iff in Hin as (r & Er & Hr).
  apply filter_In in Hr as [Hr He]. injection Er as Er. apply py_str_inj in Er.
  apply String.eqb_eq in E. apply String.eqb_eq in He.
  apply Hnotin. apply in_map_iff. exists r. split; [|exact Hr].
  unfold pick_key. congruence.
Qed.

(** For an email that has a user and a match that has a fixture,
    [save_match_prediction] is the upsert. *)
Lemma save_match_prediction_referenced (us : list user) (fs : list fixture)
  (tbl : list prediction) (email : string) (m : Z) (w : option string) :
  (forall id, pg_int (py_str m) = Some id -> id = m) ->
  (exists u, In u us /\ u_email u = normalize email) ->
  (exists f, In f fs /\ x_match_id f = m) ->
  save_match_prediction normalize pg_int us fs tbl email m w
  = upsert_match_prediction normalize pg_int tbl email m w.
Proof.
  intros Hpg (u & Hu & Eu) (f & Hf & Ef). unfold save_match_prediction.
  destruct (pg_int (py_str m)) as [id|] eqn:E; cbn [bind].
  - rewrite (Hpg id eq_refl).
    assert (H1 : existsb (fun u => String.eqb (u_email u) (normalize email)) us = true).
    { apply existsb_exists. exists u. split; [exact Hu|]. now apply String.eqb_eq. }
    assert (H2 : existsb (fun f => Z.eqb (x_match_id f) m) fs = true).
    { apply existsb_exists. exists f. split; [exact Hf|]. now apply Z.eqb_eq. }
    cbv zeta. rewrite H1, H2, orb_true_r. reflexivity.
  - unfold upsert_match_prediction. now rewrite E.
Qed.

(** X15. Under the schema of [init_db], and provided Postgres reads
    [str(match_id)] as the same integer and the table has one row per
    user and match: a pick for an email that has a user and a match that
    has a fixture is saved, and it is the pick read back under the key
    [str(match_id)]; the user's other picks and the picks of other users
    read as before, and the table keeps one row per user and match.  A
    new pick whose email has no user, or whose match has no fixture, is
    refused. *)
Theorem match_pick_round_trip (us : list user) (fs : list fixture)
  (tbl : list prediction) (email : string) (m : Z) (w : option string) :
  pg_int (py_str m) = Some m ->
  NoDup (map (fun r => (p_email r, p_match_id r)) tbl) ->
  ((exists u, In u us /\ u_email u = normalize email) ->
   (exists f, In f fs /\ x_match_id f = m) ->
   exists tbl',
     save_match_prediction normalize pg_int us fs tbl email m w = Some tbl' /\
     dict_get (get_user_match_predictions normalize tbl' email) (AStr (py_str m))
     = Some w /\
     (forall m', m' <> m ->
        dict_get (get_user_match_predictions normalize tbl' email) (AStr (py_str m'))
        = dict_get (get_user_match_predictions normalize tbl email) (AStr (py_str m'))) /\
     (forall email', normalize email' <> normalize email ->
        get_user_match_predictions normalize tbl' email'
        = get_user_match_predictions normalize tbl email') /\
     NoDup (map (fun r => (p_email r, p_match_id r)) tbl')) /\
  ((forall r, In r tbl -> (p_email r, p_match_id r) <> (normalize email, m)) ->
   (forall u, In u us -> u_email u <> normalize email) \/
   (forall f, In f fs -> x_match_id f <> m) ->
   save_match_prediction normalize pg_int us fs tbl email m w = None).
Proof.
  intros Hpg Hn. split.
  - intros Hu Hf.
    rewrite (save_match_prediction_referenced us fs tbl email m w); auto;
      [|intros id Hid; congruence].
    destruct (save_match_spec tbl email m w Hpg) as (tbl' & E & Hnew & Hold & Hoth & Hk).
    exists tbl'. split; [exact E|]. specialize (Hk Hn).
    split; [|split; [|split; [exact Hoth|exact Hk]]].
    + apply dict_get_In; [now apply user_picks_keys|]. now apply user_picks_In.
    + intros m' Hne. apply dict_get_ext; try now apply user_picks_keys.
      intros v. rewrite !user_picks_In. apply Hold.
      unfold pick_key. simpl. congruence.
  - intros Hnew Hfk. unfold save_match_prediction. rewrite Hpg. cbn [bind]. cbv zeta.
    assert (H0 : existsb (fun r => String.eqb (p_email r) (normalize email)
                                   && Z.eqb (p_match_id r) m) tbl = false).
    { destruct (existsb _ tbl) eqn:E; [|reflexivity].
      apply existsb_exists in E as (r & Hr & E). apply same_pick_spec in E.
      exfalso. exact (Hnew r Hr E). }
    rewrite H0. cbn [orb].
    destruct Hfk as [Hno|Hno].
    + assert (H1 : existsb (fun u => String.eqb (u_email u) (normalize email)) us = false).
      { destruct (existsb _ us) eqn:E; [|reflexivity].
        apply existsb_exists in E as (u & Hu & E). apply String.eqb_eq in E.
        exfalso. exact (Hno u Hu E). }
      now rewrite H1.
    + assert (H2 : existsb (fun f => Z.eqb (x_match_id f) m) fs = false).
      { destruct (existsb _ fs) eqn:E; [|reflexivity].
        apply existsb_exists in E as (f & Hf & E). apply Z.eqb_eq in E.
        exfalso. exact (Hno f Hf E). }
      now rewrite H2, andb_false_r.
Qed.

(** X16. On the prediction form the stored picks never set the
    preselected team: the picks are keyed by [str(match_id)] and looked
    up by the integer [match_id], so every fixture's radio starts on its
    first team. *)
Theorem stored_picks_never_preselected (tbl : list prediction) (email : string)
  (f : fixture) :
  default_pick (get_user_match_predictions normalize tbl email) f = x_team_a f /\
  radio_index (get_user_match_predictions normalize tbl email) f = 0%nat.
Proof.
  assert (E : default_pick (get_user_match_predictions normalize tbl email) f
              = x_team_a f).
  { unfold default_pick. rewrite dict_get_None; [reflexivity|].
    intros v Hin. unfold get_user_match_predictions in Hin.
    apply in_map_iff in Hin as (r & Er & _). discriminate. }
  split; [exact E|].
  unfold radio_index. rewrite E.
  now rewrite (proj2 (opt_eqb_eq (x_team_a f) (x_team_a f)) eq_refl).
Qed.

Lemma save_picks_spec (session_state : string -> option (option string))
  (email : string) (fs : list fixture) :
  forall preds,
  (forall x, In x fs -> pg_int (py_str (x_match_id x)) = Some (x_match_id x)) ->
  NoDup (map x_match_id fs) ->
  exists preds',
    save_picks normalize pg_int preds email session_state fs = (preds', true) /\
    (forall x, In x fs ->
       In {| p_email := normalize email; p_match_id := x_match_id x;
             p_predicted_winner := selected session_state x |} preds') /\
    (forall r, p_email r <> normalize email \/ ~ In (p_match_id r) (map x_match_id fs) ->
       (In r preds' <-> In r preds)) /\
    (NoDup (map pick_key preds) -> NoDup (map pick_key preds')).
Proof.
  induction fs as [|f fs IH]; intros preds Hpg Hn.
  - exists preds. simpl. repeat split; auto; intros _ [].
  - inversion Hn as [|? ? Hnotin Hn']; subst.
    destruct (save_match_spec preds email (x_match_id f) (selected session_state f)
                (Hpg f (or_introl eq_refl)))
      as (preds1 & E1 & Hnew1 & Hold1 & _ & Hk1).
    destruct (IH preds1 (fun x Hx => Hpg x (or_intror Hx)) Hn')
      as (preds' & E & Hnew & Hold & Hk).
    exists preds'. cbn [save_picks]. rewrite E1. split; [exact E|].
    split; [|split].
    + intros x [<-|Hx]; [|now apply Hnew].
      apply Hold; [|exact Hnew1]. right. exact Hnotin.
    + intros r Hr. rewrite Hold.
      * apply Hold1. unfold pick_key. intros [= He Hm].
        destruct Hr as [Hr|Hr]; [contradiction|]. apply Hr. left. now symmetry.
      * destruct Hr as [Hr|Hr]; [now left|]. right. intros Hin. apply Hr. now right.
    + intros H. apply Hk, Hk1, H.
Qed.

Lemma save_picks_false (session_state : string -> option (option string))
  (email : string) (fs : list fixture) :
  forall preds preds',
  save_picks normalize pg_int preds email session_state fs = (preds', false) ->
  exists x, In x fs /\ pg_int (py_str (x_match_id x)) = None.
Proof.
  induction fs as [|f fs IH]; intros preds preds'; cbn [save_picks].
  - discriminate.
  - unfold upsert_match_prediction.
    destruct (pg_int (py_str (x_match_id f))) as [id|] eqn:E; cbn [bind].
    + intros H. apply IH in H as (x & Hx & Hp). exists x. split; [now right|exact Hp].
    + intros _. exists f. split; [now left|exact E].
Qed.

(** X17. A click on Save Predictions with a champion, four playoff
    teams and two finalists, on a non-empty fixture list with distinct
    match ids that Postgres accepts, ends as saved: the season
    predictions are stored, every fixture has the user's row with the
    team selected for it, the rows of other users are as before, and the
    table keeps one row per user and match. *)
Theorem save_predictions_stores (metas : list meta_prediction) (preds : list prediction)
  (fs : list fixture) (email : string) (playoffs finalists : list string)
  (champion : string) (session_state : string -> option (option string)) :
  fs <> [] -> champion <> EmptyString ->
  List.length playoffs = 4%nat -> List.length finalists = 2%nat ->
  (forall x, In x fs -> pg_int (py_str (x_match_id x)) = Some (x_match_id x)) ->
  NoDup (map x_match_id fs) ->
  exists preds',
    save_predictions json_dumps normalize pg_int metas preds fs email
                     playoffs finalists champion session_state
    = (save_meta_predictions json_dumps normalize metas email playoffs finalists champion,
       preds', saved) /\
    (forall x, In x fs ->
       In {| p_email := normalize email; p_match_id := x_match_id x;
             p_predicted_winner := selected session_state x |} preds') /\
    (forall r, p_email r <> normalize email -> (In r preds' <-> In r preds)) /\
    (NoDup (map (fun r => (p_email r, p_match_id r)) preds) ->
     NoDup (map (fun r => (p_email r, p_match_id r)) preds')).
Proof.
  intros Hfs Hc Lp Lf Hpg Hn.
  destruct (save_picks_spec session_state email fs preds Hpg Hn)
    as (preds' & E & Hnew & Hold & Hk).
  exists preds'. unfold save_predictions.
  destruct fs as [|f0 fs0]; [contradiction|]. cbn [is_empty].
  destruct (String.eqb_spec champion EmptyString) as [|_]; [contradiction|].
  rewrite Lp, Lf. cbn [Nat.eqb negb]. rewrite E.
  split; [reflexivity|]. split; [exact Hnew|]. split; [|exact Hk].
  intros r Hr. apply Hold. now left.
Qed.

Ltac outcome_case :=
  let H := fresh "H" in
  split;
  [split; intros H; (reflexivity || discriminate H)
  |split;
   [intros _ _; split; reflexivity
   |split; [intros [H|H]; discriminate H|intros H; discriminate H]]].

(** X18. How a click on Save Predictions can end.  When the fixture
    list is empty or a validation fails, nothing is written.  Otherwise
    the season predictions are written; and the click fails to end as
    saved only when Postgres rejects the text of a fixture's match id,
    in which case the season predictions stay written. *)
Theorem save_predictions_outcomes (metas metas' : list meta_prediction)
  (preds preds' : list prediction) (fs : list fixture) (email : string)
  (playoffs finalists : list string) (champion : string)
  (session_state : string -> option (option string)) (o : save_outcome) :
  save_predictions json_dumps normalize pg_int metas preds fs email
                   playoffs finalists champion session_state
  = (metas', preds', o) ->
  (o = no_fixtures <-> fs = []) /\
  (o <> saved -> o <> pick_rejected -> metas' = metas /\ preds' = preds) /\
  (o = saved \/ o = pick_rejected ->
     fs <> [] /\ champion <> EmptyString /\
     List.length playoffs = 4%nat /\ List.length finalists = 2%nat /\
     metas' = save_meta_predictions json_dumps normalize metas email
                                    playoffs finalists champion) /\
  (o = pick_rejected ->
     exists x, In x fs /\ pg_int (py_str (x_match_id x)) = None).
Proof.
  unfold save_predictions.
  destruct fs as [|f0 fs0]; cbn [is_empty].
  { intros [= <- <- <-]. outcome_case. }
  destruct (String.eqb_spec champion EmptyString) as [Ec|Ec].
  { intros [= <- <- <-]. outcome_case. }
  destruct (Nat.eqb_spec (List.length playoffs) 4) as [Lp|Lp]; cbn [negb].
  2:{ intros [= <- <- <-]. outcome_case. }
  destruct (Nat.eqb_spec (List.length finalists) 2) as [Lf|Lf]; cbn [negb].
  2:{ intros [= <- <- <-]. outcome_case. }
  destruct (save_picks normalize pg_int preds email session_state (f0 :: fs0))
    as [preds1 ok] eqn:E.
  intros [= <- <- <-]. split; [|split; [|split]].
  - destruct ok; split; discriminate.
  - destruct ok; intros H1 H2; contradiction.
  - intros _. repeat split; auto. discriminate.
  - intros H. destruct ok; [discriminate|]. now apply save_picks_false in E.
Qed.

(** X19. The season predictions a user saves are the row read back for
    that user, and scoring decodes it without falling back to its
    [except] branch: the predicted sets are the sets of the names saved
    and the champion is the name saved (given that the JSON texts are
    not empty and decode to the lists).  The rows of other users read as
    before and the table keeps one row per user. *)
Theorem meta_prediction_round_trip (tbl : list meta_prediction) (email : string)
  (playoff_teams finalists : list string) (champion : string) :
  json_dumps (PyList (map PyStr playoff_teams)) <> EmptyString ->
  json_dumps (PyList (map PyStr finalists)) <> EmptyString ->
  json_loads (json_dumps (PyList (map PyStr playoff_teams)))
    = Some (PyList (map PyStr playoff_teams)) ->
  json_loads (json_dumps (PyList (map PyStr finalists)))
    = Some (PyList (map PyStr finalists)) ->
  let tbl' := save_meta_predictions json_dumps normalize tbl email
                                    playoff_teams finalists champion in
  (exists r, get_meta_predictions normalize tbl' email = Some r /\
             m_email r = normalize email /\
             decode_row json_loads r
             = Some (dedup atom_eqb (map AStr playoff_teams),
                     dedup atom_eqb (map AStr finalists), Some champion)) /\
  (forall email', normalize email' <> normalize email ->
     get_meta_predictions normalize tbl' email'
     = get_meta_predictions normalize tbl email') /\
  (NoDup (map m_email tbl) -> NoDup (map m_email tbl')).
Proof.
  intros Np Nf Hp Hf tbl'. subst tbl'. unfold save_meta_predictions, get_meta_predictions.
  split; [|split].
  - rewrite find_upsert_same.
    + assert (D : forall e,
                 decode_row json_loads
                   {| m_email := e;
                      m_playoff_teams := Some (json_dumps (PyList (map PyStr playoff_teams)));
                      m_finalists := Some (json_dumps (PyList (map PyStr finalists)));
                      m_champion := Some champion |}
                 = Some (dedup atom_eqb (map AStr playoff_teams),
                         dedup atom_eqb (map AStr finalists), Some champion)).
      { intros e. unfold decode_row, text_or. cbn [m_playoff_teams m_finalists m_champion].
        destruct (String.eqb_spec (json_dumps (PyList (map PyStr playoff_teams)))
                    EmptyString) as [|_]; [contradiction|].
        destruct (String.eqb_spec (json_dumps (PyList (map PyStr finalists)))
                    EmptyString) as [|_]; [contradiction|].
        rewrite Hp, Hf. cbn [bind]. now rewrite !py_set_strings. }
      destruct (find _ tbl) as [r|] eqn:F.
      * eexists. split; [reflexivity|]. split; [|apply D].
        apply find_some in F as [_ F]. now apply String.eqb_eq in F.
      * eexists. split; [reflexivity|]. split; [reflexivity|apply D].
    + intros r Hr. exact Hr.
    + simpl. apply String.eqb_refl.
  - intros email' Hne. apply find_upsert_other.
    + intros r Hr. exact Hr.
    + simpl. apply String.eqb_refl.
    + intros r Hr. apply String.eqb_eq in Hr. apply String.eqb_neq. congruence.
  - apply upsert_keys.
    + intros r Hr. exact Hr.
    + simpl. apply String.eqb_refl.
    + intros r. simpl. apply String.eqb_eq.
    + reflexivity.
Qed.

End PredictionFacts.

Lemma match_pick_round_trip_witness :
  sample_pg_int (py_str 3) = Some 3 /\
  NoDup (map (fun r => (p_email r, p_match_id r)) (predictions_match sample_db)) /\
  (exists tbl',
     save_match_prediction sample_normalize sample_pg_int
       (users sample_db) (fixtures sample_db) (predictions_match sample_db)
       "asha@x.io"%string 3 (Some "SRH"%string) = Some tbl' /\
     dict_get (get_user_match_predictions sample_normalize tbl' "asha@x.io"%string)
              (AStr (py_str 3)) = Some (Some "SRH"%string)) /\
  save_match_prediction sample_normalize sample_pg_int
    (users sample_db) (fixtures sample_db) (predictions_match sample_db)
    "asha@x.io"%string 9 (Some "CSK"%string) = None.
Proof.
  assert (H1 : sample_pg_int (py_str 3) = Some 3) by reflexivity.
  assert (H2 : NoDup (map (fun r => (p_email r, p_match_id r))
                          (predictions_match sample_db))) by nodup_by_eval.
  split; [exact H1|]. split; [exact H2|]. split.
  - destruct (proj1 (match_pick_round_trip sample_normalize sample_pg_int
                       (users sample_db) (fixtures sample_db)
                       (predictions_match sample_db) "asha@x.io"%string 3
                       (Some "SRH"%string) H1 H2))
      as (tbl' & E & H & _).
    + eexists. split; [left; reflexivity|reflexivity].
    + eexists. split; [right; right; left; reflexivity|reflexivity].
    + exists tbl'. split; [exact E|exact H].
  - reflexivity.
Defined.

Lemma save_predictions_stores_witness :
  exists preds',
    save_predictions sample_json_dumps sample_normalize sample_pg_int
      (predictions_meta sample_db) (predictions_match sample_db) (fixtures sample_db)
      "chet@x.io"%string ["CSK"; "MI"; "RCB"; "GT"]%string ["CSK"; "MI"]%string "CSK"%string
      (fun _ => None)
    = (save_meta_predictions sample_json_dumps sample_normalize
         (predictions_meta sample_db) "chet@x.io"%string
         ["CSK"; "MI"; "RCB"; "GT"]%string ["CSK"; "MI"]%string "CSK"%string,
       preds', saved) /\
    forall x, In x (fixtures sample_db) ->
      In {| p_email := "chet@x.io"; p_match_id := x_match_id x;
            p_predicted_winner := x_team_a x |} preds'.
Proof.
  destruct (save_predictions_stores sample_json_dumps sample_normalize sample_pg_int
              (predictions_meta sample_db) (predictions_match sample_db)
              (fixtures sample_db) "chet@x.io"%string
              ["CSK"; "MI"; "RCB"; "GT"]%string ["CSK"; "MI"]%string "CSK"%string
              (fun _ => None))
    as (preds' & E & H & _).
  - discriminate.
  - discriminate.
  - reflexivity.
  - reflexivity.
  - intros x [<-|[<-|[<-|[]]]]; reflexivity.
  - nodup_by_eval.
  - exists preds'. split; [exact E|exact H].
Defined.

Lemma save_predictions_outcomes_witness :
  exists metas' preds',
    save_predictions sample_json_dumps sample_normalize (fun _ => None)
      (predictions_meta sample_db) (predictions_match sample_db) (fixtures sample_db)
      "chet@x.io"%string ["CSK"; "MI"; "RCB"; "GT"]%string ["CSK"; "MI"]%string "CSK"%string
      (fun _ => None)
    = (metas', preds', pick_rejected) /\
    metas' = save_meta_predictions sample_json_dumps sample_normalize
               (predictions_meta sample_db) "chet@x.io"%string
               ["CSK"; "MI"; "RCB"; "GT"]%string ["CSK"; "MI"]%string "CSK"%string /\
    preds' = predictions_match sample_db.
Proof.
  do 2 eexists. split; [reflexivity|]. split; [|reflexivity].
  refine (proj2 (proj2 (proj2 (proj2
    (proj1 (proj2 (proj2
      (save_predictions_outcomes sample_json_dumps sample_normalize (fun _ => None)
         (predictions_meta sample_db) _ (predictions_match sample_db) _
         (fixtures sample_db) "chet@x.io"%string
         ["CSK"; "MI"; "RCB"; "GT"]%string ["CSK"; "MI"]%string "CSK"%string
         (fun _ => None) pick_rejected eq_refl)))
      (or_intror eq_refl)))))).
Defined.

Lemma meta_prediction_round_trip_witness :
  exists r,
    get_meta_predictions sample_normalize
      (save_meta_predictions sample_json_dumps sample_normalize
         (predictions_meta sample_db) "chet@x.io"%string
         ["CSK"; "MI"; "RCB"; "GT"]%string ["CSK"; "MI"]%string "CSK"%string)
      "chet@x.io"%string = Some r /\
    m_email r = "chet@x.io"%string /\
    decode_row sample_json_loads r
    = Some (dedup atom_eqb (map AStr ["CSK"; "MI"; "RCB"; "GT"]%string),
            dedup atom_eqb (map AStr ["CSK"; "MI"]%string), Some "CSK"%string).
Proof.
  refine (proj1 (meta_prediction_round_trip sample_json_loads sample_json_dumps
                   sample_normalize (predictions_meta sample_db) "chet@x.io"%string
                   ["CSK"; "MI"; "RCB"; "GT"]%string ["CSK"; "MI"]%string "CSK"%string
                   _ _ eq_refl eq_refl)).
  - vm_compute. discriminate.
  - vm_compute. discriminate.
Defined.

(* ------------------------------------------------------------------ *)
(** * The weekly winners page *)

Lemma StronglySorted_filter {A : Type} (R : A -> A -> Prop) (p : A -> bool) (l : list A) :
  StronglySorted R l -> StronglySorted R (filter p l).
Proof.
  induction 1 as [|a l Hs IH Ha]; simpl; [constructor|].
  destruct (p a); [|exact IH]. constructor; [exact IH|].
  rewrite Forall_forall in *. intros y Hy. apply filter_In in Hy as [Hy _]. auto.
Qed.

Lemma week_winners_nonempty (table : list weekly_row) (w : Z) :
  (exists x, In x table /\ w_week x = w) ->
  snd (week_winners (w, filter (in_group (fun r => Some (w_week r)) w) table)) <> [].
Proof.
  intros (x0 & Hx0 & Hw0).
  pose proof (week_winners_In table w) as Hws.
  set (ws := snd (week_winners
                    (w, filter (in_group (fun r => Some (w_week r)) w) table))) in *.
  set (sub := filter (in_group (fun r => Some (w_week r)) w) table).
  assert (Hsub : In x0 sub) by (apply week_group_In; auto).
  destruct (max_of (map w_match_points sub)) as [m|] eqn:Em.
  - apply max_of_spec in Em as [Hm Hle].
    apply in_map_iff in Hm as (y & Ey & Hy).
    apply week_group_In in Hy as [Hy Hyw].
    assert (Hwin : In y ws).
    { apply Hws. repeat split; auto. intros z Hz Hzw. rewrite Ey.
      apply Hle, in_map, week_group_In. auto. }
    intros E. rewrite E in Hwin. destruct Hwin.
  - destruct sub; [destruct Hsub|discriminate].
Qed.

Lemma weekly_table_nil (rows : list scored) :
  weekly_table rows = [] <-> forall r, In r rows -> is_complete r = false.
Proof.
  split.
  - intros E r Hr. destruct (is_complete r) eqn:C; [|reflexivity]. exfalso.
    unfold is_complete, week_key in C.
    destruct (s_name r) as [n|] eqn:En; [|discriminate].
    destruct (s_week r) as [w|] eqn:Ew; [|discriminate].
    assert (H : has_scored_row rows w).
    { exists r. split; [exact Hr|]. split; [exact Ew|]. rewrite En. discriminate. }
    apply week_has_rows in H. rewrite E in H. destruct H.
  - intros H. destruct (weekly_table rows) as [|x t] eqn:E; [reflexivity|].
    assert (Hx : In x (weekly_table rows)) by (rewrite E; now left).
    apply weekly_table_In in Hx as [(r & Hr & _ & Hn & Hw) _].
    specialize (H r Hr). apply is_complete_false in H. destruct H; congruence.
Qed.

Lemma scored_week_listed (d : db) (w : Z) :
  has_scored_row (mf_rows (compute_match_scores d)) w -> In w (list_weeks d).
Proof.
  intros (r & Hr & Hw & _).
  destruct (scored_row_origin d r Hr) as (p & _ & _ & [(f & Hf & _ & Ef & _)|(_ & E & _)] & _).
  - unfold list_weeks. apply (group_keys_In x_week). exists f. split; [exact Hf|congruence].
  - congruence.
Qed.

(** X20. Under the header of a week the page shows the notice that no
    match is completed exactly when no named user predicted a match of
    that week, whether or not results are in.  Otherwise it shows the
    winners, a non-empty table of exactly the rows of the week with the
    most points, and under All Scores exactly the rows of the week in
    order of descending points. *)
Theorem weekly_section_content (d : db)
  (totals : list weekly_row) (winners : list (Z * list weekly_row)) (w : Z) :
  weekly_winners d = Some (totals, winners) ->
  let rows := mf_rows (compute_match_scores d) in
  (~ has_scored_row rows w -> week_section totals winners w = [no_completed]) /\
  (has_scored_row rows w ->
   exists ws all,
     week_section totals winners w
     = [winners_label; dataframe (map shown_cols ws);
        scores_label; dataframe (map shown_cols all)] /\
     ws <> [] /\
     (forall x, In x ws <-> is_week_winner totals w x) /\
     (forall x, In x all <-> In x totals /\ w_week x = w) /\
     StronglySorted (fun x y => w_match_points y <= w_match_points x) all).
Proof.
  intros E rows. destruct (weekly_from_inv _ _ _ E) as [Et Ew]. fold rows in Et, Ew.
  split.
  - intros Hw. unfold week_section. rewrite Ew, winners_get_groupby.
    destruct (in_dec Z.eq_dec w _) as [Hin|_]; [|reflexivity].
    exfalso. apply Hw. now apply week_has_rows.
  - intros Hw.
    exists (snd (week_winners
                   (w, filter (in_group (fun r => Some (w_week r)) w)
                              (weekly_table rows)))),
           (filter (fun x => Z.eqb (w_week x) w) totals).
    assert (Hne : snd (week_winners
                         (w, filter (in_group (fun r => Some (w_week r)) w)
                                    (weekly_table rows))) <> []).
    { apply week_winners_nonempty.
      apply week_has_rows, group_keys_In in Hw as (x & Hx & [= Hxw]). eauto. }
    split; [|split; [exact Hne|split; [|split]]].
    + unfold week_section. rewrite Ew, winners_get_groupby.
      destruct (in_dec Z.eq_dec w _) as [_|Hout].
      * destruct (snd (week_winners _)); [contradiction|reflexivity].
      * exfalso. apply Hout. now apply week_has_rows.
    + intros x. rewrite week_winners_In. apply is_week_winner_perm.
      intros y. rewrite Et. symmetry. apply sort_by_In.
    + intros x. rewrite filter_In, Z.eqb_eq. reflexivity.
    + apply (StronglySorted_impl_In (holds totals_before)); [|apply StronglySorted_filter].
      * intros x y Hx Hy H. apply filter_In in Hx as [_ Hx]. apply filter_In in Hy as [_ Hy].
        apply Z.eqb_eq in Hx. apply Z.eqb_eq in Hy.
        unfold holds in H. apply totals_before_spec in H. unfold week_then_points in H. lia.
      * rewrite Et. apply (sort_by_sorted totals_before);
          [apply totals_before_total|apply totals_before_trans].
Qed.

Lemma weekly_section_content_witness :
  exists totals winners ws all,
    weekly_winners sample_db_no_results = Some (totals, winners) /\
    week_section totals winners 1
    = [winners_label; dataframe (map shown_cols ws);
       scores_label; dataframe (map shown_cols all)] /\
    ws <> [].
Proof.
  assert (Hw : has_scored_row (mf_rows (compute_match_scores sample_db_no_results)) 1).
  { eexists. split; [left; reflexivity|]. split; [reflexivity|discriminate]. }
  destruct (proj2 (weekly_section_content sample_db_no_results _ _ 1 eq_refl) Hw)
    as (ws & all & E & Hne & _).
  do 2 eexists. exists ws, all. split; [reflexivity|]. split; [exact E|exact Hne].
Defined.

(** X21. What the weekly winners page shows when the weekly result is
    returned: the notice that fixtures have no weeks never appears; the
    notice that there are no weekly scores is the whole page exactly
    when no scoring row has both a name and a week; and every week with
    a scoring row of a named user has its header on the page. *)
Theorem weekly_page_screen (d : db) (screen : list widget) :
  weekly_page d = Some screen ->
  let rows := mf_rows (compute_match_scores d) in
  ~ In info_no_weeks screen /\
  (screen = [page_title; info_no_scores] <->
   forall r, In r rows -> is_complete r = false) /\
  (forall w, has_scored_row rows w -> In (week_header w) screen).
Proof.
  unfold weekly_page. destruct (weekly_winners d) as [[totals winners]|] eqn:E;
    [|discriminate].
  cbn [bind]. intros [= <-]. set (rows := mf_rows (compute_match_scores d)).
  destruct (weekly_from_inv _ _ _ E) as [Et _]. fold rows in Et.
  assert (Hnil : totals = [] <-> forall r, In r rows -> is_complete r = false).
  { rewrite <- weekly_table_nil. rewrite Et. split.
    - intros H. apply Permutation_nil. rewrite <- H. apply sort_by_perm.
    - intros ->. reflexivity. }
  assert (Hcomplete : forall w, has_scored_row rows w ->
                                exists r, In r rows /\ is_complete r = true).
  { intros w (r & Hr & Hw & Hn). exists r. split; [exact Hr|].
    destruct (is_complete r) eqn:C; [reflexivity|].
    apply is_complete_false in C. destruct C; congruence. }
  destruct totals as [|x t]; cbn [is_empty].
  - split; [|split].
    + simpl. intuition discriminate.
    + split; [intros _; now apply Hnil|reflexivity].
    + intros w Hw. destruct (Hcomplete w Hw) as (r & Hr & C).
      rewrite (proj1 Hnil eq_refl r Hr) in C. discriminate.
  - assert (Hsome : exists w0, has_scored_row rows w0).
    { destruct (weekly_table rows) as [|y l] eqn:Ey.
      - rewrite Et in *. discriminate.
      - assert (Hy : In y (weekly_table rows)) by (rewrite Ey; now left).
        apply weekly_table_In in Hy as [(r & Hr & _ & Hn & Hw) _].
        exists (w_week y), r. split; [exact Hr|]. split; [exact Hw|].
        rewrite Hn. discriminate. }
    destruct Hsome as (w0 & Hw0). apply scored_week_listed in Hw0.
    destruct (list_weeks d) as [|w1 weeks] eqn:Ew; [destruct Hw0|].
    cbn [is_empty]. split; [|split].
    + intros [H|H]; [discriminate|]. apply in_flat_map in H as (w & _ & [H|H]);
        [discriminate|].
      unfold week_section in H. destruct (winners_get winners w) as [ws|].
      * destruct (is_empty ws); simpl in H; intuition discriminate.
      * simpl in H. intuition discriminate.
    + split.
      * simpl. discriminate.
      * intros H. apply Hnil in H. discriminate.
    + intros w Hw. right. apply in_flat_map. exists w. split; [|now left].
      rewrite <- Ew. now apply scored_week_listed.
Qed.

Lemma weekly_page_screen_witness :
  exists screen,
    weekly_page sample_db = Some screen /\
    ~ In info_no_weeks screen /\
    In (week_header 2) screen.
Proof.
  destruct (weekly_page sample_db) as [screen|] eqn:E; [|discriminate].
  exists screen. split; [reflexivity|].
  destruct (weekly_page_screen sample_db screen E) as (H1 & _ & H3).
  split; [exact H1|]. apply H3.
  eexists. split; [right; right; right; right; left; reflexivity|].
  split; [reflexivity|discriminate].
Defined.

(* ------------------------------------------------------------------ *)
(** * From the prediction form to the scores *)

(** X22. After a click on Save Predictions that passes the validations
    (fixtures with distinct match ids that Postgres accepts), match
    scoring over the new table has, for every fixture, a row of the
    user with the week and the result of that fixture; it has
    [POINTS match_winner] points when the fixture has a result and the
    team selected for it is that result, and 0 points otherwise. *)
Theorem saved_picks_scored (json_dumps : pyval -> string)
  (normalize : string -> string) (pg_int : string -> option Z)
  (d : db) (email : string) (playoffs finalists : list string) (champion : string)
  (session_state : string -> option (option string)) :
  fixtures d <> [] -> champion <> EmptyString ->
  List.length playoffs = 4%nat -> List.length finalists = 2%nat ->
  (forall x, In x (fixtures d) ->
     pg_int (py_str (x_match_id x)) = Some (x_match_id x)) ->
  NoDup (map x_match_id (fixtures d)) ->
  exists metas' preds',
    save_predictions json_dumps normalize pg_int (predictions_meta d)
                     (predictions_match d) (fixtures d) email
                     playoffs finalists champion session_state
    = (metas', preds', saved) /\
    forall x, In x (fixtures d) ->
      exists r,
        In r (mf_rows (compute_match_scores
                         {| users := users d; fixtures := fixtures d;
                            predictions_match := preds';
                            predictions_meta := metas';
                            meta_actuals := meta_actuals d |})) /\
        s_email r = normalize email /\ s_match_id r = x_match_id x /\
        s_week r = x_week x /\ s_winner r = x_winner x /\
        s_match_points r
        = match x_winner x with
          | Some w => if opt_eqb (selected session_state x) (Some w)
                      then POINTS match_winner else 0
          | None => 0
          end.
Proof.
  intros Hfs Hc Lp Lf Hpg Hn.
  destruct (save_picks_spec normalize pg_int session_state email (fixtures d)
              (predictions_match d) Hpg Hn) as (preds' & E & Hnew & _).
  exists (save_meta_predictions json_dumps normalize (predictions_meta d) email
            playoffs finalists champion), preds'.
  split.
  - unfold save_predictions.
    destruct (fixtures d) as [|f0 fs0]; [contradiction|]. cbn [is_empty].
    destruct (String.eqb_spec champion EmptyString) as [|_]; [contradiction|].
    rewrite Lp, Lf. cbn [Nat.eqb negb]. now rewrite E.
  - intros x Hx.
    set (d' := {| users := users d; fixtures := fixtures d;
                  predictions_match := preds';
                  predictions_meta := _; meta_actuals := meta_actuals d |}).
    destruct (prediction_has_row d' _ (Hnew x Hx)) as (r & Hr & Ecols).
    unfold scored_cols, pred_cols in Ecols. cbn [p_email p_match_id p_predicted_winner]
      in Ecols. injection Ecols as Ee Em Ew.
    exists r. split; [exact Hr|]. split; [exact Ee|]. split; [exact Em|].
    destruct (scored_row_origin d' r Hr)
      as (p & _ & Ecols' & [(f & Hf & Hfid & Hfw & Hfr)|(Hnone & _)] & Hpts).
    + unfold scored_cols, pred_cols in Ecols'. injection Ecols' as _ Em' _.
      assert (Efx : f = x).
      { apply (key_unique x_match_id (fixtures d)); auto. congruence. }
      subst f. split; [exact Hfw|]. split; [exact Hfr|].
      rewrite Hpts, Hfr, Ew. reflexivity.
    + exfalso. unfold scored_cols, pred_cols in Ecols'. injection Ecols' as _ Em' _.
      apply (Hnone x Hx). congruence.
Qed.

Lemma saved_picks_scored_witness :
  exists metas' preds',
    save_predictions sample_json_dumps sample_normalize sample_pg_int
      (predictions_meta sample_db) (predictions_match sample_db) (fixtures sample_db)
      "chet@x.io"%string ["CSK"; "MI"; "RCB"; "GT"]%string ["CSK"; "MI"]%string
      "CSK"%string (fun _ => None)
    = (metas', preds', saved) /\
    exists r,
      In r (mf_rows (compute_match_scores
                       {| users := users sample_db; fixtures := fixtures sample_db;
                          predictions_match := preds';
                          predictions_meta := metas';
                          meta_actuals := meta_actuals sample_db |})) /\
      s_email r = "chet@x.io"%string /\ s_match_id r = 1 /\
      s_match_points r = POINTS match_winner.
Proof.
  destruct (saved_picks_scored sample_json_dumps sample_normalize sample_pg_int
              sample_db "chet@x.io"%string
              ["CSK"; "MI"; "RCB"; "GT"]%string ["CSK"; "MI"]%string "CSK"%string
              (fun _ => None))
    as (metas' & preds' & E & H).
  - discriminate.
  - discriminate.
  - reflexivity.
  - reflexivity.
  - intros x [<-|[<-|[<-|[]]]]; reflexivity.
  - nodup_by_eval.
  - exists metas', preds'. split; [exact E|].
    destruct (H (mk_fixture 1 "CSK" "MI" 1 (Some "CSK"%string)) (or_introl eq_refl))
      as (r & Hr & He & Hm & _ & _ & Hp).
    exists r. split; [exact Hr|]. split; [exact He|]. split; [exact Hm|exact Hp].
Defined.
